(** * See-The-Play dashboard: reconciliation engine and lineup evaluator

    A shallow embedding of the message handler, the lineup evaluator and the
    confidence display of [frontend/src/App.js], followed by the properties
    the specification states about them.

    Conventions.
    - JavaScript numbers are modelled as real numbers ([R]): sums, products,
      quotients, [Math.max], [Math.min], [Math.round] and [Math.exp] are the
      exact operations, IEEE rounding is abstracted away.
    - An optional or nullable field is an [option]; [x || d] on a number is
      [Js.or_else] (absent and zero are both falsy).
    - React state setters are applied in program order to an explicit state
      record; console output, socket sends and timers are recorded as a list
      of effects.
    - A [throw] is an explicit [Throw] completion, so that "never throws" is
      a statement about the model and not a consequence of its type. *)

From Stdlib Require Import Reals Lra Zfloor ZArith.
From stdpp Require Import base option list strings gmap pretty.

Open Scope R_scope.

(* ===================================================================== *)
(** * Part I: definitions                                                 *)
(* ===================================================================== *)

(** ** JavaScript primitives used by the code *)

Module Js.

(** [Math.max(a, b)] and [Math.min(a, b)]. *)
Definition Math_max (a b : R) : R := Rmax a b.
Definition Math_min (a b : R) : R := Rmin a b.

(** [Math.round(x)]: the nearest integer, ties towards plus infinity. *)
Definition Math_round (x : R) : R := IZR (Zfloor (x + / 2)).

(** [v || d] where [v] is a possibly absent number: absent and [0] are
    falsy and yield [d]. *)
Definition or_else (v : option R) (d : R) : R :=
  match v with
  | Some x => if Req_dec_T x 0 then d else x
  | None => d
  end.

(** The result of evaluating an expression: a value or a thrown error. *)
Inductive Completion (A : Type) : Type :=
| Normal (a : A)
| Throw (err : string).
Arguments Normal {A} a.
Arguments Throw {A} err.

Definition bind {A B} (c : Completion A) (k : A → Completion B) : Completion B :=
  match c with
  | Normal a => k a
  | Throw e => Throw e
  end.

(** [try { body } catch (err) { handler }]. *)
Definition try_catch {A} (body : Completion A) (handler : string → Completion A)
  : Completion A :=
  match body with
  | Normal a => Normal a
  | Throw e => handler e
  end.

(** A settled promise. *)
Inductive Settled (A : Type) : Type :=
| Fulfilled (v : A)
| Rejected (reason : string).
Arguments Fulfilled {A} v.
Arguments Rejected {A} reason.

(** [await p]. *)
Definition await {A} (p : Settled A) : Completion A :=
  match p with
  | Fulfilled v => Normal v
  | Rejected r => Throw r
  end.

(** [p.catch(() => null)]. *)
Definition catch_null {A} (p : Settled (option A)) : Settled (option A) :=
  match p with
  | Fulfilled v => Fulfilled v
  | Rejected _ => Fulfilled None
  end.

(** What [await p.catch(() => null)] yields. *)
Definition caught_value {A} (p : Settled (option A)) : option A :=
  match p with
  | Fulfilled v => v
  | Rejected _ => None
  end.

(** A call throws (instead of returning a promise). *)
Definition throws {A} (call : Completion A) : bool :=
  match call with
  | Throw _ => true
  | Normal _ => false
  end.

(** A collaborator call fails when it throws or its promise rejects. *)
Definition failed {A} (call : Completion (Settled A)) : Prop :=
  match call with
  | Normal (Fulfilled _) => False
  | _ => True
  end.

(** [Promise.all(ps)]: rejects with the first rejection. *)
Fixpoint Promise_all {A} (ps : list (Settled A)) : Settled (list A) :=
  match ps with
  | [] => Fulfilled []
  | Fulfilled v :: ps' =>
      match Promise_all ps' with
      | Fulfilled vs => Fulfilled (v :: vs)
      | Rejected r => Rejected r
      end
  | Rejected r :: _ => Rejected r
  end.

(** [xs.map(f)] where the callback may throw: the first throw escapes. *)
Fixpoint array_map {A B} (f : A → Completion B) (xs : list A) : Completion (list B) :=
  match xs with
  | [] => Normal []
  | x :: xs' => bind (f x) (λ y, bind (array_map f xs') (λ ys, Normal (y :: ys)))
  end.

End Js.

#[global] Instance Completion_fmap : FMap Js.Completion :=
  λ A B f c, Js.bind c (λ a, Js.Normal (f a)).
#[global] Instance Completion_ret : MRet Js.Completion := @Js.Normal.
#[global] Instance Completion_bind : MBind Js.Completion :=
  λ A B k c, Js.bind c k.

(** ** Forecast record model *)

(** One stat category of a forecast. *)
Record StatProjection := {
  predicted_value : option R;
  confidence : option R;
  probability_over : option R;
  live_stats : option R
}.

(** A per-player prediction, as carried by stream messages and returned by
    the per-player forecast endpoint. *)
Record Prediction := {
  player_id : string;
  player_name : string;
  position : string;
  predictions : gmap string StatProjection;
  overall_confidence : option R
}.

Record Explanation := {
  overall_summary : string;
  key_factors : list string
}.

(** An entry of the [predictions] state array. *)
Record ForecastRecord := {
  prediction : Prediction;
  explanation : option Explanation
}.

(** ** Lineup evaluator *)

Module Lineup.
Import Js.

Record RosterPlayer := {
  id : string;
  first_name : string;
  last_name : string
}.

(** [homeLineup] / [awayLineup]: position tag to player or [null], in
    insertion order. *)
Definition Roster := list (string * option RosterPlayer).

Definition PLAY_POSITIONS : list string :=
  ["QB"; "RB"; "WR1"; "WR2"; "TE"; "K"; "DEF"].

(** [PLAY_POSITIONS.reduce((acc, p) => ({ ...acc, [p]: null }), {})]. *)
Definition emptyLineup : Roster := (λ p, (p, None)) <$> PLAY_POSITIONS.

Record EvaluationResult := {
  winProbability : option R;
  expectedPointsHome : option R;
  expectedPointsAway : option R;
  expectedYardsHome : option R;
  expectedYardsAway : option R;
  avgPlayerConfidenceHome : option R;
  avgPlayerConfidenceAway : option R
}.

Record Payload := {
  homeTeamId : option string;
  awayTeamId : option string;
  homePositions : list (string * option string);
  awayPositions : list (string * option string)
}.

(** The two collaborators of the evaluator.  A call either throws
    synchronously or returns a promise that settles; the client shipped in
    [services/api.js] is made of [async] functions and only ever returns
    promises. *)
Record Api := {
  apiGetPlayerPredictions : string → Completion (Settled (option Prediction));
  apiEvaluateLineup : Payload → Completion (Settled (option EvaluationResult))
}.

(** [Object.values(obj).filter(Boolean).map(p => p.id)]. *)
Definition assignedIds (obj : Roster) : list string :=
  id <$> omap snd obj.

(** [p.predictions?.<category>?.predicted_value || 0]. *)
Definition stat (p : Prediction) (category : string) : R :=
  or_else (predictions p !! category ≫= predicted_value) 0.

(** The four accumulators of [summarize]. *)
Record Acc := {
  confidenceSum : R;
  count : nat;
  acc_points : R;
  acc_yards : R
}.

Record Summary := {
  avgConfidence : R;
  points : R;
  yards : R
}.

(** Body of [preds.forEach(p => ...)]. *)
Definition summarize_step (acc : Acc) (p : option Prediction) : Acc :=
  match p with
  | None => acc
  | Some p =>
      let c := or_else (overall_confidence p) 0.7 in
      let td := stat p "touchdowns" in
      let passY := stat p "passing_yards" in
      let rushY := stat p "rushing_yards" in
      let recvY := stat p "receiving_yards" in
      {| confidenceSum := confidenceSum acc + c;
         count := S (count acc);
         acc_points := acc_points acc + (td * 6 + 0.02 * (passY + rushY + recvY));
         acc_yards := acc_yards acc + (passY + rushY + recvY) |}
  end.

Definition summarize (preds : list (option Prediction)) : Summary :=
  let acc :=
    foldl summarize_step
      {| confidenceSum := 0; count := 0; acc_points := 0; acc_yards := 0 |} preds in
  {| avgConfidence :=
       match count acc with
       | O => 0.7
       | S _ => confidenceSum acc / INR (count acc)
       end;
     points := acc_points acc;
     yards := acc_yards acc |}.

Definition homeStrength (h a : Summary) : R :=
  avgConfidence h * 0.6 + (points h / Math_max 1 (points a + 1)) * 0.4.

Definition awayStrength (h a : Summary) : R :=
  avgConfidence a * 0.6 + (points a / Math_max 1 (points h + 1)) * 0.4.

(** [const sigmoid = (x) => 1 / (1 + Math.exp(-6 * x))]. *)
Definition sigmoid (x : R) : R := 1 / (1 + exp (- 6 * x)).

(** The value of [winProbability] before it is turned into a percentage. *)
Definition rawWinProbability (h a : Summary) : R :=
  let diff := homeStrength h a - awayStrength h a in
  Math_max 0.02 (Math_min 0.98 (sigmoid diff)).

(** The object returned by the [try] block of [localEvaluateLineup]. *)
Definition heuristic (homePreds awayPreds : list (option Prediction))
  : EvaluationResult :=
  let h := summarize homePreds in
  let a := summarize awayPreds in
  {| winProbability := Some (Math_round (rawWinProbability h a * 1000) / 10);
     expectedPointsHome := Some (Math_round (points h * 10) / 10);
     expectedPointsAway := Some (Math_round (points a * 10) / 10);
     expectedYardsHome := Some (Math_round (yards h));
     expectedYardsAway := Some (Math_round (yards a));
     avgPlayerConfidenceHome := Some (Math_round (avgConfidence h * 1000) / 10);
     avgPlayerConfidenceAway := Some (Math_round (avgConfidence a * 1000) / 10) |}.

(** The object returned by the [catch] block of [localEvaluateLineup];
    [random] is the value of [Math.random()]. *)
Definition fallbackResult (random : R) : EvaluationResult :=
  {| winProbability := Some (Math_round ((0.5 + (random - 0.5) * 0.15) * 1000) / 10);
     expectedPointsHome := None;
     expectedPointsAway := None;
     expectedYardsHome := None;
     expectedYardsAway := None;
     avgPlayerConfidenceHome := None;
     avgPlayerConfidenceAway := None |}.

(** [await Promise.all(ids.map(id => apiGetPlayerPredictions(id).catch(() => null)))]. *)
Definition fetchAll (api : Api) (ids : list string)
  : Completion (list (option Prediction)) :=
  promises ← array_map
    (λ i, p ← apiGetPlayerPredictions api i; Normal (catch_null p)) ids;
  await (Promise_all promises).

Definition localEvaluateLineup (api : Api) (random : R) (homeObj awayObj : Roster)
  : Completion EvaluationResult :=
  try_catch
    (let homeIds := assignedIds homeObj in
     let awayIds := assignedIds awayObj in
     homePreds ← fetchAll api homeIds;
     awayPreds ← fetchAll api awayIds;
     Normal (heuristic homePreds awayPreds))
    (λ _, Normal (fallbackResult random)).

(** The playground state read and written by [evaluateLineup]. *)
Record Playground := {
  playHomeTeam : option string;
  playAwayTeam : option string;
  homeLineup : Roster;
  awayLineup : Roster;
  evaluationResult : option EvaluationResult;
  evaluatingLineup : bool
}.

Definition setEvaluatingLineup (b : bool) (st : Playground) : Playground :=
  {| playHomeTeam := playHomeTeam st; playAwayTeam := playAwayTeam st;
     homeLineup := homeLineup st; awayLineup := awayLineup st;
     evaluationResult := evaluationResult st; evaluatingLineup := b |}.

Definition setEvaluationResult (r : option EvaluationResult) (st : Playground)
  : Playground :=
  {| playHomeTeam := playHomeTeam st; playAwayTeam := playAwayTeam st;
     homeLineup := homeLineup st; awayLineup := awayLineup st;
     evaluationResult := r; evaluatingLineup := evaluatingLineup st |}.

(** [Object.fromEntries(Object.entries(lineup).map(([k, v]) => [k, v ? v.id : null]))]. *)
Definition positionIds (lineup : Roster) : list (string * option string) :=
  (λ kv : string * option RosterPlayer, (kv.1, id <$> kv.2)) <$> lineup.

(** [const payload = { homeTeamId, awayTeamId, homePositions, awayPositions }]. *)
Definition payloadOf (st : Playground) : Payload :=
  {| homeTeamId := playHomeTeam st; awayTeamId := playAwayTeam st;
     homePositions := positionIds (homeLineup st);
     awayPositions := positionIds (awayLineup st) |}.

(** The inner [async] function of [evaluateLineup]: the server result, or
    [null] when the call throws or its promise rejects. *)
Definition tryServer (api : Api) (payload : Payload)
  : Completion (option EvaluationResult) :=
  try_catch
    (p ← apiEvaluateLineup api payload; await p)
    (λ _, Normal None).

(** [evaluateLineup]; [random1] and [random2] are the values [Math.random()]
    would return in the first and the second call of [localEvaluateLineup]. *)
Definition evaluateLineup (api : Api) (random1 random2 : R) (st : Playground)
  : Completion Playground :=
  let st := setEvaluatingLineup true st in
  let st := setEvaluationResult None st in
  let payload := payloadOf st in
  st' ← try_catch
    (res ← tryServer api payload;
     final ← match res with
             | Some r =>
                 match winProbability r with
                 | Some _ => Normal r
                 | None => localEvaluateLineup api random1 (homeLineup st) (awayLineup st)
                 end
             | None => localEvaluateLineup api random1 (homeLineup st) (awayLineup st)
             end;
     Normal (setEvaluationResult (Some final) st))
    (λ _,
     fallback ← localEvaluateLineup api random2 (homeLineup st) (awayLineup st);
     Normal (setEvaluationResult (Some fallback) st));
  Normal (setEvaluatingLineup false st').

End Lineup.

(** ** Event stream client and reconciliation engine *)

Module Engine.
Import Js.

Record GameState := {
  game_id : string;
  quarter : Z;
  time_remaining : string;
  home_team : string;
  away_team : string;
  home_score : Z;
  away_score : Z;
  status : string
}.

Definition initialGameState : GameState :=
  {| game_id := "sim_game_001";
     quarter := 1;
     time_remaining := "15:00";
     home_team := "Philadelphia Eagles";
     away_team := "Generic Opponents";
     home_score := 0;
     away_score := 0;
     status := "in_progress" |}.

(** An entry of the [liveEvents] state array (fields [id], [type],
    [description], [quarter], [timestamp]). *)
Record LiveEvent := {
  event_id : string;
  event_type : string;
  event_description : string;
  event_quarter : Z;
  event_timestamp : string
}.

Record Scenario := {
  scenario_description : string
}.

(** An entry of the [chatMessages] state array. *)
Record ChatMessage := {
  chat_id : Z;
  chat_type : string;
  text : string;
  playerName : option string;
  playerId : option string
}.

(** A parsed inbound message: every field is optional in the payload. *)
Record Message := {
  type : option string;
  game_state : option GameState;
  initial_predictions : option (list ForecastRecord);
  event : option LiveEvent;
  updated_prediction : option Prediction;
  msg_explanation : option Explanation;
  scenario : option Scenario;
  updated_predictions : option (list ForecastRecord);
  msg_player_name : option string;
  msg_player_id : option string;
  answer : option string
}.

(** What [JSON.parse] yields: [null], or a value whose fields can be read
    (a primitive or an array reads as a message with every field absent). *)
Inductive Json :=
| JsonNull
| JsonObject (message : Message).

(** Outbound request envelopes. *)
Inductive Outbound :=
| game_reset (data : GameState)
| scenario_change (scenarioType : string) (severity : R)
| cedar_question (question : string) (player : option string).

(** [WebSocket.readyState]. *)
Inductive ReadyState := CONNECTING | OPEN | CLOSING | CLOSED.

#[global] Instance ReadyState_eq_dec : EqDecision ReadyState.
Proof. solve_decision. Defined.

(** The state hooks written by the message handler: [gameState],
    [predictions] (here [forecasts]), [liveEvents], [scenario] (here
    [activeScenario]), [chatMessages] and [isAssistantThinking]. *)
Record Dashboard := {
  gameState : option GameState;
  forecasts : list ForecastRecord;
  liveEvents : list LiveEvent;
  activeScenario : option Scenario;
  chatMessages : list ChatMessage;
  isAssistantThinking : bool
}.

(** What the handler does to the outside world. *)
Inductive Effect :=
| console_log (label : string)
| console_warn (label : string)
| console_error (label : string)
| socket_send (payload : Outbound)
| socket_close
| setTimeout_clear_scenario (delay : Z).

(** What the handler reads besides the message and the state:
    [wsRef.current] with its [readyState], the [predictions] binding its
    closure captured, [Date.now()] and [Math.floor(Math.random() * 1000)]. *)
Record Env := {
  wsRef : option ReadyState;
  predictions_in_scope : list ForecastRecord;
  Date_now : Z;
  random_1000 : Z
}.

(** A handler step: state and effects are threaded, the result is a value
    or a thrown error (state written before a throw stays written). *)
Definition Handler (A : Type) : Type :=
  Dashboard * list Effect → (Dashboard * list Effect) * Completion A.

Definition ret {A} (a : A) : Handler A := λ w, (w, Normal a).

Definition throw {A} (err : string) : Handler A := λ w, (w, Throw err).

Definition bindH {A B} (c : Handler A) (k : A → Handler B) : Handler B :=
  λ w, match c w with
       | (w', Normal a) => k a w'
       | (w', Throw e) => (w', Throw e)
       end.

Definition try_catchH {A} (body : Handler A) (handler : string → Handler A)
  : Handler A :=
  λ w, match body w with
       | (w', Normal a) => (w', Normal a)
       | (w', Throw e) => handler e w'
       end.

Definition emit (e : Effect) : Handler unit :=
  λ w, ((w.1, w.2 ++ [e]), Normal ()).

Definition modify (f : Dashboard → Dashboard) : Handler unit :=
  λ w, ((f w.1, w.2), Normal ()).

Definition setGameState (v : option GameState) : Handler unit :=
  modify (λ st,
    {| gameState := v; forecasts := forecasts st; liveEvents := liveEvents st;
       activeScenario := activeScenario st; chatMessages := chatMessages st;
       isAssistantThinking := isAssistantThinking st |}).

(** [setPredictions(prev => f(prev))]. *)
Definition setPredictions (f : list ForecastRecord → list ForecastRecord)
  : Handler unit :=
  modify (λ st,
    {| gameState := gameState st; forecasts := f (forecasts st);
       liveEvents := liveEvents st; activeScenario := activeScenario st;
       chatMessages := chatMessages st;
       isAssistantThinking := isAssistantThinking st |}).

(** [setLiveEvents(prev => f(prev))]. *)
Definition setLiveEvents (f : list LiveEvent → list LiveEvent) : Handler unit :=
  modify (λ st,
    {| gameState := gameState st; forecasts := forecasts st;
       liveEvents := f (liveEvents st); activeScenario := activeScenario st;
       chatMessages := chatMessages st;
       isAssistantThinking := isAssistantThinking st |}).

Definition setScenario (v : option Scenario) : Handler unit :=
  modify (λ st,
    {| gameState := gameState st; forecasts := forecasts st;
       liveEvents := liveEvents st; activeScenario := v;
       chatMessages := chatMessages st;
       isAssistantThinking := isAssistantThinking st |}).

(** [setChatMessages(prev => f(prev))]. *)
Definition setChatMessages (f : list ChatMessage → list ChatMessage)
  : Handler unit :=
  modify (λ st,
    {| gameState := gameState st; forecasts := forecasts st;
       liveEvents := liveEvents st; activeScenario := activeScenario st;
       chatMessages := f (chatMessages st);
       isAssistantThinking := isAssistantThinking st |}).

Definition setIsAssistantThinking (b : bool) : Handler unit :=
  modify (λ st,
    {| gameState := gameState st; forecasts := forecasts st;
       liveEvents := liveEvents st; activeScenario := activeScenario st;
       chatMessages := chatMessages st; isAssistantThinking := b |}).

#[global] Instance Handler_ret : MRet Handler := @ret.
#[global] Instance Handler_bind : MBind Handler := λ A B k c, bindH c k.

(** [const safeSend = (payload) => { try { ... } catch (err) { console.warn } }]:
    the payload is sent only through a socket whose state is [OPEN];
    sending on an open socket does not throw. *)
Definition safeSend (env : Env) (payload : Outbound) : Handler unit :=
  match wsRef env with
  | Some socket =>
      if decide (socket = OPEN) then emit (socket_send payload) else mret ()
  | None => mret ()
  end.

(** [s || null] on a possibly absent string: absent and empty are falsy. *)
Definition truthy_string (s : option string) : option string :=
  match s with
  | Some v => if decide (v = "") then None else Some v
  | None => None
  end.

(** [prev.findIndex(p => p.prediction.player_id === pid)]; [None] is [-1]. *)
Definition findIndex (pid : string) (prev : list ForecastRecord) : option nat :=
  fst <$> list_find (λ p, player_id (prediction p) = pid) prev.

(** The updater passed to [setLiveEvents]. *)
Definition addLiveEvent (newEvent : LiveEvent) (prev : list LiveEvent)
  : list LiveEvent :=
  let exists_ := existsb (λ e, bool_decide (event_id e = event_id newEvent)) prev in
  if exists_ then prev else take 5 (newEvent :: prev).

(** The updater passed to [setPredictions] by a [live_update]. *)
Definition replacePrediction (updated : Prediction) (expl : option Explanation)
    (prev : list ForecastRecord) : list ForecastRecord :=
  match findIndex (player_id updated) prev with
  | Some playerIndex =>
      <[playerIndex := {| prediction := updated; explanation := expl |}]> prev
  | None => prev
  end.

Definition onTick (env : Env) (message : Message) : Handler unit :=
  match game_state message with
  | Some gs =>
      if bool_decide (quarter gs = 4%Z) && bool_decide (time_remaining gs = "0:00")
      then safeSend env (game_reset initialGameState)
      else setGameState (Some gs)
  | None => mret ()
  end.

Definition onGameInitialized (message : Message) : Handler unit :=
  setGameState (game_state message);;
  match initial_predictions message with
  | Some (p :: ps) => setPredictions (λ _, p :: ps)
  | _ => mret ()
  end.

Definition onLiveUpdate (message : Message) : Handler unit :=
  setGameState (game_state message);;
  ev ← match event message with
       | Some ev => mret ev
       | None => throw "TypeError: message.event is undefined"
       end;
  let newEvent :=
    {| event_id := event_id ev; event_type := event_type ev;
       event_description := event_description ev;
       event_quarter := event_quarter ev;
       event_timestamp := event_timestamp ev |} in
  setLiveEvents (addLiveEvent newEvent);;
  match updated_prediction message with
  | Some updated => setPredictions (replacePrediction updated (msg_explanation message))
  | None => mret ()
  end.

Definition onScenarioUpdate (message : Message) : Handler unit :=
  setScenario (scenario message);;
  match updated_predictions message with
  | Some ps => setPredictions (λ _, ps)
  | None => mret ()
  end;;
  emit (setTimeout_clear_scenario 5000).

Definition onCedarAnswer (env : Env) (message : Message) : Handler unit :=
  try_catchH
    (let playerName :=
       match truthy_string (msg_player_name message), truthy_string (msg_player_id message) with
       | Some n, _ => Some n
       | None, Some pid =>
           found ← list_find (λ p, player_id (prediction p) = pid)
                     (predictions_in_scope env);
           truthy_string (Some (player_name (prediction found.2)))
       | None, None => None
       end in
     let assistantMsg :=
       {| chat_id := (Date_now env + random_1000 env)%Z;
          chat_type := "assistant";
          text := default "No answer available." (truthy_string (answer message));
          playerName := playerName;
          playerId := msg_player_id message |} in
     setChatMessages (λ prev, prev ++ [assistantMsg]);;
     setIsAssistantThinking false)
    (λ _, emit (console_error "Error handling cedar_answer message:")).

(** The type dispatch of [websocket.onmessage], after parsing. *)
Definition dispatch (env : Env) (parsed : Json) : Handler unit :=
  message ← match parsed with
            | JsonObject m => mret m
            | JsonNull => throw "TypeError: message is null"
            end;
  emit (console_log "WebSocket message:");;
  if decide (type message = Some "tick") then onTick env message
  else if decide (type message = Some "game_initialized") then onGameInitialized message
  else if decide (type message = Some "live_update") then onLiveUpdate message
  else if decide (type message = Some "scenario_update") then onScenarioUpdate message
  else if decide (type message = Some "cedar_answer") then onCedarAnswer env message
  else mret ().

Section Handler.
(** [JSON.parse]: [None] when it throws a [SyntaxError]. *)
Variable JSON_parse : string → option Json.

(** [websocket.onmessage = (event) => { ... }], applied to [event.data]. *)
Definition onmessage (env : Env) (data : string) : Handler unit :=
  match JSON_parse data with
  | None => emit (console_error "Failed to parse WebSocket message:")
  | Some parsed =>
      try_catchH (dispatch env parsed)
        (λ _, emit (console_error "Error handling WebSocket message:"))
  end.

(** The live event a payload carries, if it is a [live_update]. *)
Definition arrival (data : string) : option LiveEvent :=
  match JSON_parse data with
  | Some (JsonObject message) =>
      if decide (type message = Some "live_update") then event message else None
  | _ => None
  end.

(** Delivery of a sequence of inbound payloads, in arrival order; each
    delivery has its own environment. *)
Fixpoint deliver (inbound : list (Env * string)) (w : Dashboard * list Effect)
  : Dashboard * list Effect :=
  match inbound with
  | [] => w
  | (env, data) :: rest => deliver rest (onmessage env data w).1
  end.
(** The live events carried by a sequence of payloads, oldest first. *)
Definition arrivals (inbound : list (Env * string)) : list LiveEvent :=
  omap (λ delivery, arrival delivery.2) inbound.
End Handler.

(** The message types the handler consumes. *)
Definition known_types : list string :=
  ["tick"; "game_initialized"; "live_update"; "scenario_update"; "cedar_answer"].

(** The payloads sent through the socket, in order. *)
Definition sent (effects : list Effect) : list Outbound :=
  omap (λ e, match e with socket_send payload => Some payload | _ => None end) effects.

(** The state when the socket is created: the [useState] initial values,
    after [setGameState(initialGameState)]. *)
Definition initialState : Dashboard :=
  {| gameState := Some initialGameState; forecasts := []; liveEvents := [];
     activeScenario := None; chatMessages := []; isAssistantThinking := false |}.

(** The tick branch of the earlier revision of the handler ("FINAL FIXED
    VERSION"), which builds the reset payload from the incoming state and
    calls [ws.send] directly.  [ws] is the binding the handler closes over;
    the handler is created by the mount effect, where that binding holds
    the initial [null].  Reading [send] of [null] throws, [send] on a
    connecting socket throws, on a closing or closed one it is dropped. *)
Definition onTick_v1 (ws : option ReadyState) (message : Message) : Handler unit :=
  match game_state message with
  | Some gs =>
      if bool_decide (quarter gs = 4%Z) && bool_decide (time_remaining gs = "0:00")
      then
        let data :=
          {| game_id := "sim_game_001"; quarter := 1; time_remaining := "15:00";
             home_team := home_team gs; away_team := away_team gs;
             home_score := 0; away_score := 0; status := "in_progress" |} in
        match ws with
        | None => throw "TypeError: ws is null"
        | Some CONNECTING => throw "InvalidStateError"
        | Some OPEN => emit (socket_send (game_reset data))
        | Some _ => mret ()
        end
      else setGameState (Some gs)
  | None => mret ()
  end.

End Engine.

(** ** Confidence and probability display *)

Module Display.
Import Js.

(** [x.toFixed(0)] as a number: the nearest integer, ties away from zero. *)
Definition toFixed0 (x : R) : Z :=
  if Rlt_dec x 0 then (- Zfloor (- x + / 2))%Z else Zfloor (x + / 2).

(** [pct] of [ConfidenceCircle]: [Math.max(0, Math.min(1, Number(confidence) || 0))].
    [None] stands for a missing prop (default [0]) and for any value whose
    [Number(...)] is not a number. *)
Definition pct (confidence : option R) : R :=
  Math_max 0 (Math_min 1 (or_else confidence 0)).

(** The percentage printed inside the circle: [(pct * 100).toFixed(0)]. *)
Definition circleLabel (confidence : option R) : Z :=
  toFixed0 (pct confidence * 100).


(** Per-stat rendering.  [None] is the text ['N/A']. *)




End Display.

(** ** The evaluator as the specification words it

    These definitions follow the sentences of the specification, not the
    code; Part II compares them with [Lineup]. *)

Module Stated.

Fixpoint Rsum (xs : list R) : R :=
  match xs with
  | [] => 0
  | x :: xs' => x + Rsum xs'
  end.

(** The records that were obtained for a side's assigned players. *)
Definition available (preds : list (option Prediction)) : list Prediction :=
  omap (λ p, p) preds.

(** A predicted value, [0] when the stat category (or its value) is absent. *)
Definition value_or_zero (p : Prediction) (category : string) : R :=
  match predictions p !! category with
  | Some projection =>
      match predicted_value projection with
      | Some v => v
      | None => 0
      end
  | None => 0
  end.

Definition playerYards (p : Prediction) : R :=
  value_or_zero p "passing_yards" + value_or_zero p "rushing_yards"
  + value_or_zero p "receiving_yards".

Definition playerPoints (p : Prediction) : R :=
  6 * value_or_zero p "touchdowns" + 0.02 * playerYards p.

Definition sidePoints (side : list Prediction) : R := Rsum (playerPoints <$> side).

Definition sideYards (side : list Prediction) : R := Rsum (playerYards <$> side).

(** A player's confidence: the record's [overall_confidence], and [0.7]
    when the record carries none or carries 0.  The specification names the
    default only; that a 0 is defaulted too is the code's [|| 0.7]. *)
Definition playerConfidence (p : Prediction) : R :=
  match overall_confidence p with
  | Some c => if Req_dec_T c 0 then 0.7 else c
  | None => 0.7
  end.

(** A side's average confidence, [0.7] when it has no record. *)
Definition averageConfidence (side : list Prediction) : R :=
  match side with
  | [] => 0.7
  | _ => Rsum (playerConfidence <$> side) / INR (length side)
  end.

(** [0.6 x avgConfidence + 0.4 x (ownPoints / (opponentPoints + 1))]. *)
Definition strength (avgConfidence ownPoints opponentPoints : R) : R :=
  0.6 * avgConfidence + 0.4 * (ownPoints / (opponentPoints + 1)).

Definition logistic (x : R) : R := 1 / (1 + exp (- x)).

Definition clamp (lo hi x : R) : R :=
  if Rlt_dec x lo then lo else if Rlt_dec hi x then hi else x.

(** Logistic of [6 x (homeStrength - awayStrength)], clamped to [0.02, 0.98]. *)
Definition winProbability (homeStrength awayStrength : R) : R :=
  clamp 0.02 0.98 (logistic (6 * (homeStrength - awayStrength))).

(** The evaluation of two empty rosters: 50.0 percent, no points, no
    yards, both average confidences 70.0 percent. *)
Definition neutralResult : Lineup.EvaluationResult :=
  {| Lineup.winProbability := Some 50;
     Lineup.expectedPointsHome := Some 0;
     Lineup.expectedPointsAway := Some 0;
     Lineup.expectedYardsHome := Some 0;
     Lineup.expectedYardsAway := Some 0;
     Lineup.avgPlayerConfidenceHome := Some 70;
     Lineup.avgPlayerConfidenceAway := Some 70 |}.

(** [x] is reported as a percentage with one decimal place. *)
Definition percent_1dp (x reported : R) : Prop :=
  ∃ n : Z, reported = IZR n / 10 ∧ Rabs (reported - 100 * x) <= 0.05.

End Stated.

(** ** Sample data *)

Module Samples.
Import Js.

Definition projection (v c o : R) : StatProjection :=
  {| predicted_value := Some v; confidence := Some c;
     probability_over := Some o; live_stats := Some 0 |}.

(** The quarterback of the demo data. *)
Definition hurts : Prediction :=
  {| player_id := "player_001"; player_name := "Jalen Hurts"; position := "QB";
     predictions :=
       {[ "passing_yards" := projection 275.0 0.850 0.72;
          "rushing_yards" := projection 45.0 0.780 0.68;
          "touchdowns" := projection 2.1 0.820 0.70 ]};
     overall_confidence := Some 0.817 |}.

(** A receiver with a modest forecast. *)
Definition receiver : Prediction :=
  {| player_id := "player_002"; player_name := "A. Receiver"; position := "WR";
     predictions := {[ "receiving_yards" := projection 12.5 0.6 0.5 ]};
     overall_confidence := Some 0.07 |}.

(** A record without any stat category. *)
Definition rookie : Prediction :=
  {| player_id := "player_003"; player_name := "A. Rookie"; position := "TE";
     predictions := ∅;
     overall_confidence := Some 0.05 |}.

(** A running back forecast to lose yardage. *)
Definition buried_back : Prediction :=
  {| player_id := "player_102"; player_name := "C. Back"; position := "RB";
     predictions := {[ "rushing_yards" := projection (-70) 0.6 0.5 ]};
     overall_confidence := Some 0.98 |}.

(** Both collaborators unreachable: every call returns a promise that
    rejects. *)
Definition api_down : Lineup.Api :=
  {| Lineup.apiGetPlayerPredictions := λ _, Normal (Rejected "Failed to fetch");
     Lineup.apiEvaluateLineup := λ _, Normal (Rejected "Failed to fetch") |}.

(** A stand-in whose forecast call throws instead of returning a promise. *)
Definition api_throwing : Lineup.Api :=
  {| Lineup.apiGetPlayerPredictions := λ _, Throw "TypeError";
     Lineup.apiEvaluateLineup := λ _, Normal (Rejected "Failed to fetch") |}.

Definition quarterback : Lineup.RosterPlayer :=
  {| Lineup.id := "player_001"; Lineup.first_name := "Jalen";
     Lineup.last_name := "Hurts" |}.

(** A home lineup with the quarterback assigned and the rest empty. *)
Definition lineup_qb : Lineup.Roster :=
  ("QB", Some quarterback) :: tail Lineup.emptyLineup.

Definition playground : Lineup.Playground :=
  {| Lineup.playHomeTeam := Some "PHI"; Lineup.playAwayTeam := Some "DAL";
     Lineup.homeLineup := lineup_qb; Lineup.awayLineup := Lineup.emptyLineup;
     Lineup.evaluationResult := None; Lineup.evaluatingLineup := false |}.

(** Final whistle of a game between two other teams. *)
Definition final_whistle : Engine.GameState :=
  {| Engine.game_id := "sim_game_001"; Engine.quarter := 4;
     Engine.time_remaining := "0:00";
     Engine.home_team := "Dallas Cowboys"; Engine.away_team := "New York Giants";
     Engine.home_score := 24; Engine.away_score := 17;
     Engine.status := "in_progress" |}.

(** Final whistle of the simulated game. *)
Definition eagles_final : Engine.GameState :=
  {| Engine.game_id := "sim_game_001"; Engine.quarter := 4;
     Engine.time_remaining := "0:00";
     Engine.home_team := "Philadelphia Eagles";
     Engine.away_team := "Generic Opponents";
     Engine.home_score := 27; Engine.away_score := 20;
     Engine.status := "in_progress" |}.

(** Third quarter of the simulated game. *)
Definition third_quarter : Engine.GameState :=
  {| Engine.game_id := "sim_game_001"; Engine.quarter := 3;
     Engine.time_remaining := "7:42";
     Engine.home_team := "Philadelphia Eagles";
     Engine.away_team := "Generic Opponents";
     Engine.home_score := 14; Engine.away_score := 10;
     Engine.status := "in_progress" |}.

Definition completion : Engine.LiveEvent :=
  {| Engine.event_id := "evt_17"; Engine.event_type := "pass_completion";
     Engine.event_description := "Hurts completes a 12-yard pass";
     Engine.event_quarter := 3; Engine.event_timestamp := "2025-09-27T18:04:11" |}.

Definition blank : Engine.Message :=
  {| Engine.type := None; Engine.game_state := None;
     Engine.initial_predictions := None; Engine.event := None;
     Engine.updated_prediction := None; Engine.msg_explanation := None;
     Engine.scenario := None; Engine.updated_predictions := None;
     Engine.msg_player_name := None; Engine.msg_player_id := None;
     Engine.answer := None |}.

Definition with_type (t : string) (m : Engine.Message) : Engine.Message :=
  {| Engine.type := Some t; Engine.game_state := Engine.game_state m;
     Engine.initial_predictions := Engine.initial_predictions m;
     Engine.event := Engine.event m;
     Engine.updated_prediction := Engine.updated_prediction m;
     Engine.msg_explanation := Engine.msg_explanation m;
     Engine.scenario := Engine.scenario m;
     Engine.updated_predictions := Engine.updated_predictions m;
     Engine.msg_player_name := Engine.msg_player_name m;
     Engine.msg_player_id := Engine.msg_player_id m;
     Engine.answer := Engine.answer m |}.

Definition with_game_state (gs : Engine.GameState) (m : Engine.Message)
  : Engine.Message :=
  {| Engine.type := Engine.type m; Engine.game_state := Some gs;
     Engine.initial_predictions := Engine.initial_predictions m;
     Engine.event := Engine.event m;
     Engine.updated_prediction := Engine.updated_prediction m;
     Engine.msg_explanation := Engine.msg_explanation m;
     Engine.scenario := Engine.scenario m;
     Engine.updated_predictions := Engine.updated_predictions m;
     Engine.msg_player_name := Engine.msg_player_name m;
     Engine.msg_player_id := Engine.msg_player_id m;
     Engine.answer := Engine.answer m |}.

Definition with_event (ev : Engine.LiveEvent) (upd : option Prediction)
    (m : Engine.Message) : Engine.Message :=
  {| Engine.type := Engine.type m; Engine.game_state := Engine.game_state m;
     Engine.initial_predictions := Engine.initial_predictions m;
     Engine.event := Some ev;
     Engine.updated_prediction := upd;
     Engine.msg_explanation := Engine.msg_explanation m;
     Engine.scenario := Engine.scenario m;
     Engine.updated_predictions := Engine.updated_predictions m;
     Engine.msg_player_name := Engine.msg_player_name m;
     Engine.msg_player_id := Engine.msg_player_id m;
     Engine.answer := Engine.answer m |}.

(** The quarterback's forecast after the completion. *)
Definition hurts_updated : Prediction :=
  {| player_id := "player_001"; player_name := "Jalen Hurts"; position := "QB";
     predictions :=
       {[ "passing_yards" := projection 287.0 0.860 0.74;
          "rushing_yards" := projection 45.0 0.780 0.68;
          "touchdowns" := projection 2.1 0.820 0.70 ]};
     overall_confidence := Some 0.82 |}.

(** A stand-in for [JSON.parse]: a table from a few wire texts to what they
    parse to; any other text is malformed. *)
Definition wire : list (string * Engine.Json) :=
  [ ("tick Q4 0:00",
     Engine.JsonObject (with_game_state final_whistle (with_type "tick" blank)));
    ("tick Q4 0:00 PHI",
     Engine.JsonObject (with_game_state eagles_final (with_type "tick" blank)));
    ("tick Q3 7:42",
     Engine.JsonObject (with_game_state third_quarter (with_type "tick" blank)));
    ("live_update evt_17",
     Engine.JsonObject
       (with_event completion (Some hurts_updated)
          (with_game_state third_quarter (with_type "live_update" blank))));
    ("heartbeat", Engine.JsonObject (with_type "heartbeat" blank));
    ("null", Engine.JsonNull) ].

Definition sample_parse (data : string) : option Engine.Json :=
  (λ found : nat * (string * Engine.Json), found.2.2)
    <$> list_find (λ entry, entry.1 = data) wire.

Definition record_of (p : Prediction) : ForecastRecord :=
  {| prediction := p; explanation := None |}.

(** The dashboard with a given forecast set on screen. *)
Definition watching (records : list ForecastRecord) : Engine.Dashboard :=
  {| Engine.gameState := Some Engine.initialGameState;
     Engine.forecasts := records; Engine.liveEvents := [];
     Engine.activeScenario := None; Engine.chatMessages := [];
     Engine.isAssistantThinking := false |}.


Definition env_open : Engine.Env :=
  {| Engine.wsRef := Some Engine.OPEN; Engine.predictions_in_scope := [];
     Engine.Date_now := 1758996251000; Engine.random_1000 := 417 |}.

End Samples.

(** ** Timers: the handler under a virtual clock

    [setTimeout(() => setScenario(null), 5000)] is the only timer the handler
    sets.  Under a virtual clock a callback runs when its delay has elapsed,
    before any message delivered at or after that instant. *)

Module Timeline.
Import Js Engine.

(** The dashboard, what was logged and sent so far, and the instants at which
    the pending [setScenario(null)] callbacks are due. *)
Record World := {
  dashboard : Dashboard;
  emitted : list Effect;
  timers : list Z
}.

(** The timer callback: [() => setScenario(null)]. *)
Definition callback (st : Dashboard) : Dashboard := (setScenario None (st, [])).1.1.

(** The clock reaches [now]: every callback due by then runs. *)
Definition fire (now : Z) (w : World) : World :=
  {| dashboard :=
       foldl (λ st _, callback st) (dashboard w) (filter (λ due, (due <= now)%Z) (timers w));
     emitted := emitted w;
     timers := filter (λ due, ¬ (due <= now)%Z) (timers w) |}.

(** The timers a run of the handler at [now] has set. *)
Definition scheduled (now : Z) (effects : list Effect) : list Z :=
  omap (λ e, match e with
             | setTimeout_clear_scenario delay => Some (now + delay)%Z
             | _ => None
             end) effects.

Section Clocked.
Variable JSON_parse : string → option Json.

(** A payload is delivered at [now]. *)
Definition receive (now : Z) (env : Env) (data : string) (w : World) : World :=
  let w := fire now w in
  let result := (onmessage JSON_parse env data (dashboard w, [])).1 in
  {| dashboard := result.1;
     emitted := emitted w ++ result.2;
     timers := timers w ++ scheduled now result.2 |}.

(** A stream of payloads, each with its instant of delivery. *)
Fixpoint run (stream : list (Z * Env * string)) (w : World) : World :=
  match stream with
  | [] => w
  | (now, env, data) :: rest => run rest (receive now env data w)
  end.
End Clocked.

(** The instants of a stream do not go back, from [start] on. *)
Fixpoint chronological (start : Z) (stream : list (Z * Env * string)) : Prop :=
  match stream with
  | [] => True
  | (now, _, _) :: rest => (start <= now)%Z ∧ chronological now rest
  end.

(** The instant of the last delivery ([start] for an empty stream). *)
Fixpoint last_instant (start : Z) (stream : list (Z * Env * string)) : Z :=
  match stream with
  | [] => start
  | (now, _, _) :: rest => last_instant now rest
  end.

Definition initialWorld : World :=
  {| dashboard := initialState; emitted := []; timers := [] |}.

(** While a scenario is shown, a timer that will clear it is pending and due
    within 5000 ms of the latest delivery. *)
Definition banner_has_timer (now : Z) (w : World) : Prop :=
  activeScenario (dashboard w) ≠ None →
  ∃ due, due ∈ timers w ∧ (due <= now + 5000)%Z.

End Timeline.

(** ** More sample data *)

Module MoreSamples.
Import Js Samples.

Definition rain : Engine.Scenario :=
  {| Engine.scenario_description := "Heavy rain moves in" |}.

Definition shootout : Engine.Scenario :=
  {| Engine.scenario_description := "The game turns into a shootout" |}.

Definition with_scenario (sc : Engine.Scenario) (ups : option (list ForecastRecord))
    (m : Engine.Message) : Engine.Message :=
  {| Engine.type := Engine.type m; Engine.game_state := Engine.game_state m;
     Engine.initial_predictions := Engine.initial_predictions m;
     Engine.event := Engine.event m;
     Engine.updated_prediction := Engine.updated_prediction m;
     Engine.msg_explanation := Engine.msg_explanation m;
     Engine.scenario := Some sc;
     Engine.updated_predictions := ups;
     Engine.msg_player_name := Engine.msg_player_name m;
     Engine.msg_player_id := Engine.msg_player_id m;
     Engine.answer := Engine.answer m |}.

Definition with_initial_predictions (ips : list ForecastRecord) (m : Engine.Message)
  : Engine.Message :=
  {| Engine.type := Engine.type m; Engine.game_state := Engine.game_state m;
     Engine.initial_predictions := Some ips;
     Engine.event := Engine.event m;
     Engine.updated_prediction := Engine.updated_prediction m;
     Engine.msg_explanation := Engine.msg_explanation m;
     Engine.scenario := Engine.scenario m;
     Engine.updated_predictions := Engine.updated_predictions m;
     Engine.msg_player_name := Engine.msg_player_name m;
     Engine.msg_player_id := Engine.msg_player_id m;
     Engine.answer := Engine.answer m |}.

Definition with_answer (text : string) (pid : option string) (m : Engine.Message)
  : Engine.Message :=
  {| Engine.type := Engine.type m; Engine.game_state := Engine.game_state m;
     Engine.initial_predictions := Engine.initial_predictions m;
     Engine.event := Engine.event m;
     Engine.updated_prediction := Engine.updated_prediction m;
     Engine.msg_explanation := Engine.msg_explanation m;
     Engine.scenario := Engine.scenario m;
     Engine.updated_predictions := Engine.updated_predictions m;
     Engine.msg_player_name := Engine.msg_player_name m;
     Engine.msg_player_id := pid;
     Engine.answer := Some text |}.

Definition sack : Engine.LiveEvent :=
  {| Engine.event_id := "evt_18"; Engine.event_type := "sack";
     Engine.event_description := "Hurts is sacked for a loss of 6";
     Engine.event_quarter := 3; Engine.event_timestamp := "2025-09-27T18:05:02" |}.

(** A second table of wire texts. *)
Definition wire2 : list (string * Engine.Json) :=
  [ ("scenario rain",
     Engine.JsonObject (with_scenario rain None (with_type "scenario_update" blank)));
    ("scenario shootout, no forecasts",
     Engine.JsonObject
       (with_scenario shootout (Some []) (with_type "scenario_update" blank)));
    ("game_initialized, no forecasts",
     Engine.JsonObject
       (with_initial_predictions []
          (with_game_state third_quarter (with_type "game_initialized" blank))));
    ("game_initialized, hurts",
     Engine.JsonObject
       (with_initial_predictions [record_of hurts]
          (with_game_state third_quarter (with_type "game_initialized" blank))));
    ("live_update evt_17",
     Engine.JsonObject
       (with_event completion (Some hurts_updated)
          (with_game_state third_quarter (with_type "live_update" blank))));
    ("live_update evt_18",
     Engine.JsonObject
       (with_event sack None
          (with_game_state third_quarter (with_type "live_update" blank))));
    ("live_update without event",
     Engine.JsonObject
       (with_game_state final_whistle (with_type "live_update" blank)));
    ("cedar_answer",
     Engine.JsonObject
       (with_answer "He has thrown well against this defence." (Some "player_001")
          (with_type "cedar_answer" blank)));
    ("tick Q4 0:00",
     Engine.JsonObject (with_game_state final_whistle (with_type "tick" blank))) ].

Definition sample_parse2 (data : string) : option Engine.Json :=
  (λ found : nat * (string * Engine.Json), found.2.2)
    <$> list_find (λ entry, entry.1 = data) wire2.

End MoreSamples.

(** ** HTTP client: [services/api.js] and [services/teams.js] *)

Module Services.
Import Js Lineup.

(** What the clients read of a [Response]: [ok], [status], and the
    promises returned by [text()] and [json()]; [A] is the type the caller
    reads the decoded body at. *)
Record Response (A : Type) := {
  ok : bool;
  status : Z;
  text : Settled string;
  json : Settled A
}.
Arguments ok {A} _.
Arguments status {A} _.
Arguments text {A} _.
Arguments json {A} _.

(** A request as the clients build it: the URL and, for a [POST], the
    object passed to [JSON.stringify]. *)
Record Request := {
  url : string;
  method : string;
  body : option Payload
}.

(** [fetch], seen at the type each endpoint's body is read at.  An error
    is identified with its message. *)
Record Backend := {
  fetchPrediction : Request → Settled (Response (option Prediction));
  fetchEvaluation : Request → Settled (Response (option EvaluationResult))
}.

Definition GET (url : string) : Request :=
  {| url := url; method := "GET"; body := None |}.

Section Client.
(** [BASE_URL] of [api.js]. *)
Variable BASE_URL : string.

(** [fetchJSON(path, options)]: the decoded body of an [ok] response; a
    rejection otherwise, with the message [API error <status>: <text>]
    for a response that is not [ok].  The [catch] block logs and rethrows. *)
Definition fetchJSON {A} (fetch : Request → Settled (Response A))
    (path : string) (options : string → Request) : Settled A :=
  let url := BASE_URL +:+ path in
  match fetch (options url) with
  | Fulfilled res =>
      if ok res then json res
      else
        match text res with
        | Fulfilled t =>
            Rejected ("API error " +:+ pretty (status res) +:+ ": " +:+ t)
        | Rejected r => Rejected r
        end
  | Rejected r => Rejected r
  end.

(** [getPlayerPredictions(playerId)] of [api.js], with the default
    [params = {}], whose query string is empty. *)
Definition getPlayerPredictions (backend : Backend) (playerId : string)
  : Settled (option Prediction) :=
  fetchJSON (fetchPrediction backend)
    ("/api/v1/players/" +:+ playerId +:+ "/predictions") GET.

(** [evaluateLineup(lineup)] of [api.js]: a [POST] of the lineup; the
    [catch] block rethrows. *)
Definition evaluateLineup (backend : Backend) (lineup : Payload)
  : Settled (option EvaluationResult) :=
  fetchJSON (fetchEvaluation backend) "/api/v1/lineup/evaluate"
    (λ url, {| url := url; method := "POST"; body := Some lineup |}).

(** The two collaborators [App.js] imports from [./services/api]: [async]
    functions, which return a promise and never throw. *)
Definition client (backend : Backend) : Api :=
  {| apiGetPlayerPredictions := λ playerId,
       Normal (getPlayerPredictions backend playerId);
     apiEvaluateLineup := λ lineup, Normal (evaluateLineup backend lineup) |}.
End Client.

(** [API_BASE_URL] of [teams.js]. *)
Definition API_BASE_URL : string := "http://localhost:8000/api/v1".

(** [DEV_BACKEND_FALLBACK] of [api.js]. *)
Definition DEV_BACKEND_FALLBACK : string := "http://localhost:8000".

(** [getPlayerPredictions(playerId)] of [teams.js], with the default
    [params = {}]: every failure is caught and turned into [null]. *)
Definition teams_getPlayerPredictions (backend : Backend) (playerId : string)
  : Settled (option Prediction) :=
  let url := API_BASE_URL +:+ "/players/" +:+ playerId +:+ "/predictions" in
  match fetchPrediction backend (GET url) with
  | Fulfilled response =>
      if ok response then
        match json response with
        | Fulfilled v => Fulfilled v
        | Rejected _ => Fulfilled None
        end
      else Fulfilled None
  | Rejected _ => Fulfilled None
  end.

(** A backend that answers no request: the request fails, or the response
    is not [ok]. *)
Definition down {A} (fetch : Request → Settled (Response A)) : Prop :=
  ∀ request,
    match fetch request with
    | Fulfilled res => ok res = false
    | Rejected _ => True
    end.

End Services.

(** ** Sample backends *)

Module ClientSamples.
Import Js Lineup Services Samples.

(** A server answer outside the range of the local heuristic. *)
Definition landslide : EvaluationResult :=
  {| winProbability := Some 250;
     expectedPointsHome := None; expectedPointsAway := None;
     expectedYardsHome := None; expectedYardsAway := None;
     avgPlayerConfidenceHome := None; avgPlayerConfidenceAway := None |}.

(** A server that answers every evaluation with [r], next to a forecast
    collaborator that throws. *)
Definition api_answering (r : EvaluationResult) : Api :=
  {| apiGetPlayerPredictions := λ _, Throw "TypeError";
     apiEvaluateLineup := λ _, Normal (Fulfilled (Some r)) |}.

Definition unavailable {A} : Response A :=
  {| ok := false; status := 503; text := Fulfilled "Service Unavailable";
     json := Rejected "SyntaxError" |}.

(** A backend that answers every request with status 503. *)
Definition backend_503 : Backend :=
  {| fetchPrediction := λ _, Fulfilled unavailable;
     fetchEvaluation := λ _, Fulfilled unavailable |}.

(** A backend that knows the quarterback and nobody else, and has no
    lineup endpoint. *)
Definition backend_qb : Backend :=
  {| fetchPrediction := λ request,
       if decide (url request
                  = "http://localhost:8000/api/v1/players/player_001/predictions")
       then Fulfilled {| ok := true; status := 200; text := Fulfilled "";
                         json := Fulfilled (Some hurts) |}
       else Fulfilled {| ok := false; status := 404; text := Fulfilled "Not Found";
                         json := Rejected "SyntaxError" |};
     fetchEvaluation := λ _, Fulfilled {| ok := false; status := 404;
                                          text := Fulfilled "Not Found";
                                          json := Rejected "SyntaxError" |} |}.

End ClientSamples.

(** ** Playground: building a lineup *)

Module Board.
Import Js Lineup.

(** [showPlayerPicker]. *)
Record Picker := {
  open : bool;
  position : option string;
  side : string
}.

(** [{ open: false, position: null, side: 'home' }]. *)
Definition closedPicker : Picker :=
  {| open := false; position := None; side := "home" |}.

(** The playground state together with the picker. *)
Record Board := {
  playground : Playground;
  showPlayerPicker : Picker
}.

(** [{ ...obj, [key]: value }] on an object whose keys are not integer
    indices: an existing key keeps its place, a new key comes last. *)
Fixpoint object_set {A} (key : string) (value : A) (obj : list (string * A))
  : list (string * A) :=
  match obj with
  | [] => [(key, value)]
  | (k, v) :: rest =>
      if decide (k = key) then (key, value) :: rest
      else (k, v) :: object_set key value rest
  end.

(** [obj[key]]; [None] is [undefined]. *)
Fixpoint object_get {A} (key : string) (obj : list (string * A)) : option A :=
  match obj with
  | [] => None
  | (k, v) :: rest => if decide (k = key) then Some v else object_get key rest
  end.

Definition setPlayHomeTeam (v : option string) (st : Playground) : Playground :=
  {| playHomeTeam := v; playAwayTeam := playAwayTeam st;
     homeLineup := homeLineup st; awayLineup := awayLineup st;
     evaluationResult := evaluationResult st;
     evaluatingLineup := evaluatingLineup st |}.

Definition setPlayAwayTeam (v : option string) (st : Playground) : Playground :=
  {| playHomeTeam := playHomeTeam st; playAwayTeam := v;
     homeLineup := homeLineup st; awayLineup := awayLineup st;
     evaluationResult := evaluationResult st;
     evaluatingLineup := evaluatingLineup st |}.

(** [setHomeLineup(prev => f(prev))]. *)
Definition setHomeLineup (f : Roster → Roster) (st : Playground) : Playground :=
  {| playHomeTeam := playHomeTeam st; playAwayTeam := playAwayTeam st;
     homeLineup := f (homeLineup st); awayLineup := awayLineup st;
     evaluationResult := evaluationResult st;
     evaluatingLineup := evaluatingLineup st |}.

(** [setAwayLineup(prev => f(prev))]. *)
Definition setAwayLineup (f : Roster → Roster) (st : Playground) : Playground :=
  {| playHomeTeam := playHomeTeam st; playAwayTeam := playAwayTeam st;
     homeLineup := homeLineup st; awayLineup := f (awayLineup st);
     evaluationResult := evaluationResult st;
     evaluatingLineup := evaluatingLineup st |}.

(** [openPicker(position, side)]; the second component is the text of the
    [alert], if one is raised. *)
Definition openPicker (pos : string) (side_ : string) (b : Board)
  : Board * option string :=
  let teamId :=
    if decide (side_ = "home") then playHomeTeam (playground b)
    else playAwayTeam (playground b) in
  match Engine.truthy_string teamId with
  | None => (b, Some "Select a team first")
  | Some _ =>
      ({| playground := playground b;
          showPlayerPicker := {| open := true; position := Some pos; side := side_ |} |},
       None)
  end.

(** [assignPlayerToPosition(player)]; a [null] position is the key
    ["null"]. *)
Definition assignPlayerToPosition (player : RosterPlayer) (b : Board) : Board :=
  let key := default "null" (position (showPlayerPicker b)) in
  {| playground :=
       if decide (side (showPlayerPicker b) = "home")
       then setHomeLineup (object_set key (Some player)) (playground b)
       else setAwayLineup (object_set key (Some player)) (playground b);
     showPlayerPicker := closedPicker |}.

(** [clearLineup()]. *)
Definition clearLineup (b : Board) : Board :=
  {| playground :=
       setEvaluationResult None
         (setAwayLineup (λ _, emptyLineup)
            (setHomeLineup (λ _, emptyLineup) (playground b)));
     showPlayerPicker := showPlayerPicker b |}.

(** What the user can click in [renderPlayground]. *)
Inductive Click :=
| select_home (value : string)
| select_away (value : string)
| reset_button
| position_button (pos : string) (side_ : string)
| close_button
| player_button (player : RosterPlayer)
| evaluate_button (api : Api) (random1 random2 : R).

(** The buttons the render offers.  There is one position button per
    entry of [PLAY_POSITIONS] and per side; the close button and the
    player buttons exist only while the picker is open (every player is
    taken as offered then, which covers whatever the roster cache holds);
    the evaluate button is disabled while an evaluation runs or a team is
    missing.  A click is handled to completion before the next one. *)
Definition offered (b : Board) (c : Click) : bool :=
  match c with
  | position_button pos side_ =>
      bool_decide (pos ∈ PLAY_POSITIONS)
      && (bool_decide (side_ = "home") || bool_decide (side_ = "away"))
  | close_button | player_button _ => open (showPlayerPicker b)
  | evaluate_button _ _ _ =>
      negb (evaluatingLineup (playground b))
      && bool_decide (is_Some (Engine.truthy_string (playHomeTeam (playground b))))
      && bool_decide (is_Some (Engine.truthy_string (playAwayTeam (playground b))))
  | _ => true
  end.

(** The handler behind each click; [e.target.value || null] for the two
    selects.  The promise of [evaluateLineup] never rejects; were it to,
    the state would be as before the click. *)
Definition handle (c : Click) (b : Board) : Board :=
  match c with
  | select_home value =>
      {| playground := setPlayHomeTeam (Engine.truthy_string (Some value)) (playground b);
         showPlayerPicker := showPlayerPicker b |}
  | select_away value =>
      {| playground := setPlayAwayTeam (Engine.truthy_string (Some value)) (playground b);
         showPlayerPicker := showPlayerPicker b |}
  | reset_button => clearLineup b
  | position_button pos side_ => (openPicker pos side_ b).1
  | close_button =>
      {| playground := playground b; showPlayerPicker := closedPicker |}
  | player_button player => assignPlayerToPosition player b
  | evaluate_button api random1 random2 =>
      match evaluateLineup api random1 random2 (playground b) with
      | Normal st => {| playground := st; showPlayerPicker := showPlayerPicker b |}
      | Throw _ => b
      end
  end.

(** A session: the clicks in order; [None] when a click is not offered. *)
Fixpoint session (clicks : list Click) (b : Board) : option Board :=
  match clicks with
  | [] => Some b
  | c :: rest => if offered b c then session rest (handle c b) else None
  end.

(** The [useState] initial values. *)
Definition initialBoard : Board :=
  {| playground :=
       {| playHomeTeam := None; playAwayTeam := None;
          homeLineup := emptyLineup; awayLineup := emptyLineup;
          evaluationResult := None; evaluatingLineup := false |};
     showPlayerPicker := closedPicker |}.

(** The lineup of a side, as [assignPlayerToPosition] and [openPicker]
    tell the sides apart. *)
Definition lineupOf (side_ : string) (st : Playground) : Roster :=
  if decide (side_ = "home") then homeLineup st else awayLineup st.

Definition teamOf (side_ : string) (st : Playground) : option string :=
  if decide (side_ = "home") then playHomeTeam st else playAwayTeam st.

Definition otherSide (side_ : string) : string :=
  if decide (side_ = "home") then "away" else "home".

(** The state invariant of the playground: both lineups have the seven
    positions as their keys, and an open picker is at one of them. *)
Definition well_formed (b : Board) : Prop :=
  (homeLineup (playground b)).*1 = PLAY_POSITIONS
  ∧ (awayLineup (playground b)).*1 = PLAY_POSITIONS
  ∧ (open (showPlayerPicker b) = true →
     ∃ pos, position (showPlayerPicker b) = Some pos ∧ pos ∈ PLAY_POSITIONS).

End Board.

(** ** Team roster: the per-player forecast cache *)

Module RosterView.
Import Js Lineup.

(** The state hooks of the roster view. *)
Record View := {
  selectedRosterPlayer : option string;
  playerPredictionsMap : gmap string (option Prediction);
  playerPredictionsLoading : option string;
  playerPredictionsError : option string
}.

(** The state, and the player identifiers requested from the forecast
    collaborator so far. *)
Definition World : Type := View * list string.

Definition setSelectedRosterPlayer (v : option string) (s : View) : View :=
  {| selectedRosterPlayer := v;
     playerPredictionsMap := playerPredictionsMap s;
     playerPredictionsLoading := playerPredictionsLoading s;
     playerPredictionsError := playerPredictionsError s |}.

(** [setPlayerPredictionsMap(prev => f(prev))]. *)
Definition setPlayerPredictionsMap
    (f : gmap string (option Prediction) → gmap string (option Prediction))
    (s : View) : View :=
  {| selectedRosterPlayer := selectedRosterPlayer s;
     playerPredictionsMap := f (playerPredictionsMap s);
     playerPredictionsLoading := playerPredictionsLoading s;
     playerPredictionsError := playerPredictionsError s |}.

Definition setPlayerPredictionsLoading (v : option string) (s : View) : View :=
  {| selectedRosterPlayer := selectedRosterPlayer s;
     playerPredictionsMap := playerPredictionsMap s;
     playerPredictionsLoading := v;
     playerPredictionsError := playerPredictionsError s |}.

Definition setPlayerPredictionsError (v : option string) (s : View) : View :=
  {| selectedRosterPlayer := selectedRosterPlayer s;
     playerPredictionsMap := playerPredictionsMap s;
     playerPredictionsLoading := playerPredictionsLoading s;
     playerPredictionsError := v |}.

(** [err?.message || fallback]; an error is identified with its message. *)
Definition message_or (err fallback : string) : string :=
  if decide (err = "") then fallback else err.

(** [playerPredictionsMap[playerId]] read as a condition: a stored
    forecast is truthy, a stored [null] and a missing key are not. *)
Definition cached (s : View) (playerId : string) : bool :=
  match playerPredictionsMap s !! playerId with
  | Some (Some _) => true
  | _ => false
  end.

(** The component's own [getPlayerPredictions(playerId)], which wraps the
    imported [apiGetPlayerPredictions]; the promise it returns. *)
Definition getPlayerPredictions (api : Api) (playerId : string) (w : World)
  : World * Settled (option Prediction) :=
  let s := setPlayerPredictionsError None
             (setPlayerPredictionsLoading (Some playerId) w.1) in
  let requests := w.2 ++ [playerId] in
  match p ← apiGetPlayerPredictions api playerId; await p with
  | Normal data =>
      ((setPlayerPredictionsLoading None
          (setPlayerPredictionsMap <[playerId := data]> s), requests),
       Fulfilled data)
  | Throw error =>
      ((setPlayerPredictionsLoading None
          (setPlayerPredictionsError
             (Some (message_or error "Failed to load player predictions")) s),
        requests),
       Fulfilled None)
  end.

(** [toggleRosterPlayer(player)].  [selectedRosterPlayer] and
    [playerPredictionsMap] are read from the state the handler was
    rendered with. *)
Definition toggleRosterPlayer (api : Api) (player : RosterPlayer) (w : World)
  : World :=
  let finally_ (w : World) : World := (setPlayerPredictionsLoading None w.1, w.2) in
  if decide (selectedRosterPlayer w.1 = Some (id player)) then
    finally_ (setSelectedRosterPlayer None w.1, w.2)
  else
    let w1 : World := (setSelectedRosterPlayer (Some (id player)) w.1, w.2) in
    if cached w.1 (id player) then finally_ w1
    else
      let w2 : World :=
        (setPlayerPredictionsError None
           (setPlayerPredictionsLoading (Some (id player)) w1.1), w1.2) in
      let fetched := getPlayerPredictions api (id player) w2 in
      match await fetched.2 with
      | Normal pred =>
          finally_ (setPlayerPredictionsMap <[id player := pred]> fetched.1.1,
                    fetched.1.2)
      | Throw err =>
          finally_ (setPlayerPredictionsError
                      (Some (message_or err "Failed to load player predictions"))
                      fetched.1.1,
                    fetched.1.2)
      end.

(** The [useState] initial values. *)
Definition initialView : View :=
  {| selectedRosterPlayer := None; playerPredictionsMap := ∅;
     playerPredictionsLoading := None; playerPredictionsError := None |}.

End RosterView.

Module RosterSamples.
Import Js Lineup Samples.

(** A forecast collaborator that knows the quarterback. *)
Definition api_qb : Api :=
  {| apiGetPlayerPredictions := λ playerId,
       if decide (playerId = "player_001") then Normal (Fulfilled (Some hurts))
       else Normal (Rejected "API error 404: Not Found");
     apiEvaluateLineup := λ _, Normal (Rejected "Failed to fetch") |}.

End RosterSamples.

(** ** Chat: asking the assistant *)

Module Chat.
Import Js Engine.

(** What [handleChatSubmit] reads besides the dashboard state: the input
    field, the selected player and the [ws] state hook. *)
Record Form := {
  currentQuestion : string;
  selectedPlayer : option string;
  ws : option ReadyState
}.

(** Text is held as its UTF-8 bytes.  The white space
    [String.prototype.trim] removes is the ECMAScript [WhiteSpace] and
    [LineTerminator] code points: U+0009 to U+000D and U+0020 (one byte),
    U+00A0 (two bytes), and U+1680, U+2000 to U+200A, U+2028, U+2029,
    U+202F, U+205F, U+3000 and U+FEFF (three bytes). *)
Definition is_white_space (b : N) : bool :=
  N.eqb b 32 || (N.leb 9 b && N.leb b 13).

Definition is_white_space2 (b1 b2 : N) : bool :=
  N.eqb b1 194 && N.eqb b2 160.

Definition is_white_space3 (b1 b2 b3 : N) : bool :=
  (N.eqb b1 225 && N.eqb b2 154 && N.eqb b3 128)
  || (N.eqb b1 226 && N.eqb b2 128
      && ((N.leb 128 b3 && N.leb b3 138)
          || N.eqb b3 168 || N.eqb b3 169 || N.eqb b3 175))
  || (N.eqb b1 226 && N.eqb b2 129 && N.eqb b3 159)
  || (N.eqb b1 227 && N.eqb b2 128 && N.eqb b3 128)
  || (N.eqb b1 239 && N.eqb b2 187 && N.eqb b3 191).

(** Every code point of the text is white space. *)
Fixpoint white_space_only (bytes : list N) : bool :=
  match bytes with
  | [] => true
  | b1 :: rest1 =>
      if is_white_space b1 then white_space_only rest1
      else
        match rest1 with
        | [] => false
        | b2 :: rest2 =>
            if is_white_space2 b1 b2 then white_space_only rest2
            else
              match rest2 with
              | [] => false
              | b3 :: rest3 =>
                  if is_white_space3 b1 b2 b3 then white_space_only rest3
                  else false
              end
        end
  end.

(** [!s.trim()]: trimming leaves the empty string. *)
Definition is_blank (s : string) : bool :=
  white_space_only (Ascii.N_of_ascii <$> String.list_ascii_of_string s).

(** The [predictions] the handler was rendered with. *)
Definition rendered_predictions : Handler (list ForecastRecord) :=
  λ w, (w, Normal (forecasts w.1)).

(** [handleChatSubmit(e)]; the result is the form after
    [setCurrentQuestion('')]. *)
Definition handleChatSubmit (env : Env) (form : Form) : Handler Form :=
  if is_blank (currentQuestion form) || negb (bool_decide (ws form = Some OPEN))
  then mret form
  else
    predictions ← rendered_predictions;
    let resolvedPlayerName :=
      match truthy_string (selectedPlayer form) with
      | Some selected =>
          found ← list_find (λ p, player_id (prediction p) = selected) predictions;
          truthy_string (Some (player_name (prediction found.2)))
      | None =>
          first ← head predictions;
          truthy_string (Some (player_name (prediction first)))
      end in
    let userMessage :=
      {| chat_id := Date_now env;
         chat_type := "user";
         text := currentQuestion form;
         playerName := resolvedPlayerName;
         playerId :=
           match truthy_string (selectedPlayer form) with
           | Some selected => Some selected
           | None => (λ first, player_id (prediction first)) <$> head predictions
           end |} in
    setChatMessages (λ prev, prev ++ [userMessage]);;
    safeSend env (cedar_question (currentQuestion form) (playerId userMessage));;
    setIsAssistantThinking true;;
    mret {| currentQuestion := ""; selectedPlayer := selectedPlayer form;
            ws := ws form |}.

(** [handleScenarioChange(scenarioType)]. *)
Definition handleScenarioChange (env : Env) (scenarioType : string) : Handler unit :=
  match wsRef env with
  | None => mret ()
  | Some _ =>
      safeSend env
        (scenario_change scenarioType
           (if decide (scenarioType = "weather_change") then 0.15 else 0.2))
  end.

End Chat.

Module ChatSamples.
Import Js Engine Chat.

(** A question typed while the socket is open and no player is selected. *)
Definition asking : Form :=
  {| currentQuestion := "Will he throw for 300 yards?"; selectedPlayer := None;
     ws := Some OPEN |}.

(** The socket has been closed by the peer. *)
Definition env_closed : Env :=
  {| wsRef := Some CLOSED; predictions_in_scope := [];
     Date_now := 1758996251000; random_1000 := 417 |}.

(** A question made of a no-break space (U+00A0), a space and an
    ideographic space (U+3000). *)
Definition spaces_only : Form :=
  {| currentQuestion :=
       String.string_of_list_ascii
         (Ascii.ascii_of_N <$> [194; 160; 32; 227; 128; 128]%N);
     selectedPlayer := None; ws := Some OPEN |}.

End ChatSamples.

(** ** The confidence circle *)

Module Circle.
Import Js Display.

(** The three stroke colours: ['#34D399'], ['#F59E0B'] and ['#F87171']. *)
Inductive Colour := green_400 | amber_500 | red_400.

(** [pct >= 0.85 ? green : pct >= 0.5 ? amber : red]. *)
Definition color (confidence : option R) : Colour :=
  if Rle_dec 0.85 (pct confidence) then green_400
  else if Rle_dec 0.5 (pct confidence) then amber_500
  else red_400.

Definition stroke : R := 4.

(** [(size - stroke) / 2]. *)
Definition radius (size : R) : R := (size - stroke) / 2.

(** [2 * Math.PI * radius]. *)
Definition circumference (size : R) : R := 2 * PI * radius size.

(** [circumference * (1 - pct)]: the part of the ring left undrawn. *)
Definition dashOffset (confidence : option R) (size : R) : R :=
  circumference size * (1 - pct confidence).

End Circle.

(** ** The other listing of the handler

    The [live_update] and [scenario_update] branches of the [App.js]
    listing headed "COMPLETE FILE", which builds its own event record,
    stores ten live events without looking at their identifiers, shows
    the first five of them, and replaces forecasts with
    [Array.prototype.map]. *)

Module CompleteFile.
Import Js Engine.

(** A [live_update] message as the two listings read it: [message.event]
    with the five fields the current handler copies, and what only this
    listing reads, [message.event.player_name], [message.event.impact] and
    [message.timestamp]. *)
Record LiveUpdate := {
  update_game_state : option GameState;
  update_event : LiveEvent;
  update_player_name : option string;
  update_impact : option string;
  update_timestamp : option string
}.

(** An entry of this listing's [liveEvents] (fields [id], [type],
    [timestamp], [player_name], [description], [quarter], [impact]). *)
Record StoredEvent := {
  stored_id : string;
  stored_type : string;
  stored_timestamp : option string;
  stored_player_name : option string;
  stored_description : string;
  stored_quarter : Z;
  stored_impact : string
}.

(** [const newEvent = { id: message.event.id, ..., timestamp:
    message.timestamp, ..., impact: message.event.impact || 'neutral' }]. *)
Definition newEvent (message : LiveUpdate) : StoredEvent :=
  {| stored_id := event_id (update_event message);
     stored_type := event_type (update_event message);
     stored_timestamp := update_timestamp message;
     stored_player_name := update_player_name message;
     stored_description := event_description (update_event message);
     stored_quarter := event_quarter (update_event message);
     stored_impact := default "neutral" (truthy_string (update_impact message)) |}.

(** [prev => [newEvent, ...prev.slice(0, 9)]]. *)
Definition addLiveEvent (newEvent : StoredEvent) (prev : list StoredEvent)
  : list StoredEvent :=
  newEvent :: take 9 prev.

(** The [liveEvents] of this listing after a sequence of [live_update]
    messages, from the empty list. *)
Definition stored (updates : list LiveUpdate) : list StoredEvent :=
  foldl (λ prev message, addLiveEvent (newEvent message) prev) [] updates.

(** The same message as the current handler reads it. *)
Definition toMessage (message : LiveUpdate) : Message :=
  {| type := Some "live_update"; game_state := update_game_state message;
     initial_predictions := None; event := Some (update_event message);
     updated_prediction := None; msg_explanation := None; scenario := None;
     updated_predictions := None; msg_player_name := None;
     msg_player_id := None; answer := None |}.

(** The [liveEvents] of the current handler after the same messages, from
    the initial state. *)
Definition current (updates : list LiveUpdate) : list LiveEvent :=
  liveEvents
    (foldl (λ w message, (onLiveUpdate (toMessage message) w).1)
       (initialState, []) updates).1.

(** What a rendered event shows besides the time: the key [event.id],
    the icon of [event.type], [event.description] and [event.quarter]. *)
Definition Line : Type := string * string * string * Z.

Definition line (e : LiveEvent) : Line :=
  (event_id e, event_type e, event_description e, event_quarter e).

Definition storedLine (e : StoredEvent) : Line :=
  (stored_id e, stored_type e, stored_description e, stored_quarter e).

(** [prev => prev.map(p => p.prediction.player_id === updated.player_id
       ? { prediction: updated, explanation } : p)]. *)
Definition replacePrediction (updated : Prediction) (expl : option Explanation)
    (prev : list ForecastRecord) : list ForecastRecord :=
  (λ p, if decide (player_id (prediction p) = player_id updated)
        then {| prediction := updated; explanation := expl |}
        else p) <$> prev.

(** The [scenario_update] branch:
    [message.updated_predictions.forEach(update => setPredictions(prev =>
       prev.map(p => p.prediction.player_id === update.prediction.player_id
                     ? update : p)))]. *)
Definition mergePredictions (updates prev : list ForecastRecord)
  : list ForecastRecord :=
  foldl (λ prev update,
           (λ p, if decide (player_id (prediction p) = player_id (prediction update))
                 then update else p) <$> prev)
    prev updates.

(** [p.prediction.player_id]. *)
Definition playerOf (p : ForecastRecord) : string := player_id (prediction p).

(** The update that ends up in a record's place: the first one for the
    record's player, or the record itself. *)
Definition updateFor (updates : list ForecastRecord) (p : ForecastRecord)
  : ForecastRecord :=
  default p (snd <$> list_find (λ update, playerOf update = playerOf p) updates).

(** [liveEvents.slice(0, 5)], the events both listings render. *)
Definition shown {E} (liveEvents : list E) : list E := take 5 liveEvents.

End CompleteFile.

Module ListingSamples.
Import Js Engine CompleteFile.

Definition completed : LiveUpdate :=
  {| update_game_state := Some Samples.third_quarter;
     update_event := Samples.completion;
     update_player_name := Some "Jalen Hurts";
     update_impact := Some "positive";
     update_timestamp := Some "2025-09-27T18:04:12" |}.

Definition sacked : LiveUpdate :=
  {| update_game_state := Some Samples.third_quarter;
     update_event := MoreSamples.sack;
     update_player_name := Some "Jalen Hurts";
     update_impact := None;
     update_timestamp := None |}.

End ListingSamples.

(** ** Playground: the roster of a selected team *)

Module PlayersCache.
Import Js Lineup.

(** [teamPlayersCache], team identifier to players, and the team
    identifiers requested so far. *)
Definition World : Type := gmap string (list RosterPlayer) * list string.

(** [getTeamPlayers] of [services/api.js]: a call either throws or
    returns a promise; the body it resolves to may be [null]. *)
Definition GetTeamPlayers : Type :=
  string → Completion (Settled (option (list RosterPlayer))).

(** [loadPlayersFor(teamId)] inside the effect.  [rendered] is the
    [teamPlayersCache] the effect closed over; an array, empty or not, is
    truthy. *)
Definition loadPlayersFor (getTeamPlayers : GetTeamPlayers)
    (rendered : gmap string (list RosterPlayer)) (teamId : option string)
    (w : World) : World :=
  match Engine.truthy_string teamId with
  | None => w
  | Some team =>
      match rendered !! team with
      | Some _ => w
      | None =>
          match p ← getTeamPlayers team; await p with
          | Normal players => (<[team := default [] players]> w.1, w.2 ++ [team])
          | Throw _ => (<[team := []]> w.1, w.2 ++ [team])
          end
      end
  end.

(** The effect that runs when [playHomeTeam] or [playAwayTeam] changes:
    [loadPlayersFor(playHomeTeam); loadPlayersFor(playAwayTeam)]. *)
Definition loadPlayers (getTeamPlayers : GetTeamPlayers)
    (teams : option string * option string) (w : World) : World :=
  loadPlayersFor getTeamPlayers w.1 teams.2
    (loadPlayersFor getTeamPlayers w.1 teams.1 w).

(** The effect run after each of a sequence of team selections, from the
    empty cache; each run completes before the next selection. *)
Definition selections (getTeamPlayers : GetTeamPlayers)
    (chosen : list (option string * option string)) : World :=
  foldl (λ w teams, loadPlayers getTeamPlayers teams w) (∅, []) chosen.

End PlayersCache.

Module PlayersCacheSamples.
Import Js Lineup Samples PlayersCache.

(** A backend that knows the roster of one team. *)
Definition roster_api : GetTeamPlayers :=
  λ team,
    if decide (team = "PHI") then Normal (Fulfilled (Some [quarterback]))
    else Normal (Rejected "API error 404: Not Found").

End PlayersCacheSamples.

(** ** The socket's lifecycle handlers *)

Module Connection.

(** The three places that remember the connection: the [isConnected] and
    [ws] state hooks and [wsRef.current].  A socket object is identified
    by a number. *)
Record Link := {
  isConnected : bool;
  wsRef_current : option nat;
  ws : option nat
}.

(** The state after [initializeDashboard] has run: [created] is the
    socket, or [None] when [WebSocket] is missing or its constructor
    throws. *)
Definition mounted (created : option nat) : Link :=
  {| isConnected := false; wsRef_current := created; ws := created |}.

Inductive SocketEvent := onopen | onclose | onerror.

(** [websocket.onopen], [websocket.onclose] and [websocket.onerror]. *)
Definition handle (websocket : nat) (l : Link) (ev : SocketEvent) : Link :=
  match ev with
  | onopen =>
      {| isConnected := true; wsRef_current := Some websocket;
         ws := Some websocket |}
  | onclose => {| isConnected := false; wsRef_current := None; ws := None |}
  | onerror =>
      {| isConnected := false; wsRef_current := wsRef_current l; ws := ws l |}
  end.

(** The state after a sequence of socket events. *)
Definition after (created : option nat) (events : list SocketEvent) : Link :=
  match created with
  | Some websocket => foldl (handle websocket) (mounted created) events
  | None => mounted created
  end.

End Connection.

(** ** Edge-case sample data *)

Module EdgeSamples.
Import Js Lineup Samples.

(** A record whose [overall_confidence] is 0. *)
Definition unrated : Prediction :=
  {| player_id := "player_004"; player_name := "A. Kicker"; position := "K";
     predictions := ∅;
     overall_confidence := Some 0 |}.

(** A player the forecast endpoint does not know. *)
Definition nobody : RosterPlayer :=
  {| id := "player_404"; first_name := "A."; last_name := "Nobody" |}.

(** The playground with that player as the home quarterback. *)
Definition playground_nobody : Playground :=
  {| playHomeTeam := Some "PHI"; playAwayTeam := Some "DAL";
     homeLineup := ("QB", Some nobody) :: tail emptyLineup;
     awayLineup := emptyLineup;
     evaluationResult := None; evaluatingLineup := false |}.



End EdgeSamples.

(* ===================================================================== *)
(** * Part II: properties                                                 *)
(* ===================================================================== *)

(** ** Arithmetic of the JavaScript primitives *)

Section JsFacts.
Import Js.

Lemma Math_round_int (n : Z) : Math_round (IZR n) = IZR n.
Proof. unfold Math_round. f_equal. apply Zfloor_eq. lra. Qed.

Lemma Math_round_mono (x y : R) : x <= y → Math_round x <= Math_round y.
Proof. intros Hxy. unfold Math_round. apply IZR_le, Zfloor_le. lra. Qed.

Lemma Math_round_nearest (x : R) : x - / 2 < Math_round x <= x + / 2.
Proof. unfold Math_round. pose proof (Zfloor_bound (x + / 2)). lra. Qed.

Lemma Math_round_between (a b : Z) (x : R) :
  IZR a <= x <= IZR b → IZR a <= Math_round x <= IZR b.
Proof.
  intros [Ha Hb]. split.
  - rewrite <- (Math_round_int a). by apply Math_round_mono.
  - rewrite <- (Math_round_int b). by apply Math_round_mono.
Qed.

Lemma Math_round_lt (b : Z) (x : R) : x + / 2 < IZR b → Math_round x <= IZR b - 1.
Proof.
  intros Hx. unfold Math_round.
  pose proof (Zfloor_bound (x + / 2)) as [Hlo _].
  assert (Zfloor (x + / 2) < b)%Z as Hlt by (apply lt_IZR; lra).
  assert (Zfloor (x + / 2) <= b - 1)%Z as Hle by lia.
  apply IZR_le in Hle. rewrite minus_IZR in Hle. lra.
Qed.

Lemma or_else_zero (v : option R) : or_else v 0 = default 0 v.
Proof. destruct v as [x|]; simpl; [|done]. by destruct (Req_dec_T x 0). Qed.

Lemma Math_max_clamp (x : R) :
  Math_max 0.02 (Math_min 0.98 x) = Stated.clamp 0.02 0.98 x.
Proof.
  unfold Math_max, Math_min, Stated.clamp, Rmax, Rmin.
  repeat destruct (Rle_dec _ _); repeat destruct (Rlt_dec _ _); lra.
Qed.

Lemma clamp_bounds (x : R) : 0.02 <= Stated.clamp 0.02 0.98 x <= 0.98.
Proof. unfold Stated.clamp. repeat destruct (Rlt_dec _ _); lra. Qed.

Lemma clamp_mono (x y : R) :
  x <= y → Stated.clamp 0.02 0.98 x <= Stated.clamp 0.02 0.98 y.
Proof. intros. unfold Stated.clamp. repeat destruct (Rlt_dec _ _); lra. Qed.

Lemma sigmoid_logistic (x : R) : Lineup.sigmoid x = Stated.logistic (6 * x).
Proof. unfold Lineup.sigmoid, Stated.logistic. do 3 f_equal. lra. Qed.

Lemma sigmoid_mono (x y : R) : x <= y → Lineup.sigmoid x <= Lineup.sigmoid y.
Proof.
  intros Hxy. unfold Lineup.sigmoid.
  assert (exp (- 6 * y) <= exp (- 6 * x)) as Hexp.
  { destruct (Req_dec_T x y) as [-> | Hne]; [lra|].
    left. apply exp_increasing. lra. }
  pose proof (exp_pos (- 6 * x)). pose proof (exp_pos (- 6 * y)).
  unfold Rdiv. rewrite !Rmult_1_l.
  apply Rinv_le_contravar; lra.
Qed.

Lemma sigmoid_0 : Lineup.sigmoid 0 = 0.5.
Proof. unfold Lineup.sigmoid. rewrite Rmult_0_r, exp_0. lra. Qed.

End JsFacts.

(** ** Lineup evaluator: the aggregation *)

Module LineupProps.
Import Js Lineup.

Lemma stat_value (p : Prediction) (category : string) :
  stat p category = Stated.value_or_zero p category.
Proof.
  unfold stat, Stated.value_or_zero. rewrite or_else_zero.
  destruct (predictions p !! category) as [s|]; simpl; [|done].
  by destruct (predicted_value s).
Qed.

Lemma step_points (p : Prediction) :
  stat p "touchdowns" * 6
  + 0.02 * (stat p "passing_yards" + stat p "rushing_yards" + stat p "receiving_yards")
  = Stated.playerPoints p.
Proof. unfold Stated.playerPoints, Stated.playerYards. rewrite !stat_value. lra. Qed.

Lemma step_yards (p : Prediction) :
  stat p "passing_yards" + stat p "rushing_yards" + stat p "receiving_yards"
  = Stated.playerYards p.
Proof. unfold Stated.playerYards. by rewrite !stat_value. Qed.

(** The loop of [summarize] adds, to each accumulator, the total of the
    records that are present. *)
Lemma forEach_totals (preds : list (option Prediction)) (acc : Acc) :
  let side := Stated.available preds in
  let acc' := foldl summarize_step acc preds in
  confidenceSum acc' = confidenceSum acc + Stated.Rsum (Stated.playerConfidence <$> side)
  ∧ count acc' = (count acc + length side)%nat
  ∧ acc_points acc' = acc_points acc + Stated.sidePoints side
  ∧ acc_yards acc' = acc_yards acc + Stated.sideYards side.
Proof.
  unfold Stated.sidePoints, Stated.sideYards.
  revert acc. induction preds as [|[p|] preds IH]; intros acc.
  - simpl. split_and!; [lra | lia | lra | lra].
  - destruct (IH (summarize_step acc (Some p))) as (Hc & Hn & Hp & Hy).
    change (Stated.available (Some p :: preds)) with (p :: Stated.available preds).
    rewrite !fmap_cons.
    cbn [foldl Stated.Rsum length].
    rewrite Hc, Hn, Hp, Hy.
    cbn [summarize_step confidenceSum count acc_points acc_yards].
    rewrite step_points, step_yards.
    split_and!; [|lia|lra|lra].
    unfold Stated.playerConfidence at 2, or_else.
    destruct (overall_confidence p); lra.
  - apply IH.
Qed.

Lemma summarize_spec (preds : list (option Prediction)) :
  let side := Stated.available preds in
  avgConfidence (summarize preds) = Stated.averageConfidence side
  ∧ points (summarize preds) = Stated.sidePoints side
  ∧ yards (summarize preds) = Stated.sideYards side.
Proof.
  destruct (forEach_totals preds
    {| confidenceSum := 0; count := 0; acc_points := 0; acc_yards := 0 |})
    as (Hc & Hn & Hp & Hy).
  unfold summarize. simpl in *. rewrite Hc, Hn, Hp, Hy.
  split_and!; [|lra|lra].
  unfold Stated.averageConfidence.
  destruct (Stated.available preds); simpl; [done|]. by rewrite Rplus_0_l.
Qed.

Lemma available_insert (l1 l2 : list (option Prediction)) (p : Prediction) :
  Stated.available (l1 ++ Some p :: l2)
  = Stated.available l1 ++ p :: Stated.available l2.
Proof. unfold Stated.available. by rewrite omap_app. Qed.

Lemma available_app (l1 l2 : list (option Prediction)) :
  Stated.available (l1 ++ l2) = Stated.available l1 ++ Stated.available l2.
Proof. unfold Stated.available. by rewrite omap_app. Qed.

Lemma Rsum_app (xs ys : list R) :
  Stated.Rsum (xs ++ ys) = Stated.Rsum xs + Stated.Rsum ys.
Proof. induction xs as [|x xs IH]; simpl; [lra|]. rewrite IH. lra. Qed.

(** The reported win probability is a number of tenths between 2 and 98. *)
Lemma reported_range (h a : Summary) :
  let w := Math_round (rawWinProbability h a * 1000) / 10 in
  2 <= w <= 98
  ∧ Stated.percent_1dp (rawWinProbability h a) w.
Proof.
  unfold rawWinProbability. rewrite Math_max_clamp.
  set (x := Stated.clamp 0.02 0.98 _).
  pose proof (clamp_bounds (sigmoid (homeStrength h a - awayStrength h a))) as Hx.
  fold x in Hx. simpl.
  pose proof (Math_round_between 20 980 (x * 1000)) as Hb.
  pose proof (Math_round_nearest (x * 1000)) as Hn.
  split; [lra|].
  exists (Zfloor (x * 1000 + / 2)). split; [done|].
  unfold Math_round in *. apply Rabs_le. lra.
Qed.

End LineupProps.

(** ** Lineup evaluator: the stated properties *)

Module LineupClaims.
Import Js Lineup LineupProps Samples RosterSamples EdgeSamples.

Lemma Math_round_eq (n : Z) (x : R) : x = IZR n → Math_round x = IZR n.
Proof. intros ->. apply Math_round_int. Qed.

(** *** Sample evaluations *)

Lemma hurts_points : Stated.playerPoints hurts = 19.
Proof.
  unfold Stated.playerPoints, Stated.playerYards.
  change (Stated.value_or_zero hurts "touchdowns") with 2.1.
  change (Stated.value_or_zero hurts "passing_yards") with 275.0.
  change (Stated.value_or_zero hurts "rushing_yards") with 45.0.
  change (Stated.value_or_zero hurts "receiving_yards") with 0.
  lra.
Qed.

Lemma hurts_confidence : Stated.playerConfidence hurts = 0.817.
Proof.
  unfold Stated.playerConfidence. simpl.
  destruct (Req_dec_T 0.817 0); lra.
Qed.

Lemma hurts_yards : Stated.playerYards hurts = 320.
Proof.
  unfold Stated.playerYards.
  change (Stated.value_or_zero hurts "passing_yards") with 275.0.
  change (Stated.value_or_zero hurts "rushing_yards") with 45.0.
  change (Stated.value_or_zero hurts "receiving_yards") with 0.
  lra.
Qed.

Lemma summarize_one (p : Prediction) :
  avgConfidence (summarize [Some p]) = Stated.playerConfidence p
  ∧ points (summarize [Some p]) = Stated.playerPoints p
  ∧ yards (summarize [Some p]) = Stated.playerYards p.
Proof.
  destruct (summarize_spec [Some p]) as (Hc & Hp & Hy).
  rewrite Hc, Hp, Hy.
  unfold Stated.averageConfidence, Stated.sidePoints, Stated.sideYards. simpl.
  split_and!; lra.
Qed.

Lemma summarize_none :
  summarize [] = {| avgConfidence := 0.7; points := 0; yards := 0 |}.
Proof. reflexivity. Qed.

Ltac sample_confidence :=
  unfold Stated.playerConfidence; simpl;
  match goal with |- context [Req_dec_T ?x 0] => destruct (Req_dec_T x 0) end; lra.

Lemma rookie_confidence : Stated.playerConfidence rookie = 0.05.
Proof. sample_confidence. Qed.

Lemma receiver_confidence : Stated.playerConfidence receiver = 0.07.
Proof. sample_confidence. Qed.

Lemma buried_back_confidence : Stated.playerConfidence buried_back = 0.98.
Proof. sample_confidence. Qed.

Lemma rookie_points : Stated.playerPoints rookie = 0.
Proof.
  unfold Stated.playerPoints, Stated.playerYards.
  change (Stated.value_or_zero rookie "touchdowns") with 0.
  change (Stated.value_or_zero rookie "passing_yards") with 0.
  change (Stated.value_or_zero rookie "rushing_yards") with 0.
  change (Stated.value_or_zero rookie "receiving_yards") with 0.
  lra.
Qed.

Lemma receiver_points : Stated.playerPoints receiver = 0.25.
Proof.
  unfold Stated.playerPoints, Stated.playerYards.
  change (Stated.value_or_zero receiver "touchdowns") with 0.
  change (Stated.value_or_zero receiver "passing_yards") with 0.
  change (Stated.value_or_zero receiver "rushing_yards") with 0.
  change (Stated.value_or_zero receiver "receiving_yards") with 12.5.
  lra.
Qed.

Lemma buried_back_points : Stated.playerPoints buried_back = - 1.4.
Proof.
  unfold Stated.playerPoints, Stated.playerYards.
  change (Stated.value_or_zero buried_back "touchdowns") with 0.
  change (Stated.value_or_zero buried_back "passing_yards") with 0.
  change (Stated.value_or_zero buried_back "rushing_yards") with (-70).
  change (Stated.value_or_zero buried_back "receiving_yards") with 0.
  lra.
Qed.

Lemma summarize_two (p q : Prediction) :
  avgConfidence (summarize [Some p; Some q])
  = (Stated.playerConfidence p + Stated.playerConfidence q) / 2
  ∧ points (summarize [Some p; Some q])
    = Stated.playerPoints p + Stated.playerPoints q.
Proof.
  destruct (summarize_spec [Some p; Some q]) as (Hc & Hp & _).
  rewrite Hc, Hp.
  unfold Stated.averageConfidence, Stated.sidePoints. simpl.
  split; lra.
Qed.

Example hurts_alone_yards :
  expectedYardsHome (heuristic [Some hurts] []) = Some 320
  ∧ expectedPointsHome (heuristic [Some hurts] []) = Some 19.
Proof.
  destruct (summarize_one hurts) as (_ & Hp & Hy).
  unfold heuristic, expectedYardsHome, expectedPointsHome.
  rewrite Hp, Hy, hurts_points, hurts_yards.
  split; f_equal.
  - apply (Math_round_eq 320). lra.
  - rewrite (Math_round_eq 190); lra.
Qed.

(** *** C3 *)

(** C3.  In the local heuristic a side's points are the sum, over the
    records obtained for its assigned players, of 6 x touchdowns plus
    0.02 x (passing + rushing + receiving yards), an absent category
    counting as 0; its yards are the plain sum of the three yardage
    categories; and the reported yard totals are those sums rounded to
    the nearest integer. *)
Theorem C3_points_and_yards (homePreds awayPreds : list (option Prediction)) :
  let home := Stated.available homePreds in
  let away := Stated.available awayPreds in
  let h := summarize homePreds in
  let a := summarize awayPreds in
  let result := heuristic homePreds awayPreds in
  points h = Stated.Rsum (Stated.playerPoints <$> home)
  ∧ points a = Stated.Rsum (Stated.playerPoints <$> away)
  ∧ yards h = Stated.Rsum (Stated.playerYards <$> home)
  ∧ yards a = Stated.Rsum (Stated.playerYards <$> away)
  ∧ (∃ n : Z, expectedYardsHome result = Some (IZR n)
              ∧ Rabs (IZR n - yards h) <= / 2)
  ∧ (∃ n : Z, expectedYardsAway result = Some (IZR n)
              ∧ Rabs (IZR n - yards a) <= / 2).
Proof.
  intros home away h a result.
  destruct (summarize_spec homePreds) as (_ & Hhp & Hhy).
  destruct (summarize_spec awayPreds) as (_ & Hap & Hay).
  split_and!; try done.
  - exists (Zfloor (yards h + / 2)). split; [done|].
    pose proof (Math_round_nearest (yards h)) as Hn. unfold Math_round in Hn.
    apply Rabs_le. lra.
  - exists (Zfloor (yards a + / 2)). split; [done|].
    pose proof (Math_round_nearest (yards a)) as Hn. unfold Math_round in Hn.
    apply Rabs_le. lra.
Qed.

(** *** C2 *)

Lemma Math_max_1 (x : R) : 0 <= x → Math_max 1 (x + 1) = x + 1.
Proof. intros Hx. unfold Math_max. apply Rmax_right. lra. Qed.

(** C2, as the code has it.  A side's average confidence is the mean,
    over the records obtained for its assigned players, of each record's
    [overall_confidence] (0.7 where the record has none or has 0: the
    code's [|| 0.7]), and 0.7 when no record was obtained; a player whose
    record was not obtained is left out of the mean.  Its strength is 0.6 x that average plus 0.4 x
    own points divided by max(1, opponent points + 1), which is the stated
    quotient by (opponent points + 1) whenever the opponent's points are
    not negative.  The win probability is the logistic of
    6 x (home strength - away strength) clamped to [0.02, 0.98], reported
    as a percentage with one decimal place. *)
Theorem C2_strength_and_win_probability
    (homePreds awayPreds : list (option Prediction)) :
  let h := summarize homePreds in
  let a := summarize awayPreds in
  avgConfidence h = Stated.averageConfidence (Stated.available homePreds)
  ∧ avgConfidence a = Stated.averageConfidence (Stated.available awayPreds)
  ∧ homeStrength h a
    = 0.6 * avgConfidence h + 0.4 * (points h / Rmax 1 (points a + 1))
  ∧ awayStrength h a
    = 0.6 * avgConfidence a + 0.4 * (points a / Rmax 1 (points h + 1))
  ∧ (0 <= points a →
     homeStrength h a = Stated.strength (avgConfidence h) (points h) (points a))
  ∧ (0 <= points h →
     awayStrength h a = Stated.strength (avgConfidence a) (points a) (points h))
  ∧ ∃ w : R,
      winProbability (heuristic homePreds awayPreds) = Some w
      ∧ Stated.percent_1dp
          (Stated.winProbability (homeStrength h a) (awayStrength h a)) w.
Proof.
  intros h a.
  destruct (summarize_spec homePreds) as (Hhc & _ & _).
  destruct (summarize_spec awayPreds) as (Hac & _ & _).
  split_and!; try done.
  - unfold homeStrength, Math_max. lra.
  - unfold awayStrength, Math_max. lra.
  - intros Ha. unfold homeStrength, Stated.strength.
    rewrite Math_max_1 by done. lra.
  - intros Hh. unfold awayStrength, Stated.strength.
    rewrite Math_max_1 by done. lra.
  - eexists. split; [reflexivity|].
    destruct (reported_range h a) as [_ Hp].
    unfold Stated.winProbability. rewrite <- sigmoid_logistic, <- Math_max_clamp.
    exact Hp.
Qed.

(** The theorem at a sample pair of rosters: the quarterback against the
    empty away side. *)
Lemma C2_witness :
  0 <= points (summarize [])
  ∧ 0 <= points (summarize [Some hurts])
  ∧ homeStrength (summarize [Some hurts]) (summarize [])
    = Stated.strength 0.817 19 0
  ∧ awayStrength (summarize [Some hurts]) (summarize [])
    = Stated.strength 0.7 0 19.
Proof.
  destruct (C2_strength_and_win_probability [Some hurts] [])
    as (_ & _ & _ & _ & Hhome & Haway & _).
  destruct (summarize_one hurts) as (Hc & Hp & _).
  assert (0 <= points (summarize [])) as H0 by (simpl; lra).
  assert (0 <= points (summarize [Some hurts])) as H1
    by (rewrite Hp, hurts_points; lra).
  split_and!; [done | done | |].
  - rewrite (Hhome H0), Hc, Hp, hurts_points, hurts_confidence. reflexivity.
  - rewrite (Haway H1), Hp, hurts_points. reflexivity.
Defined.

(** A confidence of 0 counts as 0.7, and a player whose record was not
    obtained is left out of the average. *)
Example zero_confidence_counts_as_0_7 :
  avgConfidence (summarize [Some unrated]) = 0.7
  ∧ avgConfidence (summarize [Some hurts; None]) = 0.817.
Proof.
  split.
  - destruct (summarize_one unrated) as (-> & _ & _).
    unfold Stated.playerConfidence. simpl. destruct (Req_dec_T 0 0); lra.
  - destruct (summarize_spec [Some hurts; None]) as (-> & _ & _).
    unfold Stated.averageConfidence. simpl. rewrite hurts_confidence. lra.
Qed.

(** C2 as stated fails when the opponent's points are negative.  The
    receiver (confidence 0.07, 0.25 points) faces a back forecast to lose 70
    yards (confidence 0.98, -1.4 points).  The code divides the receiver's
    points by max(1, -0.4) = 1: the home strength is 0.142, the away
    strength 0.14, and the reported win probability is at least 50.0.  The
    stated formula divides by -0.4: the home strength is -0.208 and the
    probability at most 0.25. *)
Lemma C2_counterexample :
  let h := summarize [Some receiver] in
  let a := summarize [Some buried_back] in
  points a = - 1.4
  ∧ homeStrength h a = 0.142
  ∧ Stated.strength (avgConfidence h) (points h) (points a) = - 0.208
  ∧ homeStrength h a ≠ Stated.strength (avgConfidence h) (points h) (points a)
  ∧ (∃ w, winProbability (heuristic [Some receiver] [Some buried_back]) = Some w
          ∧ 50 <= w)
  ∧ Stated.winProbability
      (Stated.strength (avgConfidence h) (points h) (points a))
      (Stated.strength (avgConfidence a) (points a) (points h)) <= 0.25.
Proof.
  intros h a.
  destruct (summarize_one receiver) as (Hc & Hp & _).
  destruct (summarize_one buried_back) as (Hc' & Hp' & _).
  fold h in Hc, Hp. fold a in Hc', Hp'.
  rewrite receiver_confidence in Hc. rewrite receiver_points in Hp.
  rewrite buried_back_confidence in Hc'. rewrite buried_back_points in Hp'.
  assert (homeStrength h a = 0.142) as Hhome.
  { unfold homeStrength, Math_max. rewrite Hc, Hp, Hp'.
    rewrite Rmax_left by lra. lra. }
  assert (awayStrength h a = 0.14) as Haway.
  { unfold awayStrength, Math_max. rewrite Hc', Hp, Hp'.
    rewrite Rmax_right by lra. lra. }
  assert (Stated.strength (avgConfidence h) (points h) (points a) = - 0.208) as Hhome'.
  { unfold Stated.strength. rewrite Hc, Hp, Hp'. lra. }
  assert (Stated.strength (avgConfidence a) (points a) (points h) = 0.14) as Haway'.
  { unfold Stated.strength. rewrite Hc', Hp, Hp'. lra. }
  split_and!; try done.
  - rewrite Hhome, Hhome'. lra.
  - eexists. split; [reflexivity|]. fold h a.
    assert (0.5 <= rawWinProbability h a) as Hraw.
    { unfold rawWinProbability. rewrite Hhome, Haway, Math_max_clamp.
      pose proof (sigmoid_mono 0 (0.142 - 0.14) ltac:(lra)) as Hs.
      rewrite sigmoid_0 in Hs.
      pose proof (clamp_mono _ _ Hs) as Hcl.
      unfold Stated.clamp at 1 in Hcl.
      destruct (Rlt_dec 0.5 0.02); [lra|]. destruct (Rlt_dec 0.98 0.5); [lra|]. done. }
    pose proof (Math_round_mono 500 (rawWinProbability h a * 1000) ltac:(lra)) as Hw.
    rewrite (Math_round_int 500) in Hw. lra.
  - rewrite Hhome', Haway'. unfold Stated.winProbability.
    assert (Stated.logistic (6 * (- 0.208 - 0.14)) <= 0.25) as Hl.
    { unfold Stated.logistic.
      pose proof (exp_ineq1_le (- (6 * (- 0.208 - 0.14)))) as He.
      unfold Rdiv. rewrite Rmult_1_l.
      apply Rle_trans with (/ 4); [|lra].
      apply Rinv_le_contravar; lra. }
    pose proof (clamp_mono _ _ Hl) as Hcl.
    unfold Stated.clamp at 2 in Hcl.
    destruct (Rlt_dec 0.25 0.02); [lra|]. destruct (Rlt_dec 0.98 0.25); [lra|]. done.
Qed.

(** *** C10 *)

Lemma assignedIds_empty (obj : Roster) :
  Forall (λ kv, kv.2 = None) obj → assignedIds obj = [].
Proof.
  unfold assignedIds. induction 1 as [|[k v] obj Hv _ IH]; [done|].
  simpl in Hv. subst v. simpl. exact IH.
Qed.

Lemma heuristic_empty :
  heuristic [] [] = Stated.neutralResult.
Proof.
  unfold heuristic, Stated.neutralResult. rewrite summarize_none.
  assert (rawWinProbability {| avgConfidence := 0.7; points := 0; yards := 0 |}
            {| avgConfidence := 0.7; points := 0; yards := 0 |} = 0.5) as ->.
  { unfold rawWinProbability, homeStrength, awayStrength. simpl.
    rewrite Rminus_diag, sigmoid_0.
    unfold Math_max, Math_min. rewrite Rmin_right, Rmax_right; lra. }
  simpl.
  rewrite (Math_round_eq 500), (Math_round_eq 0), (Math_round_eq 0), (Math_round_eq 700)
    by lra.
  repeat f_equal; lra.
Qed.

(** C10.  When every position of both rosters is empty, the local
    heuristic returns a win probability of exactly 50.0, expected points
    and yards 0 for both sides and both average confidences 70.0,
    whatever the collaborators would answer. *)
Theorem C10_empty_rosters (api : Api) (random : R) (homeObj awayObj : Roster) :
  Forall (λ kv, kv.2 = None) homeObj →
  Forall (λ kv, kv.2 = None) awayObj →
  localEvaluateLineup api random homeObj awayObj =
    Normal Stated.neutralResult.
Proof.
  intros Hh Ha. unfold localEvaluateLineup.
  rewrite (assignedIds_empty _ Hh), (assignedIds_empty _ Ha).
  simpl. by rewrite heuristic_empty.
Qed.

Lemma emptyLineup_unassigned : Forall (λ kv, kv.2 = None) emptyLineup.
Proof. unfold emptyLineup, PLAY_POSITIONS. simpl. repeat constructor. Qed.

Lemma C10_witness :
  localEvaluateLineup api_down 0.3 emptyLineup emptyLineup =
    Normal Stated.neutralResult.
Proof. apply C10_empty_rosters; apply emptyLineup_unassigned. Defined.

(** *** C4 *)

Lemma averageConfidence_sum (side : list Prediction) :
  side ≠ [] →
  Stated.averageConfidence side * INR (length side)
  = Stated.Rsum (Stated.playerConfidence <$> side)
  ∧ 1 <= INR (length side).
Proof.
  intros Hne. destruct side as [|p side]; [done|].
  assert (1 <= INR (length (p :: side))) as Hlen.
  { change 1 with (INR 1). apply le_INR. simpl. lia. }
  split; [|done]. unfold Stated.averageConfidence. field. lra.
Qed.

(** Inserting a record whose confidence exceeds the side's average does
    not lower the average. *)
Lemma averageConfidence_insert (s1 s2 : list Prediction) (p : Prediction) :
  Stated.averageConfidence (s1 ++ s2) < Stated.playerConfidence p →
  Stated.averageConfidence (s1 ++ s2) <= Stated.averageConfidence (s1 ++ p :: s2).
Proof.
  intros Hlt.
  destruct (averageConfidence_sum (s1 ++ p :: s2)) as [Hsum' Hlen'].
  { by destruct s1. }
  rewrite fmap_app, fmap_cons, Rsum_app in Hsum'. simpl in Hsum'.
  rewrite length_app in Hsum', Hlen'. simpl in Hsum', Hlen'.
  rewrite Nat.add_succ_r, S_INR in Hsum', Hlen'. rewrite <- length_app in Hsum', Hlen'.
  destruct (decide (s1 ++ s2 = [])) as [Hnil | Hne].
  - apply app_eq_nil in Hnil as [-> ->].
    unfold Stated.averageConfidence in *. simpl in *. lra.
  - destruct (averageConfidence_sum (s1 ++ s2) Hne) as [Hsum Hlen].
    rewrite fmap_app, Rsum_app in Hsum.
    set (n := INR (length (s1 ++ s2))) in *.
    set (avg := Stated.averageConfidence (s1 ++ s2)) in *.
    set (avg' := Stated.averageConfidence (s1 ++ p :: s2)) in *.
    assert (avg' * (n + 1) = avg * n + Stated.playerConfidence p) as Heq by lra.
    nra.
Qed.

(** A record's confidence is at least its [overall_confidence]: a zero is
    replaced by 0.7. *)
Lemma stated_confidence_gt (p : Prediction) (c x : R) :
  overall_confidence p = Some c → x < c → x < Stated.playerConfidence p.
Proof.
  intros Hc Hx. unfold Stated.playerConfidence. rewrite Hc.
  destruct (Req_dec_T c 0); lra.
Qed.

(** The clamped probability grows with the home side's average confidence
    and points, as long as the away side's points are not negative. *)
Lemma rawWinProbability_mono (h h' a : Summary) :
  avgConfidence h <= avgConfidence h' →
  points h <= points h' →
  0 <= points a →
  rawWinProbability h a <= rawWinProbability h' a.
Proof.
  intros Hc Hp Ha. unfold rawWinProbability.
  rewrite !Math_max_clamp. apply clamp_mono, sigmoid_mono.
  unfold homeStrength, awayStrength, Math_max.
  assert (Rmax 1 (points a + 1) = points a + 1) as -> by (apply Rmax_right; lra).
  assert (1 <= Rmax 1 (points h + 1)) as Hd by apply Rmax_l.
  assert (Rmax 1 (points h + 1) <= Rmax 1 (points h' + 1)) as Hd'.
  { apply Rle_max_compat_l. lra. }
  assert (points h / (points a + 1) <= points h' / (points a + 1)) as Hown.
  { apply Rmult_le_compat_r; [|done]. left. apply Rinv_0_lt_compat. lra. }
  assert (points a / Rmax 1 (points h' + 1) <= points a / Rmax 1 (points h + 1)) as Hopp.
  { apply Rmult_le_compat_l; [done|]. apply Rinv_le_contravar; lra. }
  lra.
Qed.

(** C4, as the code has it.  With the away roster held fixed and its
    points not negative, adding to the home roster one player whose
    [overall_confidence] is strictly higher than the home side's current
    average confidence and who does not lower the home side's points never
    decreases the reported home win probability. *)
Theorem C4_adding_a_stronger_player
    (before after awayPreds : list (option Prediction)) (p : Prediction) (c : R) :
  overall_confidence p = Some c →
  avgConfidence (summarize (before ++ after)) < c →
  points (summarize (before ++ after))
    <= points (summarize (before ++ Some p :: after)) →
  0 <= points (summarize awayPreds) →
  ∃ w w' : R,
    winProbability (heuristic (before ++ after) awayPreds) = Some w
    ∧ winProbability (heuristic (before ++ Some p :: after) awayPreds) = Some w'
    ∧ w <= w'.
Proof.
  intros Hc Havg Hpts Haway.
  do 2 eexists. split_and!; [reflexivity | reflexivity |].
  apply Rmult_le_compat_r; [lra|].
  apply Math_round_mono, Rmult_le_compat_r; [lra|].
  apply rawWinProbability_mono; [|done|done].
  destruct (summarize_spec (before ++ after)) as (Hs & _ & _).
  destruct (summarize_spec (before ++ Some p :: after)) as (Hs' & _ & _).
  rewrite Hs, Hs', available_app, available_insert.
  apply averageConfidence_insert.
  rewrite <- available_app, <- Hs.
  by eapply stated_confidence_gt.
Qed.

(** The theorem at a sample: the quarterback joins the rookie, against an
    empty away side. *)
Lemma C4_witness :
  ∃ w w' : R,
    winProbability (heuristic [Some rookie] []) = Some w
    ∧ winProbability (heuristic [Some rookie; Some hurts] []) = Some w'
    ∧ w <= w'.
Proof.
  apply (C4_adding_a_stronger_player [Some rookie] [] [] hurts 0.817).
  - reflexivity.
  - destruct (summarize_one rookie) as (Hc & _ & _).
    simpl app. rewrite Hc, rookie_confidence. lra.
  - destruct (summarize_one rookie) as (_ & Hp & _).
    destruct (summarize_two rookie hurts) as (_ & Hp').
    simpl app. rewrite Hp, Hp', rookie_points, hurts_points. lra.
  - simpl. lra.
Defined.

(** C4 as stated fails when the away side's points are negative.  The
    rookie (confidence 0.05, no points) faces a back forecast to lose 70
    yards (confidence 0.98, -1.4 points): the home win probability is at
    least 50.0.  Adding the receiver (confidence 0.07, 0.25 points) shrinks
    the away side's penalty from 1.4 / 1 to 1.4 / 1.25 and the home win
    probability drops below 50.0. *)
Lemma C4_counterexample :
  ∃ w w' : R,
    overall_confidence receiver = Some 0.07
    ∧ avgConfidence (summarize [Some rookie]) < 0.07
    ∧ points (summarize [Some rookie]) <= points (summarize [Some rookie; Some receiver])
    ∧ winProbability (heuristic [Some rookie] [Some buried_back]) = Some w
    ∧ winProbability (heuristic [Some rookie; Some receiver] [Some buried_back]) = Some w'
    ∧ w' < w.
Proof.
  destruct (summarize_one rookie) as (Hc & Hp & _).
  destruct (summarize_two rookie receiver) as (Hc' & Hp').
  destruct (summarize_one buried_back) as (Hca & Hpa & _).
  rewrite rookie_confidence in Hc. rewrite rookie_points in Hp.
  rewrite rookie_confidence, receiver_confidence in Hc'.
  rewrite rookie_points, receiver_points in Hp'.
  rewrite buried_back_confidence in Hca. rewrite buried_back_points in Hpa.
  do 2 eexists. split_and!; [reflexivity | lra | lra | reflexivity | reflexivity |].
  set (h := summarize [Some rookie]) in *.
  set (h' := summarize [Some rookie; Some receiver]) in *.
  set (a := summarize [Some buried_back]) in *.
  (* before: the difference of strengths is 0.002 *)
  assert (homeStrength h a - awayStrength h a = 0.002) as Hd.
  { unfold homeStrength, awayStrength, Math_max. rewrite Hc, Hp, Hca, Hpa.
    rewrite !Rmax_left by lra. lra. }
  assert (0.5 <= rawWinProbability h a) as Hraw.
  { unfold rawWinProbability. rewrite Hd, Math_max_clamp.
    pose proof (sigmoid_mono 0 0.002 ltac:(lra)) as Hs. rewrite sigmoid_0 in Hs.
    pose proof (clamp_mono _ _ Hs) as Hcl.
    unfold Stated.clamp at 1 in Hcl.
    destruct (Rlt_dec 0.5 0.02); [lra|]. destruct (Rlt_dec 0.98 0.5); [lra|]. done. }
  assert (500 <= Math_round (rawWinProbability h a * 1000)) as Hw.
  { rewrite <- (Math_round_int 500). apply Math_round_mono. lra. }
  (* after: the difference of strengths is -0.004 *)
  assert (homeStrength h' a - awayStrength h' a = - 0.004) as Hd'.
  { unfold homeStrength, awayStrength, Math_max. rewrite Hc', Hp', Hca, Hpa.
    rewrite Rmax_left by lra. rewrite Rmax_right by lra. lra. }
  assert (rawWinProbability h' a <= 0.495) as Hraw'.
  { unfold rawWinProbability. rewrite Hd', Math_max_clamp.
    assert (sigmoid (- 0.004) <= 0.495) as Hs.
    { unfold sigmoid.
      pose proof (exp_ineq1_le (- 6 * - 0.004)) as He.
      unfold Rdiv. rewrite Rmult_1_l.
      apply Rle_trans with (/ 2.024); [|lra].
      apply Rinv_le_contravar; lra. }
    pose proof (clamp_mono _ _ Hs) as Hcl.
    unfold Stated.clamp at 2 in Hcl.
    destruct (Rlt_dec 0.495 0.02); [lra|]. destruct (Rlt_dec 0.98 0.495); [lra|]. done. }
  assert (Math_round (rawWinProbability h' a * 1000) <= 500 - 1) as Hw'.
  { apply (Math_round_lt 500). lra. }
  cbn [winProbability heuristic]. lra.
Qed.

(** *** C5 *)

Lemma fallback_range (random : R) :
  0 <= random < 1 →
  ∃ w : R, winProbability (fallbackResult random) = Some w ∧ 42.5 <= w <= 57.5.
Proof.
  intros Hr. eexists. split; [reflexivity|].
  pose proof (Math_round_between 425 575 ((0.5 + (random - 0.5) * 0.15) * 1000)) as Hb.
  lra.
Qed.

Lemma Promise_all_caught (ps : list (Settled (option Prediction))) :
  Promise_all (catch_null <$> ps) = Fulfilled (caught_value <$> ps).
Proof.
  induction ps as [|[v|r] ps IH]; [done| |]; rewrite !fmap_cons; simpl;
    by rewrite IH.
Qed.

Lemma array_map_caught (api : Api) (ids : list string) :
  (∃ e, array_map (λ i, p ← apiGetPlayerPredictions api i; Normal (catch_null p)) ids
        = Throw e)
  ∨ (∃ ps, array_map (λ i, p ← apiGetPlayerPredictions api i; Normal (catch_null p)) ids
           = Normal (catch_null <$> ps)
           ∧ Forall2 (λ i p, apiGetPlayerPredictions api i = Normal p) ids ps).
Proof.
  induction ids as [|i ids IH]; simpl.
  - right. exists []. by split.
  - destruct (apiGetPlayerPredictions api i) as [p|e] eqn:Hcall; simpl.
    + destruct IH as [[e ->] | (ps & -> & Hps)]; simpl.
      * left. by exists e.
      * right. exists (p :: ps). split; [done|]. by constructor.
    + left. by exists e.
Qed.

(** [fetchAll] either throws, or yields one entry per identifier, [null]
    for a rejected promise. *)
Lemma fetchAll_cases (api : Api) (ids : list string) :
  (∃ e, fetchAll api ids = Throw e)
  ∨ (∃ ps, fetchAll api ids = Normal (caught_value <$> ps)
           ∧ Forall2 (λ i p, apiGetPlayerPredictions api i = Normal p) ids ps).
Proof.
  unfold fetchAll.
  destruct (array_map_caught api ids) as [[e ->] | (ps & -> & Hps)]; simpl.
  - left. by exists e.
  - right. exists ps. by rewrite Promise_all_caught.
Qed.

(** It throws as soon as one call throws. *)
Lemma fetchAll_throws (api : Api) (ids : list string) (i e : string) :
  i ∈ ids → apiGetPlayerPredictions api i = Throw e →
  ∃ e', fetchAll api ids = Throw e'.
Proof.
  intros Hi Hcall.
  destruct (fetchAll_cases api ids) as [? | (ps & _ & Hps)]; [done|].
  exfalso. induction Hps as [|j p ids ps Hj _ IH]; [by apply elem_of_nil in Hi|].
  apply elem_of_cons in Hi as [-> | Hi]; [congruence | by apply IH].
Qed.

(** When every promise rejects it yields no record at all. *)
Lemma fetchAll_rejected (api : Api) (ids : list string) :
  Forall (λ i, ∃ r, apiGetPlayerPredictions api i = Normal (Rejected r)) ids →
  ∃ preds, fetchAll api ids = Normal preds ∧ Stated.available preds = [].
Proof.
  intros Hrej.
  destruct (fetchAll_cases api ids) as [[e He] | (ps & -> & Hps)].
  - exfalso. unfold fetchAll in He.
    assert (∃ promises,
              array_map (λ i, p ← apiGetPlayerPredictions api i; Normal (catch_null p)) ids
              = Normal (catch_null <$> promises)) as [promises Hmap].
    { clear He. induction Hrej as [|i ids [r Hr] _ [promises IH]]; [by exists []|].
      exists (Rejected r :: promises). simpl. rewrite Hr. simpl. by rewrite IH. }
    rewrite Hmap in He. simpl in He. by rewrite Promise_all_caught in He.
  - eexists. split; [done|].
    induction Hps as [|i p ids ps Hi _ IH]; [done|].
    apply Forall_cons in Hrej as [[r Hr] Hrej].
    rewrite Hr in Hi. injection Hi as <-.
    rewrite fmap_cons. by apply IH.
Qed.

Lemma summarize_unavailable (preds : list (option Prediction)) :
  Stated.available preds = [] → summarize preds = summarize [].
Proof.
  intros Hnone. unfold summarize.
  assert (∀ acc, foldl summarize_step acc preds = acc) as ->; [|done].
  induction preds as [|[p|] preds IH]; intros acc; [done | done |].
  simpl. apply IH. exact Hnone.
Qed.

(** [localEvaluateLineup] always returns: the heuristic result when both
    fetch rounds complete, the jittered fallback when one of them throws. *)
Lemma localEvaluateLineup_cases (api : Api) (random : R) (homeObj awayObj : Roster) :
  (∃ homePreds awayPreds,
     fetchAll api (assignedIds homeObj) = Normal homePreds
     ∧ fetchAll api (assignedIds awayObj) = Normal awayPreds
     ∧ localEvaluateLineup api random homeObj awayObj
       = Normal (heuristic homePreds awayPreds))
  ∨ ((∃ e, fetchAll api (assignedIds homeObj) = Throw e
           ∨ fetchAll api (assignedIds awayObj) = Throw e)
     ∧ localEvaluateLineup api random homeObj awayObj
       = Normal (fallbackResult random)).
Proof.
  unfold localEvaluateLineup.
  destruct (fetchAll api (assignedIds homeObj)) as [hp|e] eqn:Hh; simpl.
  - destruct (fetchAll api (assignedIds awayObj)) as [ap|e] eqn:Ha; simpl.
    + left. by exists hp, ap.
    + right. split; [|done]. exists e. by right.
  - right. split; [|done]. exists e. by left.
Qed.

Lemma localEvaluateLineup_range (api : Api) (random : R) (homeObj awayObj : Roster) :
  0 <= random < 1 →
  ∃ res w, localEvaluateLineup api random homeObj awayObj = Normal res
           ∧ winProbability res = Some w ∧ 2 <= w <= 98.
Proof.
  intros Hr.
  destruct (localEvaluateLineup_cases api random homeObj awayObj)
    as [(hp & ap & _ & _ & ->) | (_ & ->)].
  - do 2 eexists. split; [reflexivity|]. split; [reflexivity|].
    apply (reported_range (summarize hp) (summarize ap)).
  - destruct (fallback_range random Hr) as (w & Hw & Hrange).
    exists (fallbackResult random), w. split; [done|]. split; [done|]. lra.
Qed.

Lemma tryServer_failed (api : Api) (payload : Payload) :
  failed (apiEvaluateLineup api payload) → tryServer api payload = Normal None.
Proof.
  unfold tryServer, failed.
  by destruct (apiEvaluateLineup api payload) as [[v|r]|e].
Qed.

(** [evaluateLineup] always completes, leaves [evaluatingLineup] false and
    stores either the server's answer or what [localEvaluateLineup]
    returned on its first call. *)
Lemma evaluateLineup_cases (api : Api) (random1 random2 : R) (st : Playground) :
  ∃ st' res,
    evaluateLineup api random1 random2 st = Normal st'
    ∧ evaluatingLineup st' = false
    ∧ evaluationResult st' = Some res
    ∧ ((tryServer api (payloadOf st) = Normal (Some res)
        ∧ is_Some (winProbability res))
       ∨ ((tryServer api (payloadOf st) = Normal None
           ∨ ∃ r, tryServer api (payloadOf st) = Normal (Some r)
                  ∧ winProbability r = None)
          ∧ localEvaluateLineup api random1 (homeLineup st) (awayLineup st)
            = Normal res)).
Proof.
  unfold evaluateLineup. simpl.
  change (payloadOf _) with (payloadOf st).
  assert (∃ v, tryServer api (payloadOf st) = Normal v) as [v Hv].
  { unfold tryServer.
    destruct (apiEvaluateLineup api (payloadOf st)) as [[x|r]|e]; simpl; eauto. }
  rewrite Hv. simpl.
  destruct (localEvaluateLineup_cases api random1 (homeLineup st) (awayLineup st))
    as [(hp & ap & _ & _ & Hl) | (_ & Hl)];
    destruct v as [r|]; try destruct (winProbability r) as [w|] eqn:Hw;
    rewrite ?Hl; simpl;
    do 2 eexists; (split_and!; [reflexivity | reflexivity | reflexivity |]);
    first [ left; split; [reflexivity | by rewrite Hw]
          | right; split; [|reflexivity]; eauto ].
Qed.

Lemma fetchAll_throwing (api : Api) (ids : list string) :
  existsb (λ i, throws (apiGetPlayerPredictions api i)) ids = true →
  ∃ e, fetchAll api ids = Throw e.
Proof.
  intros (i & Hi & Hthrow)%existsb_exists. apply list_elem_of_In in Hi.
  destruct (apiGetPlayerPredictions api i) as [|e] eqn:Hcall; [done|].
  by eapply fetchAll_throws.
Qed.

Lemma fetchAll_assigned_failed (api : Api) (ids : list string) :
  (∀ i, i ∈ ids → failed (apiGetPlayerPredictions api i)) →
  existsb (λ i, throws (apiGetPlayerPredictions api i)) ids = false →
  ∃ preds, fetchAll api ids = Normal preds ∧ Stated.available preds = [].
Proof.
  intros Hfail Hno. apply fetchAll_rejected, Forall_forall. intros i Hi.
  assert (throws (apiGetPlayerPredictions api i) = false) as Hi'.
  { destruct (throws (apiGetPlayerPredictions api i)) eqn:Ht; [|done].
    assert (existsb (λ i, throws (apiGetPlayerPredictions api i)) ids = true)
      as Hex; [|congruence].
    apply existsb_exists. exists i. split; [by apply list_elem_of_In | done]. }
  specialize (Hfail i Hi).
  destruct (apiGetPlayerPredictions api i) as [[v|r]|e]; [done | by exists r | done].
Qed.

(** The jittered fallback is the one-decimal percentage of 50 percent plus
    15 percentage points times (draw - 1/2): an affine function of the
    draw. *)
Lemma fallback_affine (random : R) :
  ∃ w, winProbability (fallbackResult random) = Some w
       ∧ Stated.percent_1dp (0.5 + 0.15 * (random - 0.5)) w.
Proof.
  eexists. split; [reflexivity|].
  exists (Zfloor ((0.5 + (random - 0.5) * 0.15) * 1000 + / 2)). split; [done|].
  pose proof (Math_round_nearest ((0.5 + (random - 0.5) * 0.15) * 1000)) as Hn.
  unfold Math_round in *. apply Rabs_le. lra.
Qed.

(** C5, as the code has it.  Lineup evaluation never propagates an error:
    [evaluateLineup] always completes and stores a result.  When the
    server evaluation fails, the stored result carries a numeric
    [winProbability] in [2, 98].  When moreover every per-player fetch the
    heuristic makes (one per assigned player of either side) fails, that
    value is within 7.5 percentage points of 50: it is the neutral result,
    exactly 50.0 and without jitter, when the fetches fail by rejecting
    (the heuristic then completes on no data), and the jittered fallback
    only when the heuristic itself throws because a forecast call throws
    instead of returning a promise.  The fallback is the one-decimal
    percentage of 50 percent plus 15 points times ([Math.random()] - 1/2),
    an affine function of the draw: it is spread over [42.5, 57.5] as
    evenly as the draw is over [0, 1). *)
Theorem C5_evaluation_never_fails
    (api : Api) (random1 random2 : R) (st : Playground) :
  let fetched := assignedIds (homeLineup st) ++ assignedIds (awayLineup st) in
  let thrown := existsb (λ i, throws (apiGetPlayerPredictions api i)) fetched in
  ∃ st' res,
    evaluateLineup api random1 random2 st = Normal st'
    ∧ evaluatingLineup st' = false
    ∧ evaluationResult st' = Some res
    ∧ (0 <= random1 < 1 →
       failed (apiEvaluateLineup api (payloadOf st)) →
       (∃ w, winProbability res = Some w ∧ 2 <= w <= 98)
       ∧ ((∀ i, i ∈ fetched → failed (apiGetPlayerPredictions api i)) →
          res = (if thrown then fallbackResult random1 else Stated.neutralResult)
          ∧ ∃ w, winProbability res = Some w
                 ∧ 42.5 <= w <= 57.5
                 ∧ Stated.percent_1dp
                     (if thrown then 0.5 + 0.15 * (random1 - 0.5) else 0.5) w)).
Proof.
  cbv zeta.
  destruct (evaluateLineup_cases api random1 random2 st)
    as (st' & res & Hrun & Hflag & Hres & Hfrom).
  exists st', res. split_and!; [done | done | done |].
  intros Hr Hfail. apply tryServer_failed in Hfail.
  destruct Hfrom as [[Hsrv _] | [_ Hlocal]]; [congruence|].
  split.
  - destruct (localEvaluateLineup_range api random1 (homeLineup st) (awayLineup st) Hr)
      as (res' & w & Hl & Hw & Hrange).
    rewrite Hl in Hlocal. injection Hlocal as <-. by exists w.
  - intros Hall. rewrite existsb_app.
    assert (∀ random, 0 <= random < 1 →
              ∃ w, winProbability (fallbackResult random) = Some w
                   ∧ 42.5 <= w <= 57.5
                   ∧ Stated.percent_1dp (0.5 + 0.15 * (random - 0.5)) w) as Hjitter.
    { intros random Hrandom.
      destruct (fallback_range random Hrandom) as (w & Hw & Hrange).
      destruct (fallback_affine random) as (w' & Hw' & Haffine).
      exists w. split; [done|]. split; [done|]. congruence. }
    unfold localEvaluateLineup in Hlocal.
    destruct (existsb _ (assignedIds (homeLineup st))) eqn:Hhome; simpl.
    { destruct (fetchAll_throwing api _ Hhome) as [e He].
      rewrite He in Hlocal. simpl in Hlocal. injection Hlocal as <-.
      split; [done|]. by apply Hjitter. }
    destruct (fetchAll_assigned_failed api (assignedIds (homeLineup st))) as (hp & Hh & Hhp);
      [intros i Hi; apply Hall, elem_of_app; by left | done |].
    rewrite Hh in Hlocal. simpl in Hlocal.
    destruct (existsb _ (assignedIds (awayLineup st))) eqn:Haway.
    { destruct (fetchAll_throwing api _ Haway) as [e He].
      rewrite He in Hlocal. simpl in Hlocal. injection Hlocal as <-.
      split; [done|]. by apply Hjitter. }
    destruct (fetchAll_assigned_failed api (assignedIds (awayLineup st))) as (ap & Ha & Hap);
      [intros i Hi; apply Hall, elem_of_app; by right | done |].
    rewrite Ha in Hlocal. simpl in Hlocal. injection Hlocal as <-.
    unfold heuristic.
    rewrite (summarize_unavailable hp Hhp), (summarize_unavailable ap Hap).
    fold (heuristic [] []). rewrite heuristic_empty.
    split; [done|]. exists 50. split; [done|]. split; [lra|].
    exists 500%Z. split; [lra|]. apply Rabs_le. lra.
Qed.

(** The theorem with the server unreachable and a home quarterback the
    forecast endpoint rejects (while it would answer for another player):
    the stored result is the neutral one.  With a forecast call that
    throws, it is the fallback for the draw. *)
Lemma C5_witness :
  (∃ st' res,
     evaluateLineup api_qb 0.3 0.6 playground_nobody = Normal st'
     ∧ evaluationResult st' = Some res
     ∧ res = Stated.neutralResult
     ∧ ∃ w, winProbability res = Some w ∧ 42.5 <= w <= 57.5)
  ∧ (∃ st' res,
       evaluateLineup api_throwing 0.3 0.6 playground = Normal st'
       ∧ evaluationResult st' = Some res
       ∧ res = fallbackResult 0.3).
Proof.
  split.
  - destruct (C5_evaluation_never_fails api_qb 0.3 0.6 playground_nobody)
      as (st' & res & Hrun & _ & Hres & Hcond).
    exists st', res. split; [done|]. split; [done|].
    destruct Hcond as [_ Htotal]; [lra | exact I |].
    destruct Htotal as (Heq & w & Hw & Hrange & _).
    + intros i Hi. apply list_elem_of_singleton in Hi as ->. exact I.
    + split; [exact Heq|]. by exists w.
  - destruct (C5_evaluation_never_fails api_throwing 0.3 0.6 playground)
      as (st' & res & Hrun & _ & Hres & Hcond).
    exists st', res. split; [done|]. split; [done|].
    destruct Hcond as [_ Htotal]; [lra | exact I |].
    destruct Htotal as (Heq & _).
    + intros i Hi. exact I.
    + exact Heq.
Defined.

(** When the forecast call throws instead of returning a promise, the
    heuristic is abandoned and the jittered fallback is stored: 42.5 for a
    draw of 0, 50.0 for a draw of 0.5. *)
Example throwing_call_gives_fallback :
  (evaluationResult <$> evaluateLineup api_throwing 0 0.5 playground)
  = Normal (Some (fallbackResult 0))
  ∧ winProbability (fallbackResult 0) = Some 42.5
  ∧ winProbability (fallbackResult 0.5) = Some 50.
Proof.
  split; [reflexivity|].
  unfold fallbackResult, winProbability.
  split; f_equal.
  - rewrite (Math_round_eq 425); lra.
  - rewrite (Math_round_eq 500); lra.
Qed.

(** C5 as stated fails in its last clause.  With the server call and every
    per-player fetch rejecting, and a player assigned, the stored result is
    not the jittered fallback: it is the heuristic's result on no data,
    50.0 with its points, yards and confidence fields, whatever
    [Math.random()] would return (the fallback for a draw of 0 would be
    42.5). *)
Lemma C5_counterexample :
  failed (apiEvaluateLineup api_down (payloadOf playground))
  ∧ (∀ i, failed (apiGetPlayerPredictions api_down i))
  ∧ assignedIds (homeLineup playground) = ["player_001"]
  ∧ ∃ st' res,
      evaluateLineup api_down 0 0 playground = Normal st'
      ∧ evaluationResult st' = Some res
      ∧ winProbability res = Some 50
      ∧ expectedPointsHome res = Some 0
      ∧ winProbability (fallbackResult 0) = Some 42.5
      ∧ ∀ random, res ≠ fallbackResult random.
Proof.
  split; [exact I|]. split; [intros i; exact I|]. split; [reflexivity|].
  eexists. exists (heuristic [] []).
  split; [reflexivity|]. split; [reflexivity|].
  rewrite heuristic_empty.
  split; [reflexivity|]. split; [reflexivity|]. split.
  - unfold fallbackResult, winProbability. f_equal.
    rewrite (Math_round_eq 425); lra.
  - intros random Heq. discriminate Heq.
Qed.

End LineupClaims.

(** ** Reconciliation engine: the stated properties *)

Module EngineClaims.
Import Js Engine Samples.

(** *** Sample deliveries *)

Example final_tick_resets :
  onmessage sample_parse env_open "tick Q4 0:00" (initialState, [])
  = ((initialState,
      [console_log "WebSocket message:"; socket_send (game_reset initialGameState)]),
     Normal ()).
Proof. reflexivity. Qed.

Example ordinary_tick_applies :
  gameState (onmessage sample_parse env_open "tick Q3 7:42" (initialState, [])).1.1
  = Some third_quarter.
Proof. reflexivity. Qed.

Example malformed_is_dropped :
  onmessage sample_parse env_open "{type:" (initialState, [])
  = ((initialState, [console_error "Failed to parse WebSocket message:"]), Normal ()).
Proof. reflexivity. Qed.

Example null_is_caught :
  onmessage sample_parse env_open "null" (initialState, [])
  = ((initialState, [console_error "Error handling WebSocket message:"]), Normal ()).
Proof. reflexivity. Qed.

Example live_update_is_recorded :
  liveEvents (onmessage sample_parse env_open "live_update evt_17" (initialState, [])).1.1
  = [completion].
Proof. reflexivity. Qed.

(** *** Running the handler *)

Ltac unfold_handler :=
  unfold onmessage, dispatch, try_catchH, onTick, onGameInitialized, onLiveUpdate,
    onScenarioUpdate, onCedarAnswer, safeSend, setGameState, setPredictions,
    setLiveEvents, setScenario, setChatMessages, setIsAssistantThinking, modify,
    emit, throw, mret, mbind, Handler_ret, Handler_bind, bindH, ret in *.

Lemma type_cases (message : Message) :
  (∀ t, type message = Some t → t ∉ known_types) →
  type message ≠ Some "tick"
  ∧ type message ≠ Some "game_initialized"
  ∧ type message ≠ Some "live_update"
  ∧ type message ≠ Some "scenario_update"
  ∧ type message ≠ Some "cedar_answer".
Proof.
  intros Hunknown. unfold known_types in Hunknown.
  split_and!; intros Ht; apply (Hunknown _ Ht); repeat constructor.
Qed.

(** *** C9 *)

(** C9.  A payload that fails to parse is logged and dropped: the state is
    left as it was, nothing is sent, the socket is not closed and the
    handler returns normally.  A payload that parses to a message whose
    type is none of [tick], [game_initialized], [live_update],
    [scenario_update], [cedar_answer] leaves the state as it was, and so
    does a payload that parses to [null]. *)
Theorem C9_malformed_and_unknown_messages
    (JSON_parse : string → option Json) (env : Env) (data : string)
    (st : Dashboard) (effects : list Effect) :
  (JSON_parse data = None →
   onmessage JSON_parse env data (st, effects)
   = ((st, effects ++ [console_error "Failed to parse WebSocket message:"]),
      Normal ()))
  ∧ (∀ message,
       JSON_parse data = Some (JsonObject message) →
       (∀ t, type message = Some t → t ∉ known_types) →
       onmessage JSON_parse env data (st, effects)
       = ((st, effects ++ [console_log "WebSocket message:"]), Normal ()))
  ∧ (JSON_parse data = Some JsonNull →
     onmessage JSON_parse env data (st, effects)
     = ((st, effects ++ [console_error "Error handling WebSocket message:"]),
        Normal ())).
Proof.
  split_and!.
  - intros Hparse. unfold onmessage. by rewrite Hparse.
  - intros message Hparse Hunknown.
    destruct (type_cases message Hunknown) as (H1 & H2 & H3 & H4 & H5).
    unfold onmessage. rewrite Hparse. unfold_handler. simpl.
    by rewrite !decide_False.
  - intros Hparse. unfold onmessage. by rewrite Hparse.
Qed.

Lemma C9_witness :
  onmessage sample_parse env_open "{type:" (initialState, [])
  = ((initialState, [console_error "Failed to parse WebSocket message:"]), Normal ())
  ∧ onmessage sample_parse env_open "heartbeat" (initialState, [])
    = ((initialState, [console_log "WebSocket message:"]), Normal ())
  ∧ onmessage sample_parse env_open "null" (initialState, [])
    = ((initialState, [console_error "Error handling WebSocket message:"]), Normal ()).
Proof.
  destruct (C9_malformed_and_unknown_messages sample_parse env_open "{type:"
              initialState []) as (Hmalformed & _ & _).
  destruct (C9_malformed_and_unknown_messages sample_parse env_open "heartbeat"
              initialState []) as (_ & Hunknown & _).
  destruct (C9_malformed_and_unknown_messages sample_parse env_open "null"
              initialState []) as (_ & _ & Hnull).
  split_and!.
  - apply Hmalformed. reflexivity.
  - apply (Hunknown (with_type "heartbeat" blank)); [reflexivity|].
    intros t [= <-]. unfold known_types.
    intros Hin. repeat (apply elem_of_cons in Hin as [Hin|Hin]; [discriminate|]).
    by apply elem_of_nil in Hin.
  - apply Hnull. reflexivity.
Defined.

(** The handler returns normally on every payload and never closes the
    socket. *)
Lemma onmessage_never_throws
    (JSON_parse : string → option Json) (env : Env) (data : string)
    (w : Dashboard * list Effect) :
  (onmessage JSON_parse env data w).2 = Normal ()
  ∧ (socket_close ∈ (onmessage JSON_parse env data w).1.2 → socket_close ∈ w.2).
Proof.
  destruct w as [st effects]. destruct env as [[socket|] scope now jitter].
  all: unfold_handler; destruct (JSON_parse data) as [[|message]|]; simpl.
  all: try (split; [done|]; rewrite elem_of_app, elem_of_cons, elem_of_nil;
            by intros [?|[?|?]]).
  all: destruct message as [ty gs ip ev up ex sc ups pn pid ans]; simpl.
  all: repeat case_decide; simpl.
  all: repeat match goal with
              | |- context [match ?x with _ => _ end] => is_var x; destruct x; simpl
              | |- context [bool_decide ?P] => destruct (bool_decide P); simpl
              end.
  all: split; [done|].
  all: rewrite ?elem_of_app, ?elem_of_cons, ?elem_of_nil; intuition discriminate.
Qed.

(** *** C1 *)

Lemma sent_app (xs ys : list Effect) : sent (xs ++ ys) = sent xs ++ sent ys.
Proof. unfold sent. apply omap_app. Qed.

(** What the handler does with a [tick] that carries a game state. *)
Lemma onmessage_tick
    (JSON_parse : string → option Json) (env : Env) (data : string)
    (st : Dashboard) (effects : list Effect) (message : Message) (gs : GameState) :
  JSON_parse data = Some (JsonObject message) →
  type message = Some "tick" →
  game_state message = Some gs →
  onmessage JSON_parse env data (st, effects)
  = if bool_decide (quarter gs = 4%Z) && bool_decide (time_remaining gs = "0:00")
    then ((st, (effects ++ [console_log "WebSocket message:"])
               ++ (if decide (wsRef env = Some OPEN)
                   then [socket_send (game_reset initialGameState)] else [])),
          Normal ())
    else (({| gameState := Some gs; forecasts := forecasts st;
              liveEvents := liveEvents st; activeScenario := activeScenario st;
              chatMessages := chatMessages st;
              isAssistantThinking := isAssistantThinking st |},
           effects ++ [console_log "WebSocket message:"]),
          Normal ()).
Proof.
  intros Hparse Htype Hgs. unfold onmessage. rewrite Hparse.
  unfold_handler. simpl. rewrite decide_True by done. rewrite Hgs.
  destruct (bool_decide (quarter gs = 4%Z) && bool_decide (time_remaining gs = "0:00"));
    [|done].
  destruct (wsRef env) as [[]|]; simpl; by rewrite ?app_nil_r.
Qed.

(** C1, as the code has it.  A [tick] whose game state has quarter 4 and
    time remaining "0:00" is never assigned: the state is left as it was
    and, through an open socket, exactly one [game_reset] is sent, whose
    data is the session's initial game state: quarter 1, both scores 0 and
    the initial team identities, which are those of the incoming state
    when the incoming state names the same two teams.  Every other [tick]
    that carries a game state replaces the game state wholesale with it
    and sends nothing. *)
Theorem C1_tick_at_the_final_whistle
    (JSON_parse : string → option Json) (env : Env) (data : string)
    (st : Dashboard) (effects : list Effect) (message : Message) (gs : GameState) :
  JSON_parse data = Some (JsonObject message) →
  type message = Some "tick" →
  game_state message = Some gs →
  let result := onmessage JSON_parse env data (st, effects) in
  result.2 = Normal ()
  ∧ (quarter gs = 4%Z ∧ time_remaining gs = "0:00" →
     result.1.1 = st
     ∧ sent result.1.2
       = sent effects ++ (if decide (wsRef env = Some OPEN)
                          then [game_reset initialGameState] else [])
     ∧ quarter initialGameState = 1%Z
     ∧ home_score initialGameState = 0%Z
     ∧ away_score initialGameState = 0%Z
     ∧ (home_team gs = "Philadelphia Eagles" → away_team gs = "Generic Opponents" →
        home_team initialGameState = home_team gs
        ∧ away_team initialGameState = away_team gs))
  ∧ (¬ (quarter gs = 4%Z ∧ time_remaining gs = "0:00") →
     result.1.1 = {| gameState := Some gs; forecasts := forecasts st;
                     liveEvents := liveEvents st;
                     activeScenario := activeScenario st;
                     chatMessages := chatMessages st;
                     isAssistantThinking := isAssistantThinking st |}
     ∧ sent result.1.2 = sent effects).
Proof.
  intros Hparse Htype Hgs result. subst result.
  rewrite (onmessage_tick _ _ _ _ _ _ _ Hparse Htype Hgs).
  split_and!.
  - by destruct (_ && _).
  - intros [Hq Ht].
    rewrite !bool_decide_eq_true_2 by done. simpl.
    split_and!; try done.
    rewrite !sent_app. simpl. rewrite app_nil_r.
    by destruct (decide (wsRef env = Some OPEN)).
  - intros Hnot.
    destruct (bool_decide (quarter gs = 4%Z)) eqn:Hq;
      destruct (bool_decide (time_remaining gs = "0:00")) eqn:Ht; simpl.
    { apply bool_decide_eq_true_1 in Hq, Ht. by destruct Hnot. }
    all: split; [done|]; rewrite sent_app; simpl; by rewrite app_nil_r.
Qed.

(** The theorem at the sample ticks: the final whistle of the simulated game
    and a tick of its third quarter. *)
Lemma C1_witness :
  (onmessage sample_parse env_open "tick Q4 0:00 PHI" (initialState, [])).1.1
  = initialState
  ∧ sent (onmessage sample_parse env_open "tick Q4 0:00 PHI" (initialState, [])).1.2
    = [game_reset initialGameState]
  ∧ home_team initialGameState = home_team eagles_final
  ∧ away_team initialGameState = away_team eagles_final
  ∧ gameState (onmessage sample_parse env_open "tick Q3 7:42" (initialState, [])).1.1
    = Some third_quarter.
Proof.
  destruct (C1_tick_at_the_final_whistle sample_parse env_open "tick Q4 0:00 PHI"
              initialState []
              (with_game_state eagles_final (with_type "tick" blank)) eagles_final
              eq_refl eq_refl eq_refl) as (_ & Hfinal & _).
  destruct (C1_tick_at_the_final_whistle sample_parse env_open "tick Q3 7:42"
              initialState []
              (with_game_state third_quarter (with_type "tick" blank)) third_quarter
              eq_refl eq_refl eq_refl) as (_ & _ & Hother).
  destruct Hfinal as (Hst & Hsent & _ & _ & _ & Hteams); [by split|].
  destruct (Hteams eq_refl eq_refl) as [Hhome Haway].
  destruct Hother as (Hst' & _); [by intros [[=] _]|].
  split; [exact Hst|]. split; [exact Hsent|].
  split; [exact Hhome|]. split; [exact Haway|]. by rewrite Hst'.
Defined.

(** C1 as stated fails on the team identities: at the final whistle of a
    game between two other teams, the reset that is sent names the teams
    of the initial game state, not those of the incoming state. *)
Lemma C1_counterexample :
  quarter final_whistle = 4%Z
  ∧ time_remaining final_whistle = "0:00"
  ∧ ∃ data,
      sent (onmessage sample_parse env_open "tick Q4 0:00" (initialState, [])).1.2
      = [game_reset data]
      ∧ quarter data = 1%Z ∧ home_score data = 0%Z ∧ away_score data = 0%Z
      ∧ home_team data ≠ home_team final_whistle
      ∧ away_team data ≠ away_team final_whistle.
Proof.
  split; [reflexivity|]. split; [reflexivity|].
  exists initialGameState. by split_and!.
Qed.

(** The earlier revision builds the reset from the incoming teams, but sends
    it through the [ws] binding of the handler's closure: with the [null]
    that binding holds, the send throws and nothing is sent. *)
Lemma earlier_revision_tick
    (ws : option ReadyState) (message : Message) (gs : GameState)
    (w : Dashboard * list Effect) :
  game_state message = Some gs →
  quarter gs = 4%Z → time_remaining gs = "0:00" →
  (ws = Some OPEN →
   ∃ data, onTick_v1 ws message w = ((w.1, w.2 ++ [socket_send (game_reset data)]), Normal ())
           ∧ quarter data = 1%Z ∧ home_score data = 0%Z ∧ away_score data = 0%Z
           ∧ home_team data = home_team gs ∧ away_team data = away_team gs)
  ∧ (ws = None → ∃ err, onTick_v1 ws message w = (w, Throw err)).
Proof.
  intros Hgs Hq Ht. unfold onTick_v1. rewrite Hgs.
  rewrite !bool_decide_eq_true_2 by done. simpl.
  split; intros ->; eexists; [by split_and! | done].
Qed.

(** *** C6 *)

Lemma existsb_event_id (x : string) (prev : list LiveEvent) :
  existsb (λ e, bool_decide (event_id e = x)) prev = true ↔ x ∈ event_id <$> prev.
Proof.
  induction prev as [|e prev IH].
  - simpl. split; [done | by intros ?%elem_of_nil].
  - rewrite fmap_cons, elem_of_cons. cbn [existsb].
    rewrite orb_true_iff, IH, bool_decide_eq_true. intuition congruence.
Qed.

Lemma addLiveEvent_known (ev : LiveEvent) (prev : list LiveEvent) :
  event_id ev ∈ event_id <$> prev → addLiveEvent ev prev = prev.
Proof.
  intros Hin%existsb_event_id. unfold addLiveEvent. by rewrite Hin.
Qed.

Lemma addLiveEvent_new (ev : LiveEvent) (prev : list LiveEvent) :
  event_id ev ∉ event_id <$> prev → addLiveEvent ev prev = take 5 (ev :: prev).
Proof.
  intros Hnew. unfold addLiveEvent.
  destruct (existsb _ prev) eqn:Hex; [|done].
  by apply existsb_event_id in Hex.
Qed.

(** The updater keeps the identifiers distinct and the list within five
    entries. *)
Lemma addLiveEvent_invariant (ev : LiveEvent) (prev : list LiveEvent) :
  NoDup (event_id <$> prev) → length prev ≤ 5 →
  NoDup (event_id <$> addLiveEvent ev prev) ∧ length (addLiveEvent ev prev) ≤ 5.
Proof.
  intros Hnodup Hlen.
  destruct (decide (event_id ev ∈ event_id <$> prev)) as [Hin | Hnew].
  - by rewrite addLiveEvent_known.
  - rewrite addLiveEvent_new by done. split.
    + rewrite fmap_take. eapply sublist_NoDup; [|apply sublist_take].
      rewrite fmap_cons. by apply NoDup_cons.
    + rewrite length_take. lia.
Qed.

(** The only messages that touch the event list are the [live_update]s
    that carry an event. *)
Lemma onmessage_liveEvents
    (JSON_parse : string → option Json) (env : Env) (data : string)
    (w : Dashboard * list Effect) :
  liveEvents (onmessage JSON_parse env data w).1.1
  = match arrival JSON_parse data with
    | Some ev => addLiveEvent ev (liveEvents w.1)
    | None => liveEvents w.1
    end.
Proof.
  destruct w as [st effects]. destruct env as [[socket|] scope now jitter].
  all: unfold arrival; unfold_handler.
  all: destruct (JSON_parse data) as [[|message]|]; simpl; try done.
  all: destruct message as [ty gs ip ev up ex sc ups pn pid ans]; simpl.
  all: repeat case_decide; simplify_eq; simpl.
  all: repeat match goal with
              | |- context [match ?x with _ => _ end] => is_var x; destruct x; simpl
              | |- context [bool_decide ?P] => destruct (bool_decide P); simpl
              end.
  all: try done.
  all: by match goal with l : LiveEvent |- _ => destruct l end.
Qed.

Lemma deliver_snoc
    (JSON_parse : string → option Json) (inbound : list (Env * string))
    (env : Env) (data : string) (w : Dashboard * list Effect) :
  deliver JSON_parse (inbound ++ [(env, data)]) w
  = (onmessage JSON_parse env data (deliver JSON_parse inbound w)).1.
Proof.
  revert w. induction inbound as [|[env' data'] inbound IH]; intros w; simpl; [done|].
  apply IH.
Qed.

Lemma arrivals_snoc
    (JSON_parse : string → option Json) (inbound : list (Env * string))
    (env : Env) (data : string) :
  reverse (arrivals JSON_parse (inbound ++ [(env, data)]))
  = match arrival JSON_parse data with
    | Some ev => ev :: reverse (arrivals JSON_parse inbound)
    | None => reverse (arrivals JSON_parse inbound)
    end.
Proof.
  unfold arrivals. rewrite omap_app. simpl.
  destruct (arrival JSON_parse data); simpl.
  - by rewrite reverse_snoc.
  - by rewrite app_nil_r.
Qed.

(** C6.  Whatever payloads are delivered, from the initial state on, the
    retained live events never hold two entries with the same identifier,
    never exceed five entries, and are ordered newest first (they appear in
    the reverse of the order in which the stream carried them).  A
    [live_update] whose event identifier is already retained leaves the
    list unchanged; one whose identifier is new puts its event at the
    head. *)
Theorem C6_live_events_deduplicated
    (JSON_parse : string → option Json) (inbound : list (Env * string)) :
  let w := deliver JSON_parse inbound (initialState, []) in
  let retained := liveEvents w.1 in
  NoDup (event_id <$> retained)
  ∧ length retained ≤ 5
  ∧ retained `sublist_of` reverse (arrivals JSON_parse inbound)
  ∧ ∀ env data message ev,
      JSON_parse data = Some (JsonObject message) →
      type message = Some "live_update" →
      event message = Some ev →
      let retained' := liveEvents (onmessage JSON_parse env data w).1.1 in
      (event_id ev ∈ event_id <$> retained → retained' = retained)
      ∧ (event_id ev ∉ event_id <$> retained → retained' = take 5 (ev :: retained)).
Proof.
  intros w retained.
  assert (NoDup (event_id <$> retained) ∧ length retained ≤ 5
          ∧ retained `sublist_of` reverse (arrivals JSON_parse inbound)) as Hinv.
  { subst retained w.
    induction inbound as [|[env data] inbound IH] using rev_ind.
    - simpl. split_and!; [constructor | lia | constructor].
    - destruct IH as (Hnodup & Hlen & Hsub).
      rewrite deliver_snoc, arrivals_snoc, onmessage_liveEvents.
      destruct (arrival JSON_parse data) as [ev|]; [|done].
      destruct (addLiveEvent_invariant ev _ Hnodup Hlen) as [Hnodup' Hlen'].
      split_and!; [done | done |].
      destruct (decide (event_id ev ∈ event_id <$>
                          liveEvents (deliver JSON_parse inbound (initialState, [])).1))
        as [Hin | Hnew].
      + rewrite addLiveEvent_known by done. by apply sublist_cons.
      + rewrite addLiveEvent_new by done.
        etrans; [apply sublist_take|]. by apply sublist_skip. }
  destruct Hinv as (Hnodup & Hlen & Hsub). split_and!; try done.
  intros env data message ev Hparse Htype Hev retained'. subst retained'.
  rewrite onmessage_liveEvents. unfold arrival.
  rewrite Hparse, decide_True, Hev by done.
  split; [apply addLiveEvent_known | apply addLiveEvent_new].
Qed.

(** The theorem after the sample [live_update] was delivered once: a
    replay leaves the list as it is; delivered to the initial state, the
    event becomes the head. *)
Lemma C6_witness :
  liveEvents
    (onmessage sample_parse env_open "live_update evt_17"
       (deliver sample_parse [(env_open, "live_update evt_17")] (initialState, []))).1.1
  = [completion]
  ∧ liveEvents
      (onmessage sample_parse env_open "live_update evt_17"
         (deliver sample_parse [] (initialState, []))).1.1
    = take 5 [completion].
Proof.
  destruct (C6_live_events_deduplicated sample_parse
              [(env_open, "live_update evt_17")]) as (_ & _ & _ & Hreplay).
  destruct (C6_live_events_deduplicated sample_parse []) as (_ & _ & _ & Hfirst).
  destruct (Hreplay env_open "live_update evt_17" _ completion eq_refl eq_refl eq_refl)
    as [Hknown _].
  destruct (Hfirst env_open "live_update evt_17" _ completion eq_refl eq_refl eq_refl)
    as [_ Hnew].
  split.
  - rewrite Hknown; [reflexivity|]. by left.
  - rewrite Hnew; [reflexivity|]. apply not_elem_of_nil.
Defined.

(** *** C7 *)

Lemma onmessage_updated_prediction
    (JSON_parse : string → option Json) (env : Env) (data : string)
    (st : Dashboard) (effects : list Effect)
    (message : Message) (ev : LiveEvent) (updated : Prediction) :
  JSON_parse data = Some (JsonObject message) →
  type message = Some "live_update" →
  event message = Some ev →
  updated_prediction message = Some updated →
  forecasts (onmessage JSON_parse env data (st, effects)).1.1
  = replacePrediction updated (msg_explanation message) (forecasts st).
Proof.
  intros Hparse Htype Hev Hupd. unfold onmessage. rewrite Hparse.
  unfold_handler. simpl.
  rewrite Htype. simpl. by rewrite Hev, Hupd.
Qed.

Lemma replacePrediction_found
    (updated : Prediction) (expl : option Explanation)
    (prev : list ForecastRecord) (i : nat) (r : ForecastRecord) :
  prev !! i = Some r →
  player_id (prediction r) = player_id updated →
  (∀ j r', (j < i)%nat → prev !! j = Some r' →
           player_id (prediction r') ≠ player_id updated) →
  replacePrediction updated expl prev
  = <[i := {| prediction := updated; explanation := expl |}]> prev.
Proof.
  intros Hi Hid Hfirst. unfold replacePrediction, findIndex.
  assert (list_find (λ p, player_id (prediction p) = player_id updated) prev
          = Some (i, r)) as ->; [|done].
  apply list_find_Some. split_and!; [done | done |].
  intros j y Hj Hlt. by eapply Hfirst.
Qed.

Lemma replacePrediction_unknown
    (updated : Prediction) (expl : option Explanation) (prev : list ForecastRecord) :
  (∀ r, r ∈ prev → player_id (prediction r) ≠ player_id updated) →
  replacePrediction updated expl prev = prev.
Proof.
  intros Hnone. unfold replacePrediction, findIndex.
  assert (list_find (λ p, player_id (prediction p) = player_id updated) prev = None)
    as ->; [|done].
  apply list_find_None, Forall_forall. exact Hnone.
Qed.

Lemma replacePrediction_length
    (updated : Prediction) (expl : option Explanation) (prev : list ForecastRecord) :
  length (replacePrediction updated expl prev) = length prev.
Proof.
  unfold replacePrediction. destruct (findIndex _ prev); [|done].
  apply length_insert.
Qed.

(** C7.  A [live_update] that carries an [updated_prediction] for player P
    replaces P's record in place: the array keeps its length, the index
    that held P's record now holds the new prediction (with the message's
    explanation), and every other index holds what it held.  When no
    record has P's identifier, the forecast set is left as it was. *)
Theorem C7_replacement_in_place
    (JSON_parse : string → option Json) (env : Env) (data : string)
    (st : Dashboard) (effects : list Effect)
    (message : Message) (ev : LiveEvent) (updated : Prediction) :
  JSON_parse data = Some (JsonObject message) →
  type message = Some "live_update" →
  event message = Some ev →
  updated_prediction message = Some updated →
  let prev := forecasts st in
  let next := forecasts (onmessage JSON_parse env data (st, effects)).1.1 in
  length next = length prev
  ∧ (∀ i r,
       prev !! i = Some r →
       player_id (prediction r) = player_id updated →
       (∀ j r', (j < i)%nat → prev !! j = Some r' →
                player_id (prediction r') ≠ player_id updated) →
       next !! i = Some {| prediction := updated;
                           explanation := msg_explanation message |}
       ∧ ∀ j, j ≠ i → next !! j = prev !! j)
  ∧ ((∀ r, r ∈ prev → player_id (prediction r) ≠ player_id updated) →
     next = prev).
Proof.
  intros Hparse Htype Hev Hupd prev next. subst next.
  rewrite (onmessage_updated_prediction _ _ _ _ _ _ _ _ Hparse Htype Hev Hupd).
  fold prev. split_and!.
  - apply replacePrediction_length.
  - intros i r Hi Hid Hfirst.
    rewrite (replacePrediction_found _ _ _ i r Hi Hid Hfirst). split.
    + apply list_lookup_insert_eq. by eapply lookup_lt_Some.
    + intros j Hj. by apply list_lookup_insert_ne.
  - apply replacePrediction_unknown.
Qed.

(** The theorem on the sample [live_update], which carries a new forecast
    for the quarterback: with the quarterback second on screen, his record
    is replaced at index 1 and the rookie's stays at index 0; with only the
    rookie on screen, nothing changes. *)
Lemma C7_witness :
  let next :=
    forecasts (onmessage sample_parse env_open "live_update evt_17"
                 (watching [record_of rookie; record_of hurts], [])).1.1 in
  length next = 2%nat
  ∧ next !! 1%nat = Some (record_of hurts_updated)
  ∧ next !! 0%nat = Some (record_of rookie)
  ∧ forecasts (onmessage sample_parse env_open "live_update evt_17"
                 (watching [record_of rookie], [])).1.1
    = [record_of rookie].
Proof.
  intros next.
  destruct (C7_replacement_in_place sample_parse env_open "live_update evt_17"
              (watching [record_of rookie; record_of hurts]) [] _ completion
              hurts_updated eq_refl eq_refl eq_refl eq_refl)
    as (Hlen & Hfound & _).
  destruct (C7_replacement_in_place sample_parse env_open "live_update evt_17"
              (watching [record_of rookie]) [] _ completion
              hurts_updated eq_refl eq_refl eq_refl eq_refl)
    as (_ & _ & Hunknown).
  destruct (Hfound 1%nat (record_of hurts) eq_refl eq_refl) as [Hat Hother].
  { intros [|j] r' Hj Hr'; [|lia]. injection Hr' as <-. discriminate. }
  split; [exact Hlen|]. split; [exact Hat|]. split.
  - unfold next. rewrite (Hother 0%nat); [reflexivity | discriminate].
  - apply Hunknown. intros r Hr. apply elem_of_cons in Hr as [-> | Hr].
    + discriminate.
    + by apply elem_of_nil in Hr.
Defined.

End EngineClaims.

(** ** Confidence display: the stated properties *)

Module DisplayClaims.
Import Js Display Samples EdgeSamples.

Lemma pct_range (confidence : option R) : 0 <= pct confidence <= 1.
Proof.
  unfold pct, Math_max, Math_min, Rmax, Rmin.
  repeat destruct (Rle_dec _ _); lra.
Qed.

Lemma toFixed0_percent (x : R) : 0 <= x <= 100 → (0 <= toFixed0 x <= 100)%Z.
Proof.
  intros [Hlo Hhi]. unfold toFixed0. destruct (Rlt_dec x 0); [lra|]. split.
  - apply Zfloor_lub. simpl. lra.
  - rewrite <- (Zfloor_eq 100 (100 + / 2)) by lra. apply Zfloor_le. lra.
Qed.





End DisplayClaims.

(** ** Reconciliation engine: further properties *)

Module EngineExtras.

Import Js Engine Samples MoreSamples EngineClaims.

(** *** Replaying a payload *)

Lemma addLiveEvent_idem (ev : LiveEvent) (prev : list LiveEvent) :
  addLiveEvent ev (addLiveEvent ev prev) = addLiveEvent ev prev.
Proof.
  destruct (decide (event_id ev ∈ event_id <$> prev)) as [Hin | Hnew].
  - rewrite (addLiveEvent_known ev prev) by done. by apply addLiveEvent_known.
  - rewrite (addLiveEvent_new ev prev) by done.
    apply addLiveEvent_known. simpl. by left.
Qed.

Lemma replacePrediction_idem
    (updated : Prediction) (expl : option Explanation) (prev : list ForecastRecord) :
  replacePrediction updated expl (replacePrediction updated expl prev)
  = replacePrediction updated expl prev.
Proof.
  destruct (list_find (λ p, player_id (prediction p) = player_id updated) prev)
    as [[i r]|] eqn:Hfind.
  - apply list_find_Some in Hfind as (Hi & Hid & Hfirst).
    set (new := {| prediction := updated; explanation := expl |}).
    assert (∀ j r', (j < i)%nat → prev !! j = Some r' →
                    player_id (prediction r') ≠ player_id updated) as Hfirst'.
    { intros j r' Hlt Hj. by eapply Hfirst. }
    rewrite (replacePrediction_found updated expl prev i r Hi Hid Hfirst'). fold new.
    rewrite (replacePrediction_found updated expl (<[i:=new]> prev) i new).
    + apply list_insert_insert_eq.
    + apply list_lookup_insert_eq. by eapply lookup_lt_Some.
    + done.
    + intros j r' Hlt Hj. rewrite list_lookup_insert_ne in Hj by lia.
      by eapply Hfirst.
  - apply list_find_None in Hfind. rewrite Forall_forall in Hfind.
    by rewrite !(replacePrediction_unknown updated expl prev Hfind).
Qed.

(** Replayed, a payload other than a [cedar_answer] leaves the dashboard as
    its first delivery left it: the game state, the forecast set, the live
    events and the scenario are the same (only the console and, for a final
    tick, the socket see the replay). *)
Theorem replay_leaves_the_dashboard
    (JSON_parse : string → option Json) (env env' : Env) (data : string)
    (st : Dashboard) (effects effects' : list Effect) :
  (∀ message, JSON_parse data = Some (JsonObject message) →
              type message ≠ Some "cedar_answer") →
  let once := (onmessage JSON_parse env data (st, effects)).1.1 in
  (onmessage JSON_parse env' data (once, effects')).1.1 = once.
Proof.
  intros Hnot once. subst once.
  destruct env as [[socket|] scope now jitter];
    destruct env' as [[socket'|] scope' now' jitter'].
  all: unfold_handler.
  all: destruct (JSON_parse data) as [[|message]|]; simpl; try done.
  all: specialize (Hnot message eq_refl).
  all: destruct message as [ty gs ip ev up ex sc ups pn pid ans]; simpl in *.
  all: repeat case_decide; simplify_eq; simpl.
  all: repeat match goal with
              | |- context [match ?x with _ => _ end] => is_var x; destruct x; simpl
              | |- context [bool_decide ?P] => destruct (bool_decide P); simpl
              end.
  all: try done.
  all: rewrite ?addLiveEvent_idem, ?replacePrediction_idem; done.
Qed.

Lemma replay_leaves_the_dashboard_witness :
  let once := (onmessage sample_parse2 env_open "live_update evt_17"
                 (watching [record_of rookie; record_of hurts], [])).1.1 in
  (onmessage sample_parse2 env_open "live_update evt_17" (once, [])).1.1 = once
  ∧ liveEvents once = [completion]
  ∧ forecasts once = [record_of rookie; record_of hurts_updated].
Proof.
  split; [|split; reflexivity].
  apply (replay_leaves_the_dashboard sample_parse2 env_open env_open
           "live_update evt_17").
  intros message [= <-]. discriminate.
Defined.

(** *** The retained window *)

Lemma arrivals_app
    (JSON_parse : string → option Json) (inbound : list (Env * string))
    (env : Env) (data : string) :
  arrivals JSON_parse (inbound ++ [(env, data)])
  = arrivals JSON_parse inbound
    ++ match arrival JSON_parse data with Some ev => [ev] | None => [] end.
Proof. unfold arrivals. rewrite omap_app. simpl. by destruct (arrival JSON_parse data). Qed.

(** When the events the stream carries have pairwise distinct identifiers,
    the retained list is exactly the five most recent of them, newest
    first. *)
Theorem five_most_recent_events
    (JSON_parse : string → option Json) (inbound : list (Env * string)) :
  NoDup (event_id <$> arrivals JSON_parse inbound) →
  liveEvents (deliver JSON_parse inbound (initialState, [])).1
  = take 5 (reverse (arrivals JSON_parse inbound)).
Proof.
  induction inbound as [|[env data] inbound IH] using rev_ind; intros Hnodup; [done|].
  rewrite deliver_snoc, onmessage_liveEvents, arrivals_snoc.
  rewrite arrivals_app in Hnodup.
  destruct (arrival JSON_parse data) as [ev|].
  - rewrite fmap_app in Hnodup. apply NoDup_app in Hnodup as (Hnodup & Hfresh & _).
    rewrite IH by done.
    rewrite addLiveEvent_new.
    + simpl. by rewrite take_take.
    + intros Hin. apply (Hfresh (event_id ev)); [|simpl; by left].
      apply list_elem_of_fmap in Hin as (e & -> & He).
      apply list_elem_of_fmap_2, elem_of_reverse.
      apply elem_of_take in He as (i & Hi & _).
      by eapply list_elem_of_lookup_2.
  - rewrite app_nil_r in Hnodup. by apply IH.
Qed.

Lemma five_most_recent_events_witness :
  liveEvents (deliver sample_parse2
                [(env_open, "live_update evt_17"); (env_open, "tick Q4 0:00");
                 (env_open, "live_update evt_18")] (initialState, [])).1
  = [sack; completion].
Proof.
  rewrite five_most_recent_events; [reflexivity|].
  apply (bool_decide_unpack _). reflexivity.
Defined.

(** *** The other message types *)

(** A [live_update] that carries no event still replaces the game state,
    whatever it is, and then fails: the failure is logged, the live events
    and the forecast set are left as they were (an [updated_prediction] in
    the same message is dropped), and the handler returns normally. *)
Theorem live_update_without_event
    (JSON_parse : string → option Json) (env : Env) (data : string)
    (st : Dashboard) (effects : list Effect) (message : Message) :
  JSON_parse data = Some (JsonObject message) →
  type message = Some "live_update" →
  event message = None →
  onmessage JSON_parse env data (st, effects)
  = (({| gameState := game_state message; forecasts := forecasts st;
         liveEvents := liveEvents st; activeScenario := activeScenario st;
         chatMessages := chatMessages st;
         isAssistantThinking := isAssistantThinking st |},
      effects ++ [console_log "WebSocket message:";
                  console_error "Error handling WebSocket message:"]),
     Normal ()).
Proof.
  intros Hparse Htype Hev. unfold onmessage. rewrite Hparse.
  unfold_handler. simpl. rewrite Htype. simpl. rewrite Hev. simpl.
  by rewrite <- app_assoc.
Qed.

Lemma live_update_without_event_witness :
  (onmessage sample_parse2 env_open "live_update without event"
     (watching [record_of hurts], [])).1.1
  = {| gameState := Some final_whistle; forecasts := [record_of hurts];
       liveEvents := []; activeScenario := None; chatMessages := [];
       isAssistantThinking := false |}.
Proof.
  by rewrite (live_update_without_event sample_parse2 env_open
                "live_update without event" _ []
                (with_game_state final_whistle (with_type "live_update" blank))).
Defined.

(** A [game_initialized] replaces the game state with the message's (absent
    when the message has none) and replaces the whole forecast set only when
    [initial_predictions] is a non-empty list: an empty list, like a missing
    one, leaves the forecasts on screen. *)
Theorem game_initialized_replaces
    (JSON_parse : string → option Json) (env : Env) (data : string)
    (st : Dashboard) (effects : list Effect) (message : Message) :
  JSON_parse data = Some (JsonObject message) →
  type message = Some "game_initialized" →
  onmessage JSON_parse env data (st, effects)
  = (({| gameState := game_state message;
         forecasts := match initial_predictions message with
                      | Some [] | None => forecasts st
                      | Some initial => initial
                      end;
         liveEvents := liveEvents st; activeScenario := activeScenario st;
         chatMessages := chatMessages st;
         isAssistantThinking := isAssistantThinking st |},
      effects ++ [console_log "WebSocket message:"]),
     Normal ()).
Proof.
  intros Hparse Htype. unfold onmessage. rewrite Hparse.
  unfold_handler. simpl. rewrite Htype. simpl.
  by destruct (initial_predictions message) as [[|p ps]|].
Qed.

Lemma game_initialized_replaces_witness :
  forecasts (onmessage sample_parse2 env_open "game_initialized, no forecasts"
               (watching [record_of rookie], [])).1.1
  = [record_of rookie]
  ∧ forecasts (onmessage sample_parse2 env_open "game_initialized, hurts"
                 (watching [record_of rookie], [])).1.1
    = [record_of hurts].
Proof.
  split.
  - by rewrite (game_initialized_replaces sample_parse2 env_open
                  "game_initialized, no forecasts" _ []
                  (with_initial_predictions []
                     (with_game_state third_quarter
                        (with_type "game_initialized" blank)))).
  - by rewrite (game_initialized_replaces sample_parse2 env_open
                  "game_initialized, hurts" _ []
                  (with_initial_predictions [record_of hurts]
                     (with_game_state third_quarter
                        (with_type "game_initialized" blank)))).
Defined.

(** A [scenario_update] stores the scenario, sets one timer of 5000 ms and
    replaces the whole forecast set whenever [updated_predictions] is
    present, also when it is the empty list: the forecasts on screen are then
    emptied.  The game state and the live events are not touched and nothing
    is sent. *)
Theorem scenario_update_replaces
    (JSON_parse : string → option Json) (env : Env) (data : string)
    (st : Dashboard) (effects : list Effect) (message : Message) :
  JSON_parse data = Some (JsonObject message) →
  type message = Some "scenario_update" →
  onmessage JSON_parse env data (st, effects)
  = (({| gameState := gameState st;
         forecasts := default (forecasts st) (updated_predictions message);
         liveEvents := liveEvents st; activeScenario := scenario message;
         chatMessages := chatMessages st;
         isAssistantThinking := isAssistantThinking st |},
      effects ++ [console_log "WebSocket message:"; setTimeout_clear_scenario 5000]),
     Normal ()).
Proof.
  intros Hparse Htype. unfold onmessage. rewrite Hparse.
  unfold_handler. simpl. rewrite Htype. simpl.
  destruct (updated_predictions message); simpl; by rewrite <- app_assoc.
Qed.

Lemma scenario_update_replaces_witness :
  forecasts (onmessage sample_parse2 env_open "scenario shootout, no forecasts"
               (watching [record_of rookie], [])).1.1 = []
  ∧ forecasts (onmessage sample_parse2 env_open "scenario rain"
                 (watching [record_of rookie], [])).1.1 = [record_of rookie].
Proof.
  split.
  - by rewrite (scenario_update_replaces sample_parse2 env_open
                  "scenario shootout, no forecasts" _ []
                  (with_scenario shootout (Some [])
                     (with_type "scenario_update" blank))).
  - by rewrite (scenario_update_replaces sample_parse2 env_open
                  "scenario rain" _ []
                  (with_scenario rain None (with_type "scenario_update" blank))).
Defined.

(** A [cedar_answer] appends exactly one assistant message at the end of the
    conversation, keeps every earlier message, and clears the "assistant is
    composing" indicator.  Its text is the answer, or "No answer available."
    when the answer is missing or empty; its identifier is the clock plus
    the random offset.  Nothing else of the dashboard changes and nothing is
    sent. *)
Theorem cedar_answer_appends
    (JSON_parse : string → option Json) (env : Env) (data : string)
    (st : Dashboard) (effects : list Effect) (message : Message) :
  JSON_parse data = Some (JsonObject message) →
  type message = Some "cedar_answer" →
  ∃ reply : ChatMessage,
    onmessage JSON_parse env data (st, effects)
    = (({| gameState := gameState st; forecasts := forecasts st;
           liveEvents := liveEvents st; activeScenario := activeScenario st;
           chatMessages := chatMessages st ++ [reply];
           isAssistantThinking := false |},
        effects ++ [console_log "WebSocket message:"]),
       Normal ())
    ∧ chat_type reply = "assistant"
    ∧ chat_id reply = (Date_now env + random_1000 env)%Z
    ∧ playerId reply = msg_player_id message
    ∧ text reply = match answer message with
                   | Some "" | None => "No answer available."
                   | Some a => a
                   end.
Proof.
  intros Hparse Htype. unfold onmessage. rewrite Hparse.
  unfold_handler. simpl. rewrite Htype. simpl.
  eexists. split; [reflexivity|]. split_and!; try done. simpl.
  destruct (answer message) as [a|]; simpl; [|done].
  by destruct a.
Qed.

Lemma cedar_answer_appends_witness :
  ∃ reply,
    chatMessages (onmessage sample_parse2 env_open "cedar_answer"
                    (watching [record_of hurts], [])).1.1 = [reply]
    ∧ text reply = "He has thrown well against this defence."
    ∧ playerId reply = Some "player_001".
Proof.
  destruct (cedar_answer_appends sample_parse2 env_open "cedar_answer"
              (watching [record_of hurts]) []
              (with_answer "He has thrown well against this defence."
                 (Some "player_001") (with_type "cedar_answer" blank))
              eq_refl eq_refl) as (reply & Hrun & _ & _ & Hpid & Htext).
  exists reply. rewrite Hrun. by split_and!.
Defined.

(** The handler sends at most one request per payload, and the only request
    it ever sends is a [game_reset] carrying the initial game state. *)
Theorem handler_sends_only_resets
    (JSON_parse : string → option Json) (env : Env) (data : string)
    (st : Dashboard) (effects : list Effect) :
  let after := (onmessage JSON_parse env data (st, effects)).1.2 in
  sent after = sent effects
  ∨ sent after = sent effects ++ [game_reset initialGameState].
Proof.
  simpl. destruct env as [[socket|] scope now jitter].
  all: unfold_handler; destruct (JSON_parse data) as [[|message]|]; simpl.
  all: rewrite ?sent_app; simpl; rewrite ?app_nil_r; auto.
  all: destruct message as [ty gs ip ev up ex sc ups pn pid ans]; simpl.
  all: repeat case_decide; simplify_eq; simpl.
  all: repeat match goal with
              | |- context [match ?x with _ => _ end] => is_var x; destruct x; simpl
              | |- context [bool_decide ?P] => destruct (bool_decide P); simpl
              end.
  all: rewrite ?sent_app; simpl; rewrite ?app_nil_r; auto.
Qed.

(** *** The scenario banner under the clock *)

Import Timeline.

Lemma callbacks_scenario (st : Dashboard) (due : list Z) :
  activeScenario (foldl (λ st _, callback st) st due)
  = match due with [] => activeScenario st | _ => None end.
Proof.
  destruct due as [|d due]; [done|]. simpl.
  assert (∀ s, activeScenario s = None →
               activeScenario (foldl (λ st _, callback st) s due) = None) as Hall.
  { induction due as [|d' due IH]; intros s Hs; [done|]. simpl. by apply IH. }
  by apply Hall.
Qed.

Lemma scenario_update_banner
    (JSON_parse : string → option Json) (env : Env) (data : string)
    (st : Dashboard) (effects : list Effect) (message : Message) :
  JSON_parse data = Some (JsonObject message) →
  type message = Some "scenario_update" →
  activeScenario (onmessage JSON_parse env data (st, effects)).1.1 = scenario message.
Proof.
  intros Hparse Htype. unfold onmessage. rewrite Hparse.
  unfold_handler. simpl. rewrite Htype. simpl.
  by destruct (updated_predictions message).
Qed.

Lemma scenario_update_timer
    (JSON_parse : string → option Json) (env : Env) (data : string)
    (st : Dashboard) (message : Message) (now : Z) :
  JSON_parse data = Some (JsonObject message) →
  type message = Some "scenario_update" →
  scheduled now (onmessage JSON_parse env data (st, [])).1.2 = [(now + 5000)%Z].
Proof.
  intros Hparse Htype. unfold onmessage. rewrite Hparse.
  unfold_handler. simpl. rewrite Htype. simpl.
  by destruct (updated_predictions message).
Qed.

Lemma fire_due (now due : Z) (w : World) :
  due ∈ timers w → (due <= now)%Z → activeScenario (dashboard (fire now w)) = None.
Proof.
  intros Hin Hdue. unfold fire. simpl. rewrite callbacks_scenario.
  destruct (filter _ (timers w)) as [|d ds] eqn:Hfilter; [|done].
  assert (due ∈ filter (λ due, (due <= now)%Z) (timers w)) as Hin'.
  { by apply list_elem_of_filter. }
  rewrite Hfilter in Hin'. by apply elem_of_nil in Hin'.
Qed.

Lemma fire_keeps (now : Z) (w : World) :
  activeScenario (dashboard (fire now w)) = None
  ∨ (activeScenario (dashboard (fire now w)) = activeScenario (dashboard w)
     ∧ ∀ due, due ∈ timers w → due ∈ timers (fire now w)).
Proof.
  unfold fire. simpl. rewrite callbacks_scenario.
  destruct (filter (λ due, (due <= now)%Z) (timers w)) as [|d ds] eqn:Hfilter;
    [right | by left].
  split; [done|]. intros due Hin. apply list_elem_of_filter. split; [|done].
  intros Hdue.
  assert (due ∈ filter (λ due, (due <= now)%Z) (timers w)) as Hin'.
  { by apply list_elem_of_filter. }
  rewrite Hfilter in Hin'. by apply elem_of_nil in Hin'.
Qed.

(** A run of the handler either leaves the scenario alone and sets no timer,
    or stores a scenario and sets the 5000 ms timer. *)
Lemma onmessage_scenario
    (JSON_parse : string → option Json) (now : Z) (env : Env) (data : string)
    (st : Dashboard) :
  let result := (onmessage JSON_parse env data (st, [])).1 in
  (activeScenario result.1 = activeScenario st ∧ scheduled now result.2 = [])
  ∨ scheduled now result.2 = [(now + 5000)%Z].
Proof.
  simpl. destruct env as [[socket|] scope clock jitter].
  all: unfold_handler; destruct (JSON_parse data) as [[|message]|]; simpl; auto.
  all: destruct message as [ty gs ip ev up ex sc ups pn pid ans]; simpl.
  all: repeat case_decide; simplify_eq; simpl.
  all: repeat match goal with
              | |- context [match ?x with _ => _ end] => is_var x; destruct x; simpl
              | |- context [bool_decide ?P] => destruct (bool_decide P); simpl
              end.
  all: auto.
Qed.

Lemma receive_banner
    (JSON_parse : string → option Json) (before now : Z) (env : Env) (data : string)
    (w : World) :
  (before <= now)%Z → banner_has_timer before w →
  banner_has_timer now (receive JSON_parse now env data w).
Proof.
  intros Hle Hinv. unfold banner_has_timer, receive.
  set (fired := fire now w).
  cbn [dashboard timers].
  destruct (onmessage_scenario JSON_parse now env data (dashboard fired))
    as [[Hsame Hnone] | Hset]; cbv zeta in *.
  - rewrite Hsame, Hnone, app_nil_r. intros Hshown.
    destruct (fire_keeps now w) as [Hcleared | [Hkept Htimers]]; [done|].
    fold fired in Hkept, Htimers.
    rewrite Hkept in Hshown. destruct (Hinv Hshown) as (due & Hin & Hdue).
    exists due. split; [by apply Htimers | lia].
  - intros _. exists (now + 5000)%Z. split; [|lia].
    rewrite Hset. apply elem_of_app. right. by left.
Qed.

Lemma run_banner
    (JSON_parse : string → option Json) (stream : list (Z * Env * string))
    (start : Z) (w : World) :
  chronological start stream → banner_has_timer start w →
  banner_has_timer (last_instant start stream) (run JSON_parse stream w).
Proof.
  revert start w. induction stream as [|[[now env] data] stream IH];
    intros start w Hchrono Hinv; [done|].
  destruct Hchrono as [Hle Hchrono]. simpl.
  apply IH; [done|]. by eapply receive_banner.
Qed.

(** No scenario banner outlives the 5000 ms that follow the latest delivery:
    whatever was delivered, once the clock is 5000 ms past the last payload
    the scenario is absent. *)
Theorem scenario_cleared_after_5000ms
    (JSON_parse : string → option Json) (stream : list (Z * Env * string))
    (start now : Z) :
  chronological start stream →
  (last_instant start stream + 5000 <= now)%Z →
  activeScenario (dashboard (fire now (run JSON_parse stream initialWorld))) = None.
Proof.
  intros Hchrono Hlate.
  pose proof (run_banner JSON_parse stream start initialWorld Hchrono) as Hinv.
  destruct (activeScenario (dashboard (run JSON_parse stream initialWorld)))
    as [sc|] eqn:Hshown.
  - destruct Hinv as (due & Hin & Hdue); [by intros ? | by rewrite Hshown |].
    eapply fire_due; [done | lia].
  - destruct (fire_keeps now (run JSON_parse stream initialWorld))
      as [Hcleared | [Hkept _]]; [done | congruence].
Qed.

Lemma scenario_cleared_after_5000ms_witness :
  activeScenario
    (dashboard (run sample_parse2 [(1000%Z, env_open, "scenario rain")] initialWorld))
  = Some rain
  ∧ activeScenario
      (dashboard
         (fire 6000 (run sample_parse2 [(1000%Z, env_open, "scenario rain")]
                       initialWorld)))
    = None.
Proof.
  split; [reflexivity|].
  apply (scenario_cleared_after_5000ms sample_parse2 _ 0); simpl; lia.
Defined.

(** The timer of an earlier scenario is not cancelled by a later one: when a
    second [scenario_update] arrives less than 5000 ms after a first, the
    second scenario is shown at once and cleared 5000 ms after the first
    arrived, that is before it has been shown for 5000 ms. *)
Theorem second_scenario_cleared_early
    (JSON_parse : string → option Json) (first second : Z) (env env' : Env)
    (data data' : string) (message message' : Message) (w : World) :
  JSON_parse data = Some (JsonObject message) →
  type message = Some "scenario_update" →
  JSON_parse data' = Some (JsonObject message') →
  type message' = Some "scenario_update" →
  (first <= second < first + 5000)%Z →
  let shown := receive JSON_parse second env' data'
                 (receive JSON_parse first env data w) in
  activeScenario (dashboard shown) = scenario message'
  ∧ activeScenario (dashboard (fire (first + 5000) shown)) = None.
Proof.
  intros Hparse Htype Hparse' Htype' Hbetween shown. subst shown. split.
  - unfold receive at 1. simpl.
    by apply scenario_update_banner.
  - apply (fire_due _ (first + 5000)%Z); [|lia].
    unfold receive at 1. simpl. apply elem_of_app. left.
    apply list_elem_of_filter. split; [lia|].
    unfold receive. simpl. apply elem_of_app. right.
    rewrite (scenario_update_timer JSON_parse env data _ message) by done.
    by left.
Qed.

Lemma second_scenario_cleared_early_witness :
  let shown := receive sample_parse2 4000 env_open "scenario shootout, no forecasts"
                 (receive sample_parse2 1000 env_open "scenario rain" initialWorld) in
  activeScenario (dashboard shown) = Some shootout
  ∧ activeScenario (dashboard (fire 6000 shown)) = None.
Proof.
  apply (second_scenario_cleared_early sample_parse2 1000 4000 env_open env_open
           "scenario rain" "scenario shootout, no forecasts"
           (with_scenario rain None (with_type "scenario_update" blank))
           (with_scenario shootout (Some []) (with_type "scenario_update" blank))
           initialWorld eq_refl eq_refl eq_refl eq_refl).
  lia.
Defined.

End EngineExtras.

(** ** Lineup evaluator and HTTP client: further properties *)

Module LineupExtras.
Import Js Lineup LineupProps LineupClaims Samples Services ClientSamples.

(** *** The server's answer *)

(** When the server evaluation resolves to an object that carries a
    [winProbability], [evaluateLineup] stores that object as it is:
    whatever its values and whatever the forecast collaborator does, and
    it leaves the teams and the lineups as they were. *)
Theorem server_answer_is_stored_unchanged
    (api : Api) (random1 random2 : R) (st : Playground) (r : EvaluationResult) :
  apiEvaluateLineup api (payloadOf st) = Normal (Fulfilled (Some r)) →
  is_Some (winProbability r) →
  Lineup.evaluateLineup api random1 random2 st
  = Normal {| playHomeTeam := playHomeTeam st; playAwayTeam := playAwayTeam st;
              homeLineup := homeLineup st; awayLineup := awayLineup st;
              evaluationResult := Some r; evaluatingLineup := false |}.
Proof.
  intros Hserver [w Hw]. unfold Lineup.evaluateLineup, tryServer. simpl.
  change (payloadOf _) with (payloadOf st). rewrite Hserver. simpl.
  by rewrite Hw.
Qed.

(** A server that answers 250 percent, while the forecast collaborator
    throws: the answer is stored. *)
Lemma server_answer_is_stored_unchanged_witness :
  Lineup.evaluateLineup (api_answering landslide) 0 0 playground
  = Normal {| playHomeTeam := Some "PHI"; playAwayTeam := Some "DAL";
              homeLineup := lineup_qb; awayLineup := emptyLineup;
              evaluationResult := Some landslide; evaluatingLineup := false |}.
Proof.
  apply (server_answer_is_stored_unchanged (api_answering landslide) 0 0
           playground landslide eq_refl).
  by exists 250.
Defined.

(** *** Swapping the sides *)

Lemma strengths_swap (h a : Summary) :
  homeStrength a h = awayStrength h a ∧ awayStrength a h = homeStrength h a.
Proof. done. Qed.






(** *** The stronger side *)

(** The reported home win probability is at least 50 when the home
    strength is at least the away strength, and at most 50 when it is at
    most the away strength: equal strengths are reported as exactly 50. *)
Theorem stronger_side_is_favoured (homePreds awayPreds : list (option Prediction)) :
  let h := summarize homePreds in
  let a := summarize awayPreds in
  ∃ w, winProbability (heuristic homePreds awayPreds) = Some w
       ∧ (awayStrength h a <= homeStrength h a → 50 <= w)
       ∧ (homeStrength h a <= awayStrength h a → w <= 50).
Proof.
  cbv zeta. eexists. split; [reflexivity|].
  unfold rawWinProbability. cbv zeta.
  set (h := summarize homePreds). set (a := summarize awayPreds).
  set (diff := homeStrength h a - awayStrength h a).
  pose proof (Math_round_int 500) as H500.
  split; intros Hle.
  - assert (0.5 <= Math_max 0.02 (Math_min 0.98 (sigmoid diff))) as Hp.
    { pose proof (sigmoid_mono 0 diff ltac:(unfold diff; lra)) as Hs.
      rewrite sigmoid_0 in Hs.
      unfold Math_max, Math_min, Rmax, Rmin.
      repeat (destruct (Rle_dec _ _)); lra. }
    set (p := Math_max _ _) in *.
    pose proof (Math_round_mono 500 (p * 1000) ltac:(lra)).
    lra.
  - assert (Math_max 0.02 (Math_min 0.98 (sigmoid diff)) <= 0.5) as Hp.
    { pose proof (sigmoid_mono diff 0 ltac:(unfold diff; lra)) as Hs.
      rewrite sigmoid_0 in Hs.
      unfold Math_max, Math_min, Rmax, Rmin.
      repeat (destruct (Rle_dec _ _)); lra. }
    set (p := Math_max _ _) in *.
    pose proof (Math_round_mono (p * 1000) 500 ltac:(lra)).
    lra.
Qed.

Lemma quarterback_is_stronger :
  awayStrength (summarize [Some hurts]) (summarize [])
  <= homeStrength (summarize [Some hurts]) (summarize []).
Proof.
  destruct (summarize_one hurts) as (Hc & Hp & _).
  unfold homeStrength, awayStrength.
  rewrite Hc, Hp, hurts_points, hurts_confidence, summarize_none. simpl.
  unfold Math_max, Rmax. repeat (destruct (Rle_dec _ _)); lra.
Qed.

Lemma nobody_is_weaker :
  homeStrength (summarize []) (summarize [Some hurts])
  <= awayStrength (summarize []) (summarize [Some hurts]).
Proof.
  destruct (strengths_swap (summarize [Some hurts]) (summarize [])) as [-> ->].
  apply quarterback_is_stronger.
Qed.

(** The quarterback against nobody, at home and away. *)
Lemma stronger_side_is_favoured_witness :
  (∃ w, winProbability (heuristic [Some hurts] []) = Some w ∧ 50 <= w)
  ∧ (∃ w, winProbability (heuristic [] [Some hurts]) = Some w ∧ w <= 50).
Proof.
  split.
  - destruct (stronger_side_is_favoured [Some hurts] []) as (w & Hw & Hge & _).
    exists w. split; [exact Hw|]. apply Hge, quarterback_is_stronger.
  - destruct (stronger_side_is_favoured [] [Some hurts]) as (w & Hw & _ & Hle).
    exists w. split; [exact Hw|]. apply Hle, nobody_is_weaker.
Defined.

(** *** The shipped client *)

Lemma fetchJSON_down {A} (BASE_URL : string)
    (fetch : Request → Settled (Response A)) (path : string)
    (options : string → Request) :
  down fetch → ∃ r, fetchJSON BASE_URL fetch path options = Rejected r.
Proof.
  intros Hdown. unfold fetchJSON.
  specialize (Hdown (options (BASE_URL +:+ path))).
  destruct (fetch _) as [res|r]; [|by eexists].
  rewrite Hdown. destruct (text res); by eexists.
Qed.

(** With the client of [services/api.js] in front of a backend that
    answers no request (every request fails or is answered with a status
    that is not [ok]), [evaluateLineup] stores the neutral result, 50.0
    percent, whatever the lineups and the random draws are. *)
Theorem backend_outage_gives_the_neutral_result
    (BASE_URL : string) (backend : Backend) (random1 random2 : R)
    (st : Playground) :
  down (fetchPrediction backend) → down (fetchEvaluation backend) →
  Lineup.evaluateLineup (client BASE_URL backend) random1 random2 st
  = Normal {| playHomeTeam := playHomeTeam st; playAwayTeam := playAwayTeam st;
              homeLineup := homeLineup st; awayLineup := awayLineup st;
              evaluationResult := Some Stated.neutralResult;
              evaluatingLineup := false |}.
Proof.
  intros Hpred Heval.
  set (api := client BASE_URL backend).
  assert (∀ ids, ∃ preds, fetchAll api ids = Normal preds
                          ∧ Stated.available preds = []) as Hfetch.
  { intros ids. apply fetchAll_rejected, Forall_forall. intros i _.
    destruct (fetchJSON_down BASE_URL (fetchPrediction backend)
                ("/api/v1/players/" +:+ i +:+ "/predictions") GET Hpred) as [r Hr].
    exists r. simpl. unfold getPlayerPredictions. by rewrite Hr. }
  assert (tryServer api (payloadOf st) = Normal None) as Hserver.
  { apply tryServer_failed. simpl. unfold Services.evaluateLineup.
    by destruct (fetchJSON_down BASE_URL (fetchEvaluation backend)
                   "/api/v1/lineup/evaluate"
                   (λ url, {| url := url; method := "POST";
                              body := Some (payloadOf st) |}) Heval) as [r ->]. }
  unfold Lineup.evaluateLineup. simpl.
  change (payloadOf _) with (payloadOf st). rewrite Hserver. simpl.
  unfold localEvaluateLineup.
  destruct (Hfetch (assignedIds (homeLineup st))) as (hp & -> & Hhp).
  destruct (Hfetch (assignedIds (awayLineup st))) as (ap & -> & Hap).
  simpl. unfold heuristic.
  rewrite (summarize_unavailable hp Hhp), (summarize_unavailable ap Hap).
  fold (heuristic [] []). by rewrite heuristic_empty.
Qed.

(** Every request answered with status 503, the quarterback assigned. *)
Lemma backend_outage_gives_the_neutral_result_witness :
  Lineup.evaluateLineup (client DEV_BACKEND_FALLBACK backend_503) 0 0 playground
  = Normal {| playHomeTeam := Some "PHI"; playAwayTeam := Some "DAL";
              homeLineup := lineup_qb; awayLineup := emptyLineup;
              evaluationResult := Some Stated.neutralResult;
              evaluatingLineup := false |}.
Proof.
  apply (backend_outage_gives_the_neutral_result DEV_BACKEND_FALLBACK backend_503
           0 0 playground); intros request; reflexivity.
Defined.

(** The error a response that is not [ok] is turned into carries the
    status and the body text. *)
Example not_found_message :
  getPlayerPredictions DEV_BACKEND_FALLBACK backend_qb "player_999"
  = Rejected "API error 404: Not Found".
Proof. reflexivity. Qed.

(** Against the development backend, the client of [services/teams.js]
    requests the same URL as the client of [services/api.js] and resolves
    to the same forecast; where the latter rejects, it resolves to
    [null]. *)
Theorem teams_client_turns_rejections_into_null
    (backend : Backend) (playerId : string) :
  teams_getPlayerPredictions backend playerId
  = catch_null (getPlayerPredictions DEV_BACKEND_FALLBACK backend playerId).
Proof.
  unfold teams_getPlayerPredictions, getPlayerPredictions, fetchJSON.
  change (API_BASE_URL +:+ "/players/" +:+ playerId +:+ "/predictions")
    with (DEV_BACKEND_FALLBACK +:+ "/api/v1/players/" +:+ playerId +:+ "/predictions").
  destruct (fetchPrediction backend _) as [res|r]; [|done].
  destruct (ok res); [by destruct (json res) | by destruct (text res)].
Qed.

End LineupExtras.

(** ** Playground: properties *)

Module BoardExtras.
Import Js Lineup Samples Board.

Lemma object_set_keys {A} (key : string) (value : A) (obj : list (string * A)) :
  key ∈ obj.*1 → (object_set key value obj).*1 = obj.*1.
Proof.
  induction obj as [|[k v] obj IH]; intros Hin; [by apply elem_of_nil in Hin|].
  simpl. case_decide as Hk; [by subst k|].
  rewrite fmap_cons. simpl. f_equal. apply IH.
  apply elem_of_cons in Hin as [Hin | Hin]; [simpl in Hin; congruence | done].
Qed.

Lemma positionIds_keys (lineup : Roster) : (positionIds lineup).*1 = lineup.*1.
Proof.
  induction lineup as [|[k v] lineup IH]; [done|].
  unfold positionIds in *. rewrite !fmap_cons. simpl. by f_equal.
Qed.

Lemma positionIds_ids (lineup : Roster) :
  omap snd (positionIds lineup) = assignedIds lineup.
Proof.
  unfold assignedIds.
  induction lineup as [|[k [p|]] lineup IH]; [done| |];
    unfold positionIds in *; rewrite fmap_cons; simpl; [by f_equal | done].
Qed.

Lemma assignedIds_length (lineup : Roster) :
  (length (assignedIds lineup) ≤ length lineup)%nat.
Proof.
  unfold assignedIds. rewrite length_fmap.
  induction lineup as [|[k [p|]] lineup IH]; [done| |].
  - change (omap snd ((k, Some p) :: lineup)) with (p :: omap snd lineup).
    simpl. lia.
  - change (omap snd ((k, None) :: lineup)) with (omap snd lineup).
    simpl. lia.
Qed.

Lemma evaluateLineup_lineups (api : Api) (random1 random2 : R) (st st' : Playground) :
  evaluateLineup api random1 random2 st = Normal st' →
  homeLineup st' = homeLineup st ∧ awayLineup st' = awayLineup st.
Proof.
  unfold evaluateLineup. simpl.
  destruct (tryServer api _) as [[r|]|e]; simpl.
  - destruct (winProbability r); simpl.
    + by intros [= <-].
    + destruct (localEvaluateLineup api random1 _ _); simpl; [by intros [= <-]|].
      destruct (localEvaluateLineup api random2 _ _); simpl; [by intros [= <-] | done].
  - destruct (localEvaluateLineup api random1 _ _); simpl; [by intros [= <-]|].
    destruct (localEvaluateLineup api random2 _ _); simpl; [by intros [= <-] | done].
  - destruct (localEvaluateLineup api random2 _ _); simpl; [by intros [= <-] | done].
Qed.

Lemma handle_well_formed (c : Click) (b : Board) :
  well_formed b → offered b c = true → well_formed (handle c b).
Proof.
  unfold well_formed. intros (Hhome & Haway & Hpicker) Hoffered.
  destruct c as [v | v | | pos s | | pl | api r1 r2]; simpl in *.
  - done.
  - done.
  - split_and!; [done | done | exact Hpicker].
  - unfold openPicker. destruct (Engine.truthy_string _); simpl; [|done].
    split_and!; [done | done |]. intros _. exists pos. split; [done|].
    apply andb_prop in Hoffered as [Hpos _]. by apply bool_decide_eq_true in Hpos.
  - split_and!; [done | done | done].
  - destruct (Hpicker Hoffered) as (pos & Hpos & Hin).
    unfold assignPlayerToPosition. rewrite Hpos. simpl.
    case_decide; simpl.
    + split_and!; [|done|done]. rewrite object_set_keys; [done|]. by rewrite Hhome.
    + split_and!; [done| |done]. rewrite object_set_keys; [done|]. by rewrite Haway.
  - destruct (evaluateLineup api r1 r2 (Board.playground b)) as [st|e] eqn:Hrun;
      [|done].
    apply evaluateLineup_lineups in Hrun as [Hh Ha]. simpl.
    by rewrite Hh, Ha.
Qed.

Lemma session_well_formed (clicks : list Click) (b b' : Board) :
  well_formed b → session clicks b = Some b' → well_formed b'.
Proof.
  revert b. induction clicks as [|c clicks IH]; intros b Hb Hrun; simpl in Hrun.
  - by injection Hrun as <-.
  - destruct (offered b c) eqn:Hoffered; [|done].
    eapply IH; [|done]. by apply handle_well_formed.
Qed.

Lemma initialBoard_well_formed : well_formed initialBoard.
Proof. split_and!; [done | done | done]. Qed.

(** Whatever the user clicks in the playground, evaluations against any
    backend included, both lineups keep exactly the seven positions, in
    their order.  The payload of an
    evaluation therefore names the seven positions for each side, and the
    identifiers it carries are the ones the local heuristic would fetch,
    at most seven a side. *)
Theorem lineups_keep_the_seven_positions (clicks : list Click) (b : Board) :
  session clicks initialBoard = Some b →
  let payload := payloadOf (playground b) in
  (homeLineup (playground b)).*1 = PLAY_POSITIONS
  ∧ (awayLineup (playground b)).*1 = PLAY_POSITIONS
  ∧ (homePositions payload).*1 = PLAY_POSITIONS
  ∧ (awayPositions payload).*1 = PLAY_POSITIONS
  ∧ omap snd (homePositions payload) = assignedIds (homeLineup (playground b))
  ∧ omap snd (awayPositions payload) = assignedIds (awayLineup (playground b))
  ∧ (length (assignedIds (homeLineup (playground b))) ≤ 7)%nat
  ∧ (length (assignedIds (awayLineup (playground b))) ≤ 7)%nat.
Proof.
  intros Hrun.
  destruct (session_well_formed clicks initialBoard b initialBoard_well_formed Hrun)
    as (Hhome & Haway & _).
  cbv zeta. unfold payloadOf. simpl.
  rewrite !positionIds_keys, !positionIds_ids.
  split_and!; try done.
  - pose proof (assignedIds_length (homeLineup (playground b))) as Hlen.
    rewrite <- (length_fmap fst), Hhome in Hlen. exact Hlen.
  - pose proof (assignedIds_length (awayLineup (playground b))) as Hlen.
    rewrite <- (length_fmap fst), Haway in Hlen. exact Hlen.
Qed.

(** Philadelphia at home, the quarterback assigned, then a click on an away
    position while no away team is selected, which only alerts. *)
Lemma lineups_keep_the_seven_positions_witness :
  let b := {| Board.playground :=
                {| playHomeTeam := Some "PHI"; playAwayTeam := None;
                   homeLineup := lineup_qb; awayLineup := emptyLineup;
                   evaluationResult := None; evaluatingLineup := false |};
              showPlayerPicker := closedPicker |} in
  let payload := payloadOf (Board.playground b) in
  (homeLineup (Board.playground b)).*1 = PLAY_POSITIONS
  ∧ (awayLineup (Board.playground b)).*1 = PLAY_POSITIONS
  ∧ (homePositions payload).*1 = PLAY_POSITIONS
  ∧ (awayPositions payload).*1 = PLAY_POSITIONS
  ∧ omap snd (homePositions payload) = assignedIds (homeLineup (Board.playground b))
  ∧ omap snd (awayPositions payload) = assignedIds (awayLineup (Board.playground b))
  ∧ (length (assignedIds (homeLineup (Board.playground b))) ≤ 7)%nat
  ∧ (length (assignedIds (awayLineup (Board.playground b))) ≤ 7)%nat.
Proof.
  apply (lineups_keep_the_seven_positions
           [select_home "PHI"; position_button "QB" "home";
            player_button quarterback; position_button "RB" "away"]).
  reflexivity.
Defined.

(** *** Assigning a player *)

Lemma object_get_set {A} (key : string) (value : A) (obj : list (string * A)) :
  object_get key (object_set key value obj) = Some value.
Proof.
  induction obj as [|[k v] obj IH]; simpl.
  - by rewrite decide_True.
  - case_decide as Hk; simpl; [by rewrite decide_True | by rewrite decide_False].
Qed.

Lemma object_get_set_other {A} (key other : string) (value : A)
    (obj : list (string * A)) :
  other ≠ key → object_get other (object_set key value obj) = object_get other obj.
Proof.
  intros Hne. induction obj as [|[k v] obj IH]; simpl.
  - by rewrite decide_False.
  - case_decide as Hk; simpl.
    + subst k. by rewrite !decide_False.
    + case_decide; [done | exact IH].
Qed.

(** Clicking a position of a side whose team is selected and then a
    player puts that player at that position of that side and closes the
    picker.  Every other position of the side, the other side's lineup,
    the teams and a displayed evaluation result stay as they were. *)
Theorem assignment_fills_one_position
    (pos side_ : string) (player : RosterPlayer) (b : Board) :
  Engine.truthy_string (teamOf side_ (Board.playground b)) ≠ None →
  let b' := assignPlayerToPosition player (openPicker pos side_ b).1 in
  object_get pos (lineupOf side_ (Board.playground b')) = Some (Some player)
  ∧ (∀ other, other ≠ pos →
       object_get other (lineupOf side_ (Board.playground b'))
       = object_get other (lineupOf side_ (Board.playground b)))
  ∧ lineupOf (otherSide side_) (Board.playground b')
    = lineupOf (otherSide side_) (Board.playground b)
  ∧ showPlayerPicker b' = closedPicker
  ∧ playHomeTeam (Board.playground b') = playHomeTeam (Board.playground b)
  ∧ playAwayTeam (Board.playground b') = playAwayTeam (Board.playground b)
  ∧ evaluationResult (Board.playground b') = evaluationResult (Board.playground b).
Proof.
  intros Hteam. cbv zeta.
  unfold openPicker, teamOf, lineupOf, otherSide, assignPlayerToPosition in *.
  destruct (decide (side_ = "home")) as [-> | Hside].
  - destruct (Engine.truthy_string (playHomeTeam _)); [|done]. simpl.
    split_and!; try done.
    + apply object_get_set.
    + intros other Hne. by apply object_get_set_other.
  - destruct (Engine.truthy_string (playAwayTeam _)); [|done]. simpl.
    rewrite !(decide_False (P := side_ = "home")) by done. simpl.
    split_and!; try done.
    + apply object_get_set.
    + intros other Hne. by apply object_get_set_other.
Qed.

(** The running back spot of the away side, with Dallas selected. *)
Lemma assignment_fills_one_position_witness :
  let b := {| Board.playground := Samples.playground;
              showPlayerPicker := closedPicker |} in
  let b' := assignPlayerToPosition quarterback (openPicker "RB" "away" b).1 in
  object_get "RB" (awayLineup (Board.playground b')) = Some (Some quarterback)
  ∧ homeLineup (Board.playground b') = lineup_qb.
Proof.
  pose proof (assignment_fills_one_position "RB" "away" quarterback
                {| Board.playground := Samples.playground;
                   showPlayerPicker := closedPicker |}) as H.
  destruct H as (Hget & _ & Hother & _); [done|].
  split; [exact Hget | exact Hother].
Defined.

End BoardExtras.

(** ** Roster cache: properties *)

Module RosterExtras.
Import Js Lineup Samples RosterView RosterSamples.

Ltac view_projections :=
  unfold setPlayerPredictionsLoading, setPlayerPredictionsMap,
    setPlayerPredictionsError, setSelectedRosterPlayer;
  cbn [fst snd selectedRosterPlayer playerPredictionsMap playerPredictionsLoading
       playerPredictionsError].

Lemma toggle_selected (api : Api) (player : RosterPlayer) (w : World) :
  selectedRosterPlayer w.1 = Some (id player) →
  toggleRosterPlayer api player w
  = ({| selectedRosterPlayer := None;
        playerPredictionsMap := playerPredictionsMap w.1;
        playerPredictionsLoading := None;
        playerPredictionsError := playerPredictionsError w.1 |}, w.2).
Proof.
  intros Hselected. unfold toggleRosterPlayer.
  by rewrite decide_True by done.
Qed.

Lemma toggle_cached (api : Api) (player : RosterPlayer) (w : World) :
  selectedRosterPlayer w.1 ≠ Some (id player) →
  cached w.1 (id player) = true →
  toggleRosterPlayer api player w
  = ({| selectedRosterPlayer := Some (id player);
        playerPredictionsMap := playerPredictionsMap w.1;
        playerPredictionsLoading := None;
        playerPredictionsError := playerPredictionsError w.1 |}, w.2).
Proof.
  intros Hselected Hcached. unfold toggleRosterPlayer.
  rewrite decide_False by done. by rewrite Hcached.
Qed.

Lemma toggle_fetched (api : Api) (player : RosterPlayer) (w : World)
    (data : option Prediction) :
  selectedRosterPlayer w.1 ≠ Some (id player) →
  cached w.1 (id player) = false →
  (p ← apiGetPlayerPredictions api (id player); await p) = Normal data →
  toggleRosterPlayer api player w
  = ({| selectedRosterPlayer := Some (id player);
        playerPredictionsMap := <[id player := data]> (playerPredictionsMap w.1);
        playerPredictionsLoading := None;
        playerPredictionsError := None |}, w.2 ++ [id player]).
Proof.
  intros Hselected Hcached Hfetch. unfold toggleRosterPlayer, getPlayerPredictions.
  rewrite decide_False by done. rewrite Hcached. view_projections.
  rewrite Hfetch. view_projections. unfold await at 1. view_projections.
  by rewrite insert_insert_eq.
Qed.

Lemma toggle_failed (api : Api) (player : RosterPlayer) (w : World)
    (reason : string) :
  selectedRosterPlayer w.1 ≠ Some (id player) →
  cached w.1 (id player) = false →
  (p ← apiGetPlayerPredictions api (id player); await p)
  = (Throw reason : Completion (option Prediction)) →
  toggleRosterPlayer api player w
  = ({| selectedRosterPlayer := Some (id player);
        playerPredictionsMap := <[id player := None]> (playerPredictionsMap w.1);
        playerPredictionsLoading := None;
        playerPredictionsError :=
          Some (message_or reason "Failed to load player predictions") |},
     w.2 ++ [id player]).
Proof.
  intros Hselected Hcached Hfetch. unfold toggleRosterPlayer, getPlayerPredictions.
  rewrite decide_False by done. rewrite Hcached. view_projections.
  rewrite Hfetch. view_projections. unfold await at 1. by view_projections.
Qed.

(** When the forecast of a player who is neither selected nor cached is
    fetched successfully, selecting the player, deselecting and selecting
    again (each click handled to completion) makes exactly one request:
    the second selection finds the forecast in the cache.  The selection
    follows the clicks and nothing is left loading. *)
Theorem cached_forecast_is_requested_once
    (api : Api) (player : RosterPlayer) (data : Prediction)
    (s : View) (requests : list string) :
  apiGetPlayerPredictions api (id player) = Normal (Fulfilled (Some data)) →
  selectedRosterPlayer s ≠ Some (id player) →
  cached s (id player) = false →
  let first := toggleRosterPlayer api player (s, requests) in
  let second := toggleRosterPlayer api player first in
  let third := toggleRosterPlayer api player second in
  selectedRosterPlayer first.1 = Some (id player)
  ∧ selectedRosterPlayer second.1 = None
  ∧ selectedRosterPlayer third.1 = Some (id player)
  ∧ playerPredictionsMap third.1 = <[id player := Some data]> (playerPredictionsMap s)
  ∧ playerPredictionsLoading third.1 = None
  ∧ playerPredictionsError third.1 = None
  ∧ third.2 = requests ++ [id player].
Proof.
  intros Hfetch Hselected Hcached. cbv zeta.
  rewrite (toggle_fetched api player (s, requests) (Some data)) by
    (try done; by rewrite Hfetch).
  rewrite toggle_selected by done.
  rewrite toggle_cached.
  - view_projections. by split_and!.
  - view_projections. discriminate.
  - unfold cached. view_projections. by rewrite lookup_insert_eq.
Qed.

(** The quarterback, from the initial state. *)
Lemma cached_forecast_is_requested_once_witness :
  let first := toggleRosterPlayer api_qb quarterback (initialView, []) in
  let second := toggleRosterPlayer api_qb quarterback first in
  let third := toggleRosterPlayer api_qb quarterback second in
  selectedRosterPlayer third.1 = Some "player_001"
  ∧ playerPredictionsMap third.1 = {[ "player_001" := Some hurts ]}
  ∧ third.2 = ["player_001"].
Proof.
  destruct (cached_forecast_is_requested_once api_qb quarterback hurts
              initialView [] eq_refl ltac:(discriminate) eq_refl)
    as (_ & _ & Hselected & Hmap & _ & _ & Hrequests).
  split_and!; [exact Hselected | exact Hmap | exact Hrequests].
Defined.

Lemma message_or_nonempty (err : string) :
  message_or err "Failed to load player predictions" ≠ "".
Proof. unfold message_or. by case_decide. Qed.

(** When the fetch fails (the call throws or its promise rejects), the
    player is still shown as selected, an error message is recorded,
    nothing is left loading, and the cache holds [null] for the player,
    which does not count as cached: deselecting and selecting the player
    again makes a second request. *)
Theorem failed_forecast_is_requested_again
    (api : Api) (player : RosterPlayer) (s : View) (requests : list string) :
  failed (apiGetPlayerPredictions api (id player)) →
  selectedRosterPlayer s ≠ Some (id player) →
  cached s (id player) = false →
  let first := toggleRosterPlayer api player (s, requests) in
  let second := toggleRosterPlayer api player first in
  let third := toggleRosterPlayer api player second in
  selectedRosterPlayer first.1 = Some (id player)
  ∧ playerPredictionsMap first.1 = <[id player := None]> (playerPredictionsMap s)
  ∧ cached first.1 (id player) = false
  ∧ (∃ msg, playerPredictionsError first.1 = Some msg ∧ msg ≠ "")
  ∧ playerPredictionsLoading first.1 = None
  ∧ first.2 = requests ++ [id player]
  ∧ second.2 = requests ++ [id player]
  ∧ third = (first.1, requests ++ [id player; id player]).
Proof.
  intros Hfailed Hselected Hcached. cbv zeta.
  assert (∃ reason, (p ← apiGetPlayerPredictions api (id player); await p)
                    = (Throw reason : Completion (option Prediction)))
    as [reason Hreason].
  { unfold failed in Hfailed.
    destruct (apiGetPlayerPredictions api (id player)) as [[v|r]|e];
      [done | by exists r | by exists e]. }
  set (msg := message_or reason "Failed to load player predictions").
  rewrite (toggle_failed api player (s, requests) reason) by done. fold msg.
  rewrite toggle_selected by done.
  rewrite (toggle_failed api player _ reason).
  - view_projections. fold msg.
    rewrite insert_insert_eq, <- app_assoc. split_and!; try done.
    + unfold cached. view_projections. by rewrite lookup_insert_eq.
    + exists msg. split; [done | apply message_or_nonempty].
  - view_projections. discriminate.
  - unfold cached. view_projections. by rewrite lookup_insert_eq.
  - done.
Qed.

(** A tight end the collaborator does not know. *)
Lemma failed_forecast_is_requested_again_witness :
  let unknown := {| id := "player_404"; first_name := "A."; last_name := "Nobody" |} in
  let first := toggleRosterPlayer api_qb unknown (initialView, []) in
  let third := toggleRosterPlayer api_qb unknown
                 (toggleRosterPlayer api_qb unknown first) in
  playerPredictionsMap first.1 = {[ "player_404" := None ]}
  ∧ third.2 = ["player_404"; "player_404"].
Proof.
  destruct (failed_forecast_is_requested_again api_qb
              {| id := "player_404"; first_name := "A."; last_name := "Nobody" |}
              initialView [] I ltac:(discriminate) eq_refl)
    as (_ & Hmap & _ & _ & _ & _ & _ & Hthird).
  split; [exact Hmap | by rewrite Hthird].
Defined.

End RosterExtras.

(** ** Chat and sending: properties *)

Module ChatExtras.
Import Js Engine Samples MoreSamples EngineClaims Chat ChatSamples.

Ltac unfold_chat :=
  unfold handleChatSubmit, rendered_predictions in *; unfold_handler.

(** A question that is not blank, submitted while the [ws] hook holds an
    open socket, is appended to the chat as a user message, marks the
    assistant as thinking and empties the input; it is sent as one
    [cedar_question] carrying the same player as the message shows,
    provided [wsRef] holds an open socket too, and is not sent otherwise.
    A [cedar_answer] delivered afterwards is appended right after the
    question and ends the thinking. *)
Theorem question_then_answer
    (JSON_parse : string → option Json) (env env' : Env) (form : Form)
    (data : string) (message : Message) (st : Dashboard) (effects : list Effect) :
  is_blank (currentQuestion form) = false →
  ws form = Some OPEN →
  JSON_parse data = Some (JsonObject message) →
  type message = Some "cedar_answer" →
  let asked := handleChatSubmit env form (st, effects) in
  let answered := onmessage JSON_parse env' data asked.1 in
  ∃ question reply,
    chatMessages asked.1.1 = chatMessages st ++ [question]
    ∧ chatMessages answered.1.1 = chatMessages st ++ [question; reply]
    ∧ chat_type question = "user"
    ∧ text question = currentQuestion form
    ∧ chat_type reply = "assistant"
    ∧ isAssistantThinking asked.1.1 = true
    ∧ isAssistantThinking answered.1.1 = false
    ∧ sent answered.1.2
      = sent effects
        ++ (if decide (wsRef env = Some OPEN)
            then [cedar_question (currentQuestion form) (playerId question)]
            else [])
    ∧ asked.2 = Normal {| currentQuestion := ""; selectedPlayer := selectedPlayer form;
                          ws := ws form |}.
Proof.
  intros Hblank Hws Hparse Htype. cbv zeta.
  unfold onmessage. rewrite Hparse.
  unfold_chat. rewrite Hblank, Hws. simpl. rewrite Htype. simpl.
  destruct (wsRef env) as [[]|]; simpl;
    do 2 eexists;
    (split; [reflexivity|]);
    (split; [rewrite <- app_assoc; reflexivity|]);
    (split_and!; try reflexivity);
    rewrite !sent_app; simpl; by rewrite ?app_nil_r.
Qed.

(** The question about the quarterback on screen, then the answer. *)
Lemma question_then_answer_witness :
  let asked := handleChatSubmit env_open asking (watching [record_of hurts], []) in
  let answered := onmessage sample_parse2 env_open "cedar_answer" asked.1 in
  (text <$> chatMessages answered.1.1
   = ["Will he throw for 300 yards?"; "He has thrown well against this defence."])
  ∧ sent answered.1.2
    = [cedar_question "Will he throw for 300 yards?" (Some "player_001")]
  ∧ isAssistantThinking answered.1.1 = false.
Proof.
  destruct (question_then_answer sample_parse2 env_open env_open asking
              "cedar_answer"
              (with_answer "He has thrown well against this defence."
                 (Some "player_001") (with_type "cedar_answer" blank))
              (watching [record_of hurts]) [] eq_refl eq_refl eq_refl eq_refl)
    as (question & reply & _ & Hchat & _ & _ & _ & _ & Hdone & _ & _).
  split_and!; [reflexivity | reflexivity | exact Hdone].
Defined.

(** A question of Unicode spaces only is blank: nothing is appended and
    nothing is sent. *)
Example spaces_only_is_ignored :
  is_blank (currentQuestion spaces_only) = true
  ∧ handleChatSubmit env_open spaces_only (initialState, [])
    = ((initialState, []), Normal spaces_only).
Proof. split; reflexivity. Qed.

(** *** Sending *)

(** Unless [wsRef] holds a socket whose state is [OPEN], none of the
    three senders sends anything: not the message handler, whatever
    payload arrives, not a submitted question, not a scenario button. *)
Theorem nothing_is_sent_unless_the_socket_is_open
    (JSON_parse : string → option Json) (env : Env) (data : string)
    (form : Form) (scenarioType : string) (w : Dashboard * list Effect) :
  wsRef env ≠ Some OPEN →
  sent (onmessage JSON_parse env data w).1.2 = sent w.2
  ∧ sent (handleChatSubmit env form w).1.2 = sent w.2
  ∧ sent (handleScenarioChange env scenarioType w).1.2 = sent w.2.
Proof.
  intros Hclosed. destruct w as [st effects].
  destruct env as [socket scope now jitter]. simpl in Hclosed.
  destruct socket as [[]|]; [| done | | |].
  all: split_and!; [| unfold_chat; simpl; by destruct (is_blank _ || negb _) | done].
  all: unfold_handler; destruct (JSON_parse data) as [[|message]|]; simpl.
  all: rewrite ?sent_app; simpl; rewrite ?app_nil_r; auto.
  all: destruct message as [ty gs ip ev up ex sc ups pn pid ans]; simpl.
  all: repeat case_decide; simplify_eq; simpl.
  all: repeat match goal with
              | |- context [match ?x with _ => _ end] => is_var x; destruct x; simpl
              | |- context [bool_decide ?P] => destruct (bool_decide P); simpl
              end.
  all: rewrite ?sent_app; simpl; rewrite ?app_nil_r; auto.
Qed.

(** A closed socket: the final whistle, a question and a scenario button. *)
Lemma nothing_is_sent_unless_the_socket_is_open_witness :
  sent (onmessage sample_parse env_closed "tick Q4 0:00" (initialState, [])).1.2 = []
  ∧ sent (handleChatSubmit env_closed asking (initialState, [])).1.2 = []
  ∧ sent (handleScenarioChange env_closed "weather_change" (initialState, [])).1.2 = [].
Proof.
  apply (nothing_is_sent_unless_the_socket_is_open sample_parse env_closed
           "tick Q4 0:00" asking "weather_change" (initialState, [])).
  discriminate.
Defined.

End ChatExtras.

(** ** Confidence circle and the other listing: properties *)

Module CircleExtras.
Import Js Display Circle DisplayClaims.

Lemma toFixed0_between (lo hi : Z) (x : R) :
  0 <= x → IZR lo <= x → x < IZR hi → (lo <= toFixed0 x <= hi)%Z.
Proof.
  intros H0 Hlo Hhi. unfold toFixed0. destruct (Rlt_dec x 0); [lra|].
  pose proof (Zfloor_bound (x + / 2)) as [H1 H2].
  split.
  - apply Zfloor_lub. lra.
  - apply Z.lt_succ_r, lt_IZR. rewrite succ_IZR. lra.
Qed.

(** The colour of the ring agrees with the percentage printed inside it:
    a green ring shows between 85 and 100, an amber ring between 50 and
    85, a red ring between 0 and 50.  For a circle at least as wide as
    its stroke, the undrawn part of the ring lies between nothing and the
    whole circumference, whatever confidence is passed in. *)
Theorem ring_agrees_with_its_label (confidence : option R) (size : R) :
  stroke <= size →
  match color confidence with
  | green_400 => (85 <= circleLabel confidence <= 100)%Z
  | amber_500 => (50 <= circleLabel confidence <= 85)%Z
  | red_400 => (0 <= circleLabel confidence <= 50)%Z
  end
  ∧ 0 <= dashOffset confidence size <= circumference size.
Proof.
  intros Hsize. pose proof (pct_range confidence) as Hpct. split.
  - unfold color, circleLabel.
    destruct (Rle_dec 0.85 (pct confidence)); [|destruct (Rle_dec 0.5 (pct confidence))].
    + split; [|apply toFixed0_percent; lra].
      apply (toFixed0_between 85 101); lra.
    + apply (toFixed0_between 50 85); lra.
    + apply (toFixed0_between 0 50); lra.
  - unfold dashOffset, circumference, radius, stroke in *.
    pose proof PI_RGT_0 as Hpi.
    assert (0 <= 2 * PI * ((size - 4) / 2)) as Hc by nra.
    nra.
Qed.

(** The default size, at the quarterback's confidence. *)
Lemma ring_agrees_with_its_label_witness :
  match color (Some 0.817) with
  | green_400 => (85 <= circleLabel (Some 0.817%R) <= 100)%Z
  | amber_500 => (50 <= circleLabel (Some 0.817%R) <= 85)%Z
  | red_400 => (0 <= circleLabel (Some 0.817%R) <= 50)%Z
  end
  ∧ 0 <= dashOffset (Some 0.817) 44 <= circumference 44.
Proof.
  apply (ring_agrees_with_its_label (Some 0.817) 44). unfold stroke. lra.
Defined.

End CircleExtras.

Module CompleteFileExtras.
Import Js Engine EngineClaims.

Lemma stored_ten_events (updates : list CompleteFile.LiveUpdate) :
  CompleteFile.stored updates = take 10 (reverse (CompleteFile.newEvent <$> updates)).
Proof.
  unfold CompleteFile.stored.
  induction updates as [|message updates IH] using rev_ind; [done|].
  rewrite foldl_app, fmap_app, reverse_app. simpl. rewrite IH.
  unfold CompleteFile.addLiveEvent. f_equal.
  rewrite take_take. by rewrite Nat.min_l by lia.
Qed.

Lemma stored_five_events (events : list LiveEvent) :
  NoDup (event_id <$> events) →
  foldl (λ prev ev, Engine.addLiveEvent ev prev) [] events
  = take 5 (reverse events).
Proof.
  induction events as [|ev events IH] using rev_ind; intros Hnodup; [done|].
  rewrite fmap_app in Hnodup. apply NoDup_app in Hnodup as (Hevents & Hfresh & _).
  rewrite foldl_app, reverse_app. simpl. rewrite IH by done.
  rewrite addLiveEvent_new.
  - simpl. f_equal. rewrite take_take. by rewrite Nat.min_l by lia.
  - intros Hin. apply list_elem_of_fmap in Hin as (ev' & Hid & Hin).
    apply elem_of_take in Hin as (i & Hin & _).
    apply list_elem_of_lookup_2 in Hin. rewrite elem_of_reverse in Hin.
    apply (Hfresh (event_id ev)).
    + apply list_elem_of_fmap. by exists ev'.
    + rewrite list_fmap_singleton. by left.
Qed.

(** The current handler's [live_update] branch, on the events list. *)
Lemma onLiveUpdate_liveEvents (message : CompleteFile.LiveUpdate)
    (w : Dashboard * list Effect) :
  liveEvents (onLiveUpdate (CompleteFile.toMessage message) w).1.1
  = Engine.addLiveEvent (CompleteFile.update_event message) (liveEvents w.1).
Proof.
  destruct message as [gs [i t d q ts] pn im mts]. destruct w as [st effects].
  unfold_handler. reflexivity.
Qed.

Lemma current_events_from (updates : list CompleteFile.LiveUpdate)
    (w : Dashboard * list Effect) :
  liveEvents
    (foldl (λ w message, (onLiveUpdate (CompleteFile.toMessage message) w).1)
       w updates).1
  = foldl (λ prev ev, Engine.addLiveEvent ev prev) (liveEvents w.1)
      (CompleteFile.update_event <$> updates).
Proof.
  revert w. induction updates as [|message updates IH]; intros w; [done|].
  rewrite fmap_cons. cbn [foldl].
  by rewrite IH, onLiveUpdate_liveEvents.
Qed.

Lemma current_events (updates : list CompleteFile.LiveUpdate) :
  CompleteFile.current updates
  = foldl (λ prev ev, Engine.addLiveEvent ev prev) []
      (CompleteFile.update_event <$> updates).
Proof. apply current_events_from. Qed.

(** The "COMPLETE FILE" listing stores the ten most recent live events,
    built from the message with the time of [message.timestamp], and does
    not look at their identifiers.  On a stream whose events have pairwise
    distinct identifiers, the five events the current handler stores
    agree, position by position, with the five that listing renders in
    identifier, type, description and quarter; the time shown is that of
    [message.event.timestamp] in the one and of [message.timestamp] in the
    other. *)
Theorem both_listings_show_the_same_events
    (updates : list CompleteFile.LiveUpdate) :
  let other := CompleteFile.stored updates in
  let current := CompleteFile.current updates in
  let latest := take 5 (reverse updates) in
  other = take 10 (reverse (CompleteFile.newEvent <$> updates))
  ∧ (NoDup ((λ message, event_id (CompleteFile.update_event message)) <$> updates) →
     CompleteFile.line <$> current
     = CompleteFile.storedLine <$> CompleteFile.shown other
     ∧ event_timestamp <$> current
       = (λ message, event_timestamp (CompleteFile.update_event message)) <$> latest
     ∧ CompleteFile.stored_timestamp <$> CompleteFile.shown other
       = CompleteFile.update_timestamp <$> latest).
Proof.
  cbv zeta. rewrite stored_ten_events. split; [done|].
  intros Hnodup. rewrite current_events.
  rewrite stored_five_events by (by rewrite <- list_fmap_compose).
  unfold CompleteFile.shown. rewrite take_take, Nat.min_l by lia.
  rewrite <- !fmap_reverse, <- !fmap_take, <- !list_fmap_compose.
  done.
Qed.

(** Two distinct plays, the second stamped by the server. *)
Lemma both_listings_show_the_same_events_witness :
  let updates := [ListingSamples.completed; ListingSamples.sacked] in
  CompleteFile.line <$> CompleteFile.current updates
  = CompleteFile.storedLine <$> CompleteFile.shown (CompleteFile.stored updates).
Proof.
  destruct (both_listings_show_the_same_events [ListingSamples.completed; ListingSamples.sacked])
    as [_ Hcurrent].
  apply Hcurrent. repeat constructor; rewrite ?elem_of_cons, ?elem_of_nil;
    intuition discriminate.
Defined.

(** *** Replacing forecasts *)

Lemma replacePrediction_cons
    (updated : Prediction) (expl : option Explanation)
    (r : ForecastRecord) (prev : list ForecastRecord) :
  Engine.replacePrediction updated expl (r :: prev)
  = if decide (player_id (prediction r) = player_id updated)
    then {| prediction := updated; explanation := expl |} :: prev
    else r :: Engine.replacePrediction updated expl prev.
Proof.
  unfold Engine.replacePrediction, findIndex. simpl.
  case_decide; [done|].
  by destruct (list_find _ prev) as [[i found]|].
Qed.

Lemma map_replacement_unknown
    (updated : Prediction) (expl : option Explanation) (prev : list ForecastRecord) :
  player_id updated ∉ CompleteFile.playerOf <$> prev →
  CompleteFile.replacePrediction updated expl prev = prev.
Proof.
  unfold CompleteFile.replacePrediction.
  induction prev as [|r prev IH]; intros Hnone; [done|].
  rewrite fmap_cons in Hnone. apply not_elem_of_cons in Hnone as [Hr Hprev].
  rewrite fmap_cons, IH by done.
  rewrite decide_False; [done|]. unfold CompleteFile.playerOf in Hr. congruence.
Qed.

(** On a forecast set whose players are pairwise distinct, the [map] of
    the "COMPLETE FILE" listing and the [findIndex] replacement of the
    current handler give the same array. *)
Theorem map_replacement_agrees_on_distinct_players
    (updated : Prediction) (expl : option Explanation) (prev : list ForecastRecord) :
  NoDup (CompleteFile.playerOf <$> prev) →
  CompleteFile.replacePrediction updated expl prev
  = Engine.replacePrediction updated expl prev.
Proof.
  induction prev as [|r prev IH]; intros Hnodup; [done|].
  rewrite fmap_cons in Hnodup. apply NoDup_cons in Hnodup as [Hfresh Hnodup].
  rewrite replacePrediction_cons.
  unfold CompleteFile.replacePrediction in *. rewrite fmap_cons.
  case_decide as Hid.
  - f_equal. apply (map_replacement_unknown updated expl prev).
    unfold CompleteFile.playerOf in *. by rewrite <- Hid.
  - f_equal. by apply IH.
Qed.

(** The quarterback's forecast updated among two players. *)
Lemma map_replacement_agrees_on_distinct_players_witness :
  CompleteFile.replacePrediction Samples.hurts_updated None
    [Samples.record_of Samples.receiver; Samples.record_of Samples.hurts]
  = [Samples.record_of Samples.receiver; Samples.record_of Samples.hurts_updated].
Proof.
  rewrite (map_replacement_agrees_on_distinct_players Samples.hurts_updated None
             [Samples.record_of Samples.receiver; Samples.record_of Samples.hurts]).
  - reflexivity.
  - repeat constructor; rewrite ?elem_of_cons, ?elem_of_nil; intuition discriminate.
Defined.

Lemma updateFor_cons_same (update : ForecastRecord) (updates : list ForecastRecord)
    (p : ForecastRecord) :
  CompleteFile.playerOf update = CompleteFile.playerOf p →
  CompleteFile.updateFor (update :: updates) p = update.
Proof. intros Hid. unfold CompleteFile.updateFor. simpl. by rewrite decide_True. Qed.

Lemma updateFor_cons_other (update : ForecastRecord) (updates : list ForecastRecord)
    (p : ForecastRecord) :
  CompleteFile.playerOf update ≠ CompleteFile.playerOf p →
  CompleteFile.updateFor (update :: updates) p = CompleteFile.updateFor updates p.
Proof.
  intros Hid. unfold CompleteFile.updateFor. simpl. rewrite decide_False by done.
  by destruct (list_find _ updates) as [[i found]|].
Qed.

Lemma updateFor_unknown (updates : list ForecastRecord) (p : ForecastRecord) :
  CompleteFile.playerOf p ∉ CompleteFile.playerOf <$> updates →
  CompleteFile.updateFor updates p = p.
Proof.
  induction updates as [|update updates IH]; intros Hnone; [done|].
  rewrite fmap_cons in Hnone. apply not_elem_of_cons in Hnone as [Hne Hnone].
  rewrite updateFor_cons_other by done. by apply IH.
Qed.

(** With pairwise distinct players among the updates, the merge puts in
    each record's place the update for its player, if there is one. *)
Lemma mergePredictions_updateFor (updates prev : list ForecastRecord) :
  NoDup (CompleteFile.playerOf <$> updates) →
  CompleteFile.mergePredictions updates prev = CompleteFile.updateFor updates <$> prev.
Proof.
  unfold CompleteFile.mergePredictions.
  revert prev. induction updates as [|update updates IH]; intros prev Hnodup.
  - simpl. induction prev as [|p prev IHp]; [done|].
    rewrite fmap_cons. by f_equal.
  - rewrite fmap_cons in Hnodup. apply NoDup_cons in Hnodup as [Hfresh Hnodup].
    simpl. rewrite IH by done. rewrite <- list_fmap_compose.
    apply list_fmap_ext. intros i p _. simpl.
    fold (CompleteFile.playerOf p). fold (CompleteFile.playerOf update).
    case_decide as Hid.
    + rewrite updateFor_cons_same by done. by apply updateFor_unknown.
    + by rewrite updateFor_cons_other.
Qed.

(** The "COMPLETE FILE" listing merges the forecasts of a
    [scenario_update] into the array by player, where the current handler
    replaces the array.  When the update names the same pairwise distinct
    players in the same order as the array, the merge yields the update
    itself. *)
Theorem merge_agrees_when_every_player_is_updated
    (updates prev : list ForecastRecord) :
  CompleteFile.playerOf <$> updates = CompleteFile.playerOf <$> prev →
  NoDup (CompleteFile.playerOf <$> prev) →
  CompleteFile.mergePredictions updates prev = updates.
Proof.
  intros Hsame Hnodup.
  rewrite mergePredictions_updateFor by (by rewrite Hsame).
  revert prev Hsame Hnodup.
  induction updates as [|update updates IH]; intros [|p prev] Hsame Hnodup;
    try done.
  rewrite !fmap_cons in Hsame. injection Hsame as Hid Hsame.
  rewrite fmap_cons in Hnodup. apply NoDup_cons in Hnodup as [Hfresh Hnodup].
  rewrite fmap_cons, updateFor_cons_same by done. f_equal.
  rewrite <- (IH prev Hsame Hnodup) at 2.
  apply Forall_fmap_ext_1, Forall_forall. intros q Hq.
  apply updateFor_cons_other. rewrite Hid. intros Heq.
  apply Hfresh. rewrite Heq. by apply list_elem_of_fmap_2.
Qed.

(** Both players on screen updated at once. *)
Lemma merge_agrees_when_every_player_is_updated_witness :
  CompleteFile.mergePredictions
    [Samples.record_of Samples.receiver; Samples.record_of Samples.hurts_updated]
    [Samples.record_of Samples.receiver; Samples.record_of Samples.hurts]
  = [Samples.record_of Samples.receiver; Samples.record_of Samples.hurts_updated].
Proof.
  apply (merge_agrees_when_every_player_is_updated
           [Samples.record_of Samples.receiver; Samples.record_of Samples.hurts_updated]
           [Samples.record_of Samples.receiver; Samples.record_of Samples.hurts]).
  - reflexivity.
  - repeat constructor; rewrite ?elem_of_cons, ?elem_of_nil; intuition discriminate.
Defined.

End CompleteFileExtras.

(** ** Team rosters of the playground: properties *)

Module PlayersCacheExtras.
Import Js Lineup PlayersCache PlayersCacheSamples.

Lemma loadPlayersFor_cases (getTeamPlayers : GetTeamPlayers)
    (rendered : gmap string (list RosterPlayer)) (teamId : option string)
    (w : World) :
  loadPlayersFor getTeamPlayers rendered teamId w = w
  ∨ ∃ team players,
      Engine.truthy_string teamId = Some team
      ∧ rendered !! team = None
      ∧ loadPlayersFor getTeamPlayers rendered teamId w
        = (<[team := players]> w.1, w.2 ++ [team]).
Proof.
  unfold loadPlayersFor.
  destruct (Engine.truthy_string teamId) as [team|]; [|by left].
  destruct (rendered !! team) eqn:Hteam; [by left|].
  right. destruct (_ ← getTeamPlayers team; await _); by do 2 eexists.
Qed.

(** Every run of the effect requests only teams that are not in the
    cache it was rendered with, and leaves every team it requested in the
    cache. *)
Lemma loadPlayers_requests (getTeamPlayers : GetTeamPlayers)
    (teams : option string * option string) (w : World) :
  ∃ new,
    (loadPlayers getTeamPlayers teams w).2 = w.2 ++ new
    ∧ (∀ team, team ∈ new → w.1 !! team = None)
    ∧ (∀ team, team ∈ new → is_Some ((loadPlayers getTeamPlayers teams w).1 !! team))
    ∧ (∀ team, is_Some (w.1 !! team) →
               is_Some ((loadPlayers getTeamPlayers teams w).1 !! team)).
Proof.
  unfold loadPlayers.
  destruct (loadPlayersFor_cases getTeamPlayers w.1 teams.1 w)
    as [-> | (home & hp & _ & Hhome & ->)];
    [destruct (loadPlayersFor_cases getTeamPlayers w.1 teams.2 w)
       as [-> | (away & ap & _ & Haway & ->)]
    |destruct (loadPlayersFor_cases getTeamPlayers w.1 teams.2
                 (<[home:=hp]> w.1, w.2 ++ [home]))
       as [-> | (away & ap & _ & Haway & ->)]]; simpl.
  - exists []. rewrite app_nil_r. split_and!; [done | | | done];
      intros team Hin; by apply elem_of_nil in Hin.
  - exists [away]. split_and!; [done | | |].
    + intros team ->%list_elem_of_singleton. done.
    + intros team ->%list_elem_of_singleton. by rewrite lookup_insert_eq.
    + intros team Hin. rewrite lookup_insert_is_Some. destruct (decide (away = team)); auto.
  - exists [home]. split_and!; [done | | |].
    + intros team ->%list_elem_of_singleton. done.
    + intros team ->%list_elem_of_singleton. by rewrite lookup_insert_eq.
    + intros team Hin. rewrite lookup_insert_is_Some. destruct (decide (home = team)); auto.
  - exists [home; away]. rewrite <- app_assoc. split_and!; [done | | |].
    + intros team Hin. apply elem_of_cons in Hin as [-> | ->%list_elem_of_singleton]; done.
    + intros team Hin. rewrite !lookup_insert_is_Some.
      apply elem_of_cons in Hin as [-> | ->%list_elem_of_singleton].
      * destruct (decide (away = home)); auto.
      * by left.
    + intros team Hin. rewrite !lookup_insert_is_Some.
      destruct (decide (away = team)); [by left|]. right. split; [done|].
      destruct (decide (home = team)); auto.
Qed.

Lemma selections_cached (getTeamPlayers : GetTeamPlayers)
    (chosen : list (option string * option string)) (team : string) :
  team ∈ (selections getTeamPlayers chosen).2 →
  is_Some ((selections getTeamPlayers chosen).1 !! team).
Proof.
  unfold selections.
  induction chosen as [|teams chosen IH] using rev_ind; intros Hin.
  - by apply elem_of_nil in Hin.
  - rewrite foldl_app in *. simpl in *.
    set (w := foldl _ _ chosen) in *.
    destruct (loadPlayers_requests getTeamPlayers teams w)
      as (new & Hlog & _ & Hnew & Hkept).
    rewrite Hlog in Hin. apply elem_of_app in Hin as [Hin | Hin]; auto.
Qed.

(** A team's roster is never requested in two runs of the effect: after
    any sequence of team selections, each handled to completion, a further
    selection requests only teams that were never requested before,
    whether the earlier request succeeded or failed (a failure is cached
    as the empty roster). *)
Theorem roster_is_never_requested_again
    (getTeamPlayers : GetTeamPlayers)
    (chosen : list (option string * option string))
    (teams : option string * option string) :
  let before := selections getTeamPlayers chosen in
  let after := selections getTeamPlayers (chosen ++ [teams]) in
  ∃ new, after.2 = before.2 ++ new ∧ ∀ team, team ∈ new → team ∉ before.2.
Proof.
  cbv zeta. unfold selections at 1 2. rewrite foldl_app. simpl.
  fold (selections getTeamPlayers chosen).
  destruct (loadPlayers_requests getTeamPlayers teams (selections getTeamPlayers chosen))
    as (new & Hlog & Hfresh & _).
  exists new. split; [done|]. intros team Hin Hbefore.
  apply selections_cached in Hbefore as [players Hcached].
  specialize (Hfresh team Hin). congruence.
Qed.

(** Philadelphia against Dallas, whose roster fails to load, then
    Philadelphia against Dallas again after a detour: Dallas is not
    requested a second time. *)
Lemma roster_is_never_requested_again_witness :
  let chosen := [(Some "PHI", Some "DAL"); (Some "PHI", None)] in
  ∃ new,
    (selections roster_api (chosen ++ [(Some "PHI", Some "DAL")])).2
    = ["PHI"; "DAL"] ++ new
    ∧ "DAL" ∉ new.
Proof.
  destruct (roster_is_never_requested_again roster_api
              [(Some "PHI", Some "DAL"); (Some "PHI", None)]
              (Some "PHI", Some "DAL")) as (new & Hlog & Hfresh).
  exists new. split; [exact Hlog|].
  intros Hin. apply (Hfresh "DAL" Hin).
  change ("DAL" ∈ ["PHI"; "DAL"]). apply list_elem_of_further, list_elem_of_here.
Defined.

End PlayersCacheExtras.

(** ** Socket lifecycle: properties *)

Module ConnectionExtras.
Import Connection.

(** Whatever socket events occur after the dashboard is mounted, the [ws]
    hook and [wsRef.current] hold the same thing, which is the socket
    that was created or nothing, and [isConnected] is true only while
    they hold the socket. *)
Theorem hook_and_ref_hold_the_same_socket
    (created : option nat) (events : list SocketEvent) :
  let l := after created events in
  ws l = wsRef_current l
  ∧ (wsRef_current l = created ∨ wsRef_current l = None)
  ∧ (isConnected l = true → wsRef_current l = created ∧ is_Some created).
Proof.
  cbv zeta. unfold after. destruct created as [websocket|]; [|by split_and!; auto].
  induction events as [|ev events IH] using rev_ind.
  - split_and!; [done | by left | done].
  - rewrite foldl_app. simpl.
    destruct IH as (Hsame & Hwhich & Hconnected).
    destruct ev; simpl; split_and!; auto; done.
Qed.

(** Opened, failed, opened again. *)
Lemma hook_and_ref_hold_the_same_socket_witness :
  isConnected (after (Some 1%nat) [onopen; onerror; onopen]) = true
  ∧ wsRef_current (after (Some 1%nat) [onopen; onerror; onopen]) = Some 1%nat.
Proof.
  destruct (hook_and_ref_hold_the_same_socket (Some 1%nat) [onopen; onerror; onopen])
    as (_ & _ & Hconnected).
  split; [reflexivity|]. by destruct (Hconnected eq_refl).
Defined.

End ConnectionExtras.
